(** * radsecproxy: a shallow embedding of the proxy engine

    The development follows [radsecproxy.c].  Packets are byte lists
    ([list Z], one element per octet), C integers are [Z] with their
    wrap-around written out, and pointers to heap objects (clients,
    servers) are indices into the tables that own them.  Library calls
    the engine relies on are given executable counterparts: the OpenSSL
    MD5 digest and HMAC (RFC 1321, RFC 2104), [getopt] and [inet_pton].
    Memory allocation is taken to succeed and log output is not modelled. *)

From Stdlib Require Import ZArith List Lia Bool String Ascii.
From stdpp Require Import base list relations.
Import ListNotations.
Local Open Scope Z_scope.

(** ** Octets and buffers *)

Abbreviation byte := Z (only parsing).
Abbreviation buffer := (list Z) (only parsing).

(** [memcpy(dst + off, src, |src|)] inside a buffer that is long enough. *)
Definition memcpy (dst : buffer) (off : nat) (src : buffer) : buffer :=
  take off dst ++ src ++ drop (off + length src) dst.

(** The [n] octets at [p + off]. *)
Definition peek (p : buffer) (off n : nat) : buffer := take n (drop off p).

Definition xor_bytes (a b : buffer) : buffer := zip_with Z.lxor a b.

Definition zeros (n : nat) : buffer := repeat 0 n.

(** ** MD5 (RFC 1321) and HMAC-MD5 (RFC 2104), as computed by OpenSSL *)

Module Digest.

Definition w32 (x : Z) : Z := x mod 4294967296.

Definition rotl32 (x s : Z) : Z :=
  Z.lor (w32 (Z.shiftl x s)) (Z.shiftr x (32 - s)).

Definition not32 (x : Z) : Z := Z.lxor x 4294967295.

Definition md5_K : list Z :=
  [ 3614090360; 3905402710; 606105819; 3250441966;
    4118548399; 1200080426; 2821735955; 4249261313;
    1770035416; 2336552879; 4294925233; 2304563134;
    1804603682; 4254626195; 2792965006; 1236535329;
    4129170786; 3225465664; 643717713; 3921069994;
    3593408605; 38016083; 3634488961; 3889429448;
    568446438; 3275163606; 4107603335; 1163531501;
    2850285829; 4243563512; 1735328473; 2368359562;
    4294588738; 2272392833; 1839030562; 4259657740;
    2763975236; 1272893353; 4139469664; 3200236656;
    681279174; 3936430074; 3572445317; 76029189;
    3654602809; 3873151461; 530742520; 3299628645;
    4096336452; 1126891415; 2878612391; 4237533241;
    1700485571; 2399980690; 4293915773; 2240044497;
    1873313359; 4264355552; 2734768916; 1309151649;
    4149444226; 3174756917; 718787259; 3951481745 ].

Definition md5_S : list Z :=
  [ 7; 12; 17; 22; 7; 12; 17; 22; 7; 12; 17; 22; 7; 12; 17; 22;
    5; 9; 14; 20; 5; 9; 14; 20; 5; 9; 14; 20; 5; 9; 14; 20;
    4; 11; 16; 23; 4; 11; 16; 23; 4; 11; 16; 23; 4; 11; 16; 23;
    6; 10; 15; 21; 6; 10; 15; 21; 6; 10; 15; 21; 6; 10; 15; 21 ].

Record md5_state := MkMd5 { rA : Z; rB : Z; rC : Z; rD : Z }.

Definition md5_init : md5_state :=
  MkMd5 1732584193 4023233417 2562383102 271733878.

(** Little-endian 32-bit word at byte offset [4 * k] of a block. *)
Definition le_word (blk : buffer) (k : nat) : Z :=
  nth (4 * k) blk 0 + 256 * nth (4 * k + 1) blk 0
  + 65536 * nth (4 * k + 2) blk 0 + 16777216 * nth (4 * k + 3) blk 0.

Definition le_bytes (n : nat) (x : Z) : buffer :=
  map (fun k => (x / 256 ^ Z.of_nat k) mod 256) (seq 0 n).

Definition md5_step (blk : buffer) (st : md5_state) (i : nat) : md5_state :=
  let '(MkMd5 a b c d) := st in
  let '(f, g) :=
    if (i <? 16)%nat then (Z.lor (Z.land b c) (Z.land (not32 b) d), i)
    else if (i <? 32)%nat then
      (Z.lor (Z.land d b) (Z.land (not32 d) c), ((5 * i + 1) mod 16)%nat)
    else if (i <? 48)%nat then
      (Z.lxor b (Z.lxor c d), ((3 * i + 5) mod 16)%nat)
    else (Z.lxor c (Z.lor b (not32 d)), ((7 * i) mod 16)%nat) in
  let f' := w32 (f + a + nth i md5_K 0 + le_word blk g) in
  MkMd5 d (w32 (b + rotl32 f' (nth i md5_S 0))) b c.

Definition md5_block (st : md5_state) (blk : buffer) : md5_state :=
  let st' := fold_left (md5_step blk) (seq 0 64) st in
  MkMd5 (w32 (rA st + rA st')) (w32 (rB st + rB st'))
        (w32 (rC st + rC st')) (w32 (rD st + rD st')).

Definition md5_pad (msg : buffer) : buffer :=
  let n := Z.of_nat (length msg) in
  msg ++ [128] ++ zeros (Z.to_nat ((55 - n) mod 64)) ++ le_bytes 8 (8 * n).

Fixpoint md5_blocks (fuel : nat) (st : md5_state) (m : buffer) : md5_state :=
  match fuel, m with
  | S fuel', _ :: _ => md5_blocks fuel' (md5_block st (take 64 m)) (drop 64 m)
  | _, _ => st
  end.

Definition md5 (msg : buffer) : buffer :=
  let m := md5_pad msg in
  let st := md5_blocks (length m) md5_init m in
  le_bytes 4 (rA st) ++ le_bytes 4 (rB st) ++ le_bytes 4 (rC st) ++ le_bytes 4 (rD st).

(** [HMAC_Init_ex(key); HMAC_Update(msg); HMAC_Final] with [EVP_md5()]. *)
Definition hmac_md5 (key msg : buffer) : buffer :=
  let k0 := if (64 <? length key)%nat then md5 key else key in
  let k := k0 ++ zeros (64 - length k0) in
  md5 (map (Z.lxor 92) k ++ md5 (map (Z.lxor 54) k ++ msg)).

End Digest.

Definition ascii_bytes (s : string) : buffer :=
  map (fun c => Z.of_nat (nat_of_ascii c)) (list_ascii_of_string s).

(** ** User-Password / Tunnel-Password cipher ([pwdencrypt], [pwddecrypt])

    [in_] is the memory [in] points to, [len] and [sharedlen] are the
    [uint8_t] arguments.  [out] is the part of the local array [out[128]]
    written so far (its first [offset] octets) and [input] the 16 octets the
    pointer [input] designates.  A result of [None] stands for a return
    value of 0 or for an access outside [out] or outside [in_].

    In [pwdencrypt] the pointer for the next round is [out + offset - 16],
    taken before [offset] is advanced: in the first round it designates the
    16 octets stored below [out] in the stack frame, whose contents are the
    parameter [below]. *)

Fixpoint pwdencrypt_loop (fuel : nat) (below in_ : buffer) (len : Z)
    (shared input out : buffer) (offset : Z) : option buffer :=
  match fuel with
  | O => None
  | S fuel' =>
    let hash := Digest.md5 (shared ++ input) in
    if negb (length hash =? 16)%nat then None
    else if (128 <? offset + 16) || (Z.of_nat (length in_) <? offset + 16) then None
    else
      let out' := out ++ xor_bytes hash (peek in_ (Z.to_nat offset) 16) in
      let input' :=
        if offset =? 0 then take 16 below
        else peek out' (Z.to_nat (offset - 16)) 16 in
      let offset' := (offset + 16) mod 256 in
      if offset' =? len then Some out'
      else pwdencrypt_loop fuel' below in_ len shared input' out' offset'
  end.

Definition pwdencrypt (below in_ : buffer) (len : Z) (shared : buffer)
    (sharedlen : Z) (auth : buffer) : option buffer :=
  match pwdencrypt_loop 16 below in_ len (take (Z.to_nat sharedlen) shared)
          (take 16 auth) [] 0 with
  | Some out => Some (memcpy in_ 0 (take (Z.to_nat len) out))
  | None => None
  end.

Fixpoint pwddecrypt_loop (fuel : nat) (in_ : buffer) (len : Z)
    (shared input out : buffer) (offset : Z) : option buffer :=
  match fuel with
  | O => None
  | S fuel' =>
    let hash := Digest.md5 (shared ++ input) in
    if negb (length hash =? 16)%nat then None
    else if (128 <? offset + 16) || (Z.of_nat (length in_) <? offset + 16) then None
    else
      let out' := out ++ xor_bytes hash (peek in_ (Z.to_nat offset) 16) in
      let input' := peek in_ (Z.to_nat offset) 16 in
      let offset' := (offset + 16) mod 256 in
      if offset' =? len then Some out'
      else pwddecrypt_loop fuel' in_ len shared input' out' offset'
  end.

Definition pwddecrypt (in_ : buffer) (len : Z) (shared : buffer)
    (sharedlen : Z) (auth : buffer) : option buffer :=
  match pwddecrypt_loop 16 in_ len (take (Z.to_nat sharedlen) shared)
          (take 16 auth) [] 0 with
  | Some out => Some (memcpy in_ 0 (take (Z.to_nat len) out))
  | None => None
  end.

(** [strlen] of a secret, converted to the [uint8_t] parameter. *)
Definition strlen8 (s : buffer) : Z := Z.of_nat (length s) mod 256.

Definition pw48 : buffer :=
  ascii_bytes "0123456789abcdef0123456789ABCDEF#passphrase-end#".
Definition secret0 : buffer := ascii_bytes "secret".

(** ** RADIUS packets ([radsecproxy.h]) *)

(** Modelled from the spec: the constants of the header [radsecproxy.h],
    which is not among the sources.  The table size is the spec's N = 256,
    the timing constants are its recommended ones, the packet codes and the
    attribute types are those of its glossary and of RFC 2865/2868/2869. *)
Definition MAX_REQUESTS : Z := 256.
Definition REQUEST_RETRIES : Z := 3.
Definition REQUEST_EXPIRY : Z := 20.
Definition STATUS_SERVER_PERIOD : Z := 25.

Definition RAD_Access_Request : Z := 1.
Definition RAD_Access_Accept : Z := 2.
Definition RAD_Access_Reject : Z := 3.
Definition RAD_Accounting_Request : Z := 4.
Definition RAD_Accounting_Response : Z := 5.
Definition RAD_Access_Challenge : Z := 11.
Definition RAD_Status_Server : Z := 12.

Definition RAD_Attr_User_Name : Z := 1.
Definition RAD_Attr_User_Password : Z := 2.
Definition RAD_Attr_Reply_Message : Z := 18.
Definition RAD_Attr_Vendor_Specific : Z := 26.
Definition RAD_Attr_Tunnel_Password : Z := 69.
Definition RAD_Attr_Message_Authenticator : Z := 80.

(** Modelled from the spec: the accessor macros of [radsecproxy.h].  The
    length is the big-endian 16-bit field at offset 2; an attribute is
    [type(1) | len(1) | value(len - 2)].  Attribute pointers are offsets
    into the packet. *)
Definition RADLEN (x : buffer) : Z := 256 * nth 2 x 0 + nth 3 x 0.
Definition ATTRTYPE (buf : buffer) (x : nat) : Z := nth x buf 0.
Definition ATTRLEN (buf : buffer) (x : nat) : Z := nth (x + 1) buf 0.
Definition ATTRVAL (x : nat) : nat := x + 2.
Definition ATTRVALLEN (buf : buffer) (x : nat) : Z := ATTRLEN buf x - 2.

(** [attrget]: [Some (Some x)] is a pointer to the first attribute of the
    type, [Some None] is [NULL]; [None] means that the loop does not end
    (an attribute of length 0 never advances it). *)
Fixpoint attrget_loop (fuel : nat) (buf : buffer) (attrs : nat) (len type : Z)
    : option (option nat) :=
  match fuel with
  | O => None
  | S fuel' =>
    if 1 <? len then
      if ATTRTYPE buf attrs =? type then Some (Some attrs)
      else attrget_loop fuel' buf (attrs + Z.to_nat (ATTRLEN buf attrs))
             (len - ATTRLEN buf attrs) type
    else Some None
  end.

Definition attrget (buf : buffer) (attrs : nat) (len type : Z) : option (option nat) :=
  attrget_loop (S (Z.to_nat len)) buf attrs len type.

(** [attrvalidate]: every round consumes at least two octets, so
    [Z.to_nat len] rounds and one last test always suffice. *)
Fixpoint attrvalidate_loop (fuel : nat) (buf : buffer) (attrs : nat) (len : Z)
    : option bool :=
  match fuel with
  | O => None
  | S fuel' =>
    if 1 <? len then
      if ATTRLEN buf attrs <? 2 then Some false
      else
        let len' := len - ATTRLEN buf attrs in
        if len' <? 0 then Some false
        else attrvalidate_loop fuel' buf (attrs + Z.to_nat (ATTRLEN buf attrs)) len'
    else Some true
  end.

Definition attrvalidate (buf : buffer) (attrs : nat) (len : Z) : option bool :=
  attrvalidate_loop (S (Z.to_nat len)) buf attrs len.

(** [checkmessageauth(rad, authattr, secret)]: the result and the packet
    buffer it leaves behind.  [authattr] points into [rad]. *)
Definition checkmessageauth (rad : buffer) (authattr : nat) (secret : buffer)
    : bool * buffer :=
  let auth := peek rad authattr 16 in
  let rad0 := memcpy rad authattr (zeros 16) in
  let hash := Digest.hmac_md5 secret (take (Z.to_nat (RADLEN rad0)) rad0) in
  let rad1 := memcpy rad0 authattr auth in
  if negb (length hash =? 16)%nat then (false, rad1)
  else if negb (bool_decide (auth = take 16 hash)) then (false, rad1)
  else (true, rad1).

(** [createmessageauth(rad, authattrval, secret)]; [authattrval] is [NULL]
    or points into [rad]. *)
Definition createmessageauth (rad : buffer) (authattrval : option nat)
    (secret : buffer) : bool * buffer :=
  match authattrval with
  | None => (true, rad)
  | Some a =>
    let rad0 := memcpy rad a (zeros 16) in
    let hash := Digest.hmac_md5 secret (take (Z.to_nat (RADLEN rad0)) rad0) in
    let rad1 := memcpy rad0 a hash in
    if negb (length hash =? 16)%nat then (false, rad1) else (true, rad1)
  end.

(** [radsign(rad, sec)]: the digest of the packet and the secret replaces
    the authenticator. *)
Definition radsign (rad sec : buffer) : bool * buffer :=
  let hash := Digest.md5 (take (Z.to_nat (RADLEN rad)) rad ++ sec) in
  ((length hash =? 16)%nat, memcpy rad 4 hash).

(** The Status-Server probe that [clientwr] assembles in [statsrvbuf],
    here with its authenticator [auth] already drawn. *)
Definition statsrvbuf (auth : buffer) : buffer :=
  [RAD_Status_Server; 0; 0; 38] ++ take 16 (auth ++ zeros 16)
  ++ [RAD_Attr_Message_Authenticator; 18] ++ zeros 16.

(** ** Peers, requests and servers ([radsecproxy.h])

    The structures of the header, with the fields the engine reads and
    writes.  Pointers to clients and servers are indices into the tables of
    the [world] below; [NULL] is [None]. *)

(** Modelled from the spec: the [type] of a configuration block, ['U'] or
    ['T'], as [radsecproxy.h] (not among the sources) and the code use it. *)
Inductive transport := U | T.

Global Instance transport_eq_dec : EqDecision transport.
Proof. solve_decision. Defined.

(** A compiled [regex_t] of the C library is the matcher it stands for: it
    answers [None] when the subject does not match and the offsets of the
    groups ([rm_so], [rm_eo]) when it does. *)
Definition regex_t := buffer -> option (list (Z * Z)).

Definition regexec (r : regex_t) (s : buffer) : bool := bool_decide (is_Some (r s)).

(** Modelled from the spec: [struct rewrite] of [radsecproxy.h]. *)
Record rewrite_t := {
  removeattrs : option buffer;
  removevendorattrs : option (list (Z * Z))
}.

(** Modelled from the spec: [struct clsrvconf] of [radsecproxy.h], the
    configuration block of a client or a server. *)
Record clsrvconf := {
  conf_type : transport;
  host : buffer;
  secret : buffer;
  statusserver : bool;
  prefixlen : Z;
  addrinfo : list (Z * buffer);
  certcnregex : option regex_t;
  certuriregex : option regex_t;
  rewriteattrregex : option regex_t;
  rewriteattrreplacement : buffer;
  conf_rewrite : option rewrite_t
}.

(** A socket address of the C library: family, address octets, port. *)
Record sockaddr := { sa_family : Z; sa_addr : buffer; sa_port : Z }.

Definition AF_INET : Z := 2.
Definition AF_INET6 : Z := 10.

(** Modelled from the spec: [struct request] of [radsecproxy.h]; [expiry]
    is [expiry.tv_sec]. *)
Record request := {
  buf : option buffer;
  tries : Z;
  received : bool;
  expiry : Z;
  from : option nat;
  fromsa : option sockaddr;
  origusername : option buffer;
  origid : Z;
  origauth : buffer
}.

(** [memset(&rq, 0, sizeof(struct request))] *)
Definition request_zero : request :=
  {| buf := None; tries := 0; received := false; expiry := 0; from := None;
     fromsa := None; origusername := None; origid := 0; origauth := zeros 16 |}.

Definition set_buf (b : option buffer) (rq : request) : request :=
  {| buf := b; tries := tries rq; received := received rq; expiry := expiry rq;
     from := from rq; fromsa := fromsa rq; origusername := origusername rq;
     origid := origid rq; origauth := origauth rq |}.

Definition set_from (c : option nat) (rq : request) : request :=
  {| buf := buf rq; tries := tries rq; received := received rq; expiry := expiry rq;
     from := c; fromsa := fromsa rq; origusername := origusername rq;
     origid := origid rq; origauth := origauth rq |}.

Definition set_received (r : bool) (rq : request) : request :=
  {| buf := buf rq; tries := tries rq; received := r; expiry := expiry rq;
     from := from rq; fromsa := fromsa rq; origusername := origusername rq;
     origid := origid rq; origauth := origauth rq |}.

Definition set_tries_expiry (t e : Z) (rq : request) : request :=
  {| buf := buf rq; tries := t; received := received rq; expiry := e;
     from := from rq; fromsa := fromsa rq; origusername := origusername rq;
     origid := origid rq; origauth := origauth rq |}.

Definition set_orig (id : Z) (auth : buffer) (rq : request) : request :=
  {| buf := buf rq; tries := tries rq; received := received rq; expiry := expiry rq;
     from := from rq; fromsa := fromsa rq; origusername := origusername rq;
     origid := id; origauth := auth |}.

(** Modelled from the spec: [struct server] of [radsecproxy.h]. *)
Record server := {
  s_conf : clsrvconf;
  connectionok : bool;
  loststatsrv : Z;
  nextid : Z;
  requests : list request;
  newrq : bool
}.

(** [to->requests[i]] *)
Definition slot (reqs : list request) (i : Z) : request :=
  nth (Z.to_nat i) reqs request_zero.

Definition in_use (rq : request) : bool := bool_decide (buf rq <> None).

(** [for (; i < bound; i++) if (!to->requests[i].buf) break;] and the value
    of [i] after it. *)
Fixpoint scan_free (fuel : nat) (reqs : list request) (i bound : Z) : Z :=
  match fuel with
  | O => i
  | S fuel' =>
    if i <? bound then
      if in_use (slot reqs i) then scan_free fuel' reqs (i + 1) bound else i
    else i
  end.

(** The slot [sendrq] settles on, [None] when the queue has no room. *)
Definition sendrq_slot (to : server) : option Z :=
  let i := scan_free (Z.to_nat (MAX_REQUESTS - nextid to)) (requests to)
             (nextid to) MAX_REQUESTS in
  if i =? MAX_REQUESTS then
    let i := scan_free (Z.to_nat (nextid to)) (requests to) 0 (nextid to) in
    if i =? nextid to then None else Some i
  else Some i.

(** [to->requests[i] = *rq; to->nextid = i + 1;] and the signal to the
    writer. *)
Definition enqueue (to : server) (i : Z) (rq : request) : server :=
  {| s_conf := s_conf to; connectionok := connectionok to;
     loststatsrv := loststatsrv to; nextid := i + 1;
     requests := <[Z.to_nat i := rq]> (requests to);
     newrq := true |}.

(** [sendrq(to, rq)]: the server it leaves behind.  [None] stands for a
    request without buffer or an attribute walk that does not end. *)
Definition sendrq (to : server) (rq : request) : option server :=
  match sendrq_slot to with
  | None => Some to
  | Some i =>
    match buf rq with
    | None => None
    | Some b =>
      let b := <[1%nat := i mod 256]> b in
      match attrget b 20 (RADLEN b - 20) RAD_Attr_Message_Authenticator with
      | None => None
      | Some None => Some (enqueue to i (set_buf (Some b) rq))
      | Some (Some attr) =>
        let '(ok, b) := createmessageauth b (Some (ATTRVAL attr)) (secret (s_conf to)) in
        if ok then Some (enqueue to i (set_buf (Some b) rq)) else Some to
      end
    end
  end.

(** [rqinqueue(to, from, id)] *)
Definition rqinqueue (to : server) (from_ : option nat) (id : Z) : bool :=
  existsb (fun rq => in_use rq && negb (received rq) && (origid rq =? id)
                     && bool_decide (from rq = from_))
          (take (Z.to_nat MAX_REQUESTS) (requests to)).

(** *** Slot allocation *)

Definition free_at (reqs : list request) (i : Z) : Prop := buf (slot reqs i) = None.


Definition none_free (reqs : list request) (lo hi : Z) : Prop :=
  forall j, lo <= j < hi -> ~ free_at reqs j.

(** [addserver(conf)]: the server a configuration block starts with. *)
Definition addserver (conf : clsrvconf) : server :=
  {| s_conf := conf; connectionok := false; loststatsrv := 0; nextid := 0;
     requests := repeat request_zero (Z.to_nat MAX_REQUESTS); newrq := false |}.

(** ** Realm routing ([realm2server]) *)

(** Modelled from the spec: [struct realm] of [radsecproxy.h]. *)
Record realm := {
  realm_regex : regex_t;
  message : option buffer;
  srvconfs : list nat
}.

(** The servers the entries of [realm->srvconfs] point to, in order, each
    with its pointer. *)
Definition realm_servers (tab : list server) (r : realm) : list (nat * server) :=
  omap (fun k => (fun s => (k, s)) <$> tab !! k) (srvconfs r).

(** The loop of [realm2server] from the entry [entries] on, with the
    values of [best] and [first] on entry. *)
Fixpoint realm2server_loop (entries : list (nat * server))
    (best first : option (nat * server)) : option (nat * server) :=
  match entries with
  | [] => match best with Some b => Some b | None => first end
  | e :: rest =>
    let first := match first with None => Some e | Some f => Some f end in
    if negb (connectionok (snd e)) then realm2server_loop rest best first
    else if loststatsrv (snd e) =? 0 then Some e
    else
      match best with
      | None => realm2server_loop rest (Some e) first
      | Some b =>
        if loststatsrv (snd e) <? loststatsrv (snd b)
        then realm2server_loop rest (Some e) first
        else realm2server_loop rest (Some b) first
      end
  end.

Definition realm2server (tab : list server) (r : realm) : option nat :=
  fst <$> realm2server_loop (realm_servers tab r) None None.

Definition usable (e : nat * server) : Prop := connectionok (snd e) = true.
Definition lost (e : nat * server) : Z := loststatsrv (snd e).

(** Two servers of one realm: the first is marked unreachable after one
    lost probe, the second is reachable after three. *)
Definition conf0 : clsrvconf :=
  {| conf_type := U; host := ascii_bytes "192.0.2.1"; secret := secret0;
     statusserver := false; prefixlen := 255; addrinfo := [(AF_INET, [192; 0; 2; 1])];
     certcnregex := None; certuriregex := None; rewriteattrregex := None;
     rewriteattrreplacement := []; conf_rewrite := None |}.

Definition with_health (ok : bool) (lost_ : Z) (s : server) : server :=
  {| s_conf := s_conf s; connectionok := ok; loststatsrv := lost_;
     nextid := nextid s; requests := requests s; newrq := newrq s |}.

Definition two_servers : list server :=
  [with_health false 1 (addserver conf0); with_health true 3 (addserver conf0)].

Definition realm_both : realm :=
  {| realm_regex := fun _ => Some []; message := None; srvconfs := [0%nat; 1%nat] |}.

(** ** Clients, reply queues and the peer tables *)

(** Modelled from the spec: [struct client] and [struct reply] of
    [radsecproxy.h]; [replyq] is the index of the client's reply queue. *)
Record client := { c_conf : clsrvconf; replyq : nat }.

Record reply := { reply_buf : buffer; tosa : option sockaddr }.

(** The process-wide state: the client blocks with their [clients] lists,
    the clients, the servers (one per server block, [conf->servers]), the
    reply queues (queue 0 is [udp_server_replyq]) and the realms. *)
Record world := {
  clconfs : list (clsrvconf * list nat);
  clients : list client;
  servers : list server;
  replyqs : list (list reply);
  realms : list realm
}.

Definition set_servers (tab : list server) (w : world) : world :=
  {| clconfs := clconfs w; clients := clients w; servers := tab;
     replyqs := replyqs w; realms := realms w |}.

Definition set_replyqs (q : list (list reply)) (w : world) : world :=
  {| clconfs := clconfs w; clients := clients w; servers := servers w;
     replyqs := q; realms := realms w |}.

(** *** Address matching ([prefixmatch], [checkconfaddr], [find_conf]) *)

Definition prefix_mask : list Z := [0; 128; 192; 224; 240; 248; 252; 254].

Definition prefixmatch (a1 a2 : buffer) (len : Z) : bool :=
  let l := Z.to_nat (len / 8) in
  if negb (l =? 0)%nat && negb (bool_decide (take l a1 = take l a2)) then false
  else
    let r := Z.to_nat (len mod 8) in
    if (r =? 0)%nat then true
    else Z.land (nth l a1 0) (nth r prefix_mask 0)
         =? Z.land (nth l a2 0) (nth r prefix_mask 0).

Definition IN6_IS_ADDR_V4MAPPED (a : buffer) : bool :=
  bool_decide (take 12 a = zeros 10 ++ [255; 255]).

(** The pointers [a4] and [sa6] the matchers derive from [addr]. *)
Definition addr_parts (addr : sockaddr) : option buffer * option buffer :=
  if sa_family addr =? AF_INET6 then
    if IN6_IS_ADDR_V4MAPPED (sa_addr addr) then (Some (drop 12 (sa_addr addr)), None)
    else (None, Some (sa_addr addr))
  else (Some (sa_addr addr), None).

Definition same_octets (n : nat) (a : option buffer) (b : buffer) : bool :=
  match a with
  | Some a => bool_decide (take n a = take n b)
  | None => false
  end.

Definition prefix_of (a : option buffer) (b : buffer) (len : Z) : bool :=
  match a with
  | Some a => prefixmatch a b len
  | None => false
  end.

(** The test both [checkconfaddr] and the loop of [find_conf] apply to one
    configuration block. *)
Definition conf_matches (type : transport) (addr : sockaddr) (conf : clsrvconf) : bool :=
  let '(a4, sa6) := addr_parts addr in
  if bool_decide (conf_type conf = type) then
    if prefixlen conf =? 255 then
      existsb (fun res =>
                 ((fst res =? AF_INET) && same_octets 4 a4 (snd res))
                 || ((fst res =? AF_INET6) && same_octets 16 sa6 (snd res)))
              (addrinfo conf)
    else
      match addrinfo conf with
      | res :: _ =>
        ((fst res =? AF_INET) && prefix_of a4 (snd res) (prefixlen conf))
        || ((fst res =? AF_INET6) && prefix_of sa6 (snd res) (prefixlen conf))
      | [] => false
      end
  else false.

Fixpoint find_conf_from (type : transport) (addr : sockaddr)
    (confs : list clsrvconf) (i : nat) : option nat :=
  match confs with
  | [] => None
  | c :: rest =>
    if conf_matches type addr c then Some i
    else find_conf_from type addr rest (S i)
  end.

(** [find_conf(type, addr, confs, cur)]: the index of the first matching
    block, searched after [*cur] when a cursor is given. *)
Definition find_conf (type : transport) (addr : sockaddr) (confs : list clsrvconf)
    (cur : option nat) : option nat :=
  match cur with
  | None => find_conf_from type addr confs 0
  | Some k => find_conf_from type addr (drop (S k) confs) (S k)
  end.

Definition checkconfaddr (type : transport) (addr : sockaddr) (conf : clsrvconf) : bool :=
  conf_matches type addr conf.

(** [newreplyq()] *)
Definition newreplyq (w : world) : nat * world :=
  (length (replyqs w), set_replyqs (replyqs w ++ [[]]) w).

(** [addclient(conf)] for the client block [p]: the new client and the
    state with it. *)
Definition addclient (w : world) (p : nat) : option (nat * world) :=
  match clconfs w !! p with
  | None => None
  | Some (conf, cl) =>
    let '(q, w) :=
      match conf_type conf with
      | T => newreplyq w
      | U => (0%nat, w)
      end in
    let new := length (clients w) in
    Some (new,
          {| clconfs := <[p := (conf, cl ++ [new])]> (clconfs w);
             clients := clients w ++ [ {| c_conf := conf; replyq := q |} ];
             servers := servers w; replyqs := replyqs w; realms := realms w |})
  end.

(** ** Receiving a datagram ([radudpget]) *)

Record datagram := { payload : buffer; src : sockaddr }.

(** The two ways [radudpget] is called: with [client] or with [server]
    given, each pointing to a peer or to [NULL]. *)
Inductive peer_sel :=
  | of_client (c : option nat)
  | of_server (s : option nat).

(** The peer lookup of one round: [None] when [p] is [NULL] (the sender
    is not the given peer, or matches no UDP block), otherwise the peer
    [*client] or [*server] is left pointing to, and the state, which has a
    new client when a client block is seen for the first time. *)
Definition radudpget_peer (w : world) (sel : peer_sel) (from_ : sockaddr)
    : option (peer_sel * world) :=
  match sel with
  | of_client (Some c) =>
    cl ← clients w !! c;
    if checkconfaddr U from_ (c_conf cl) then Some (of_client (Some c), w) else None
  | of_client None =>
    p ← find_conf U from_ (fst <$> clconfs w) None;
    pc ← clconfs w !! p;
    match head (snd pc) with
    | Some c => Some (of_client (Some c), w)
    | None => '(c, w') ← addclient w p; Some (of_client (Some c), w')
    end
  | of_server (Some s) =>
    srv ← servers w !! s;
    if checkconfaddr U from_ (s_conf srv) then Some (of_server (Some s), w) else None
  | of_server None =>
    p ← find_conf U from_ (s_conf <$> servers w) None;
    Some (of_server (Some p), w)
  end.

Record received_packet := {
  rad : buffer;
  peer : peer_sel;
  sa : sockaddr
}.

(** One round of the [for (;;)] loop on what [recvfrom] delivered
    ([None]: it failed).  [None] is a [continue]: the datagram is dropped.
    [buf] has room for 65536 octets. *)
Definition radudpget_round (w : world) (sel : peer_sel) (d : option datagram)
    : option (received_packet * world) :=
  match d with
  | None => None
  | Some d =>
    let buf_ := take (Z.to_nat 65536) (payload d) in
    let cnt := Z.of_nat (length buf_) in
    if cnt <? 20 then None
    else
      let len := RADLEN buf_ in
      if len <? 20 then None
      else if cnt <? len then None
      else
        match radudpget_peer w sel (src d) with
        | None => None
        | Some (who, w') =>
          Some ({| rad := take (Z.to_nat len) buf_; peer := who; sa := src d |}, w')
        end
  end.

(** [radudpget] on the datagrams the socket delivers: the first one that
    is not dropped, and the datagrams left.  It blocks ([None]) when none of
    them is accepted. *)
Fixpoint radudpget (w : world) (sel : peer_sel) (incoming : list (option datagram))
    : option (received_packet * world * list (option datagram)) :=
  match incoming with
  | [] => None
  | d :: rest =>
    match radudpget_round w sel d with
    | Some (r, w') => Some (r, w', rest)
    | None => radudpget w sel rest
    end
  end.

(** A client block for the host 192.0.2.1 and a well-formed Access-Request
    of 20 octets that reaches the socket from 198.51.100.7. *)
Definition world0 : world :=
  {| clconfs := [(conf0, [])]; clients := []; servers := [addserver conf0];
     replyqs := [[]]; realms := [] |}.

Definition stranger : sockaddr :=
  {| sa_family := AF_INET; sa_addr := [198; 51; 100; 7]; sa_port := 40000 |}.

Definition bare_request (code id : Z) : buffer := [code; id; 0; 20] ++ zeros 16.

(** ** Certificate identity ([verifyconfcert]) *)

(** [inet_pton(AF_INET, src, dst)] as the C library parses dotted quads:
    four decimal octets, none with a leading zero. *)
Fixpoint inet_pton4_loop (src done : buffer) (cur : Z) (saw_digit : bool)
    (octets : nat) : option buffer :=
  match src with
  | [] => if (octets <? 4)%nat then None else Some (done ++ [cur])
  | ch :: src' =>
    if (48 <=? ch) && (ch <=? 57) then
      let new := cur * 10 + (ch - 48) in
      if saw_digit && (cur =? 0) then None
      else if 255 <? new then None
      else if saw_digit then inet_pton4_loop src' done new true octets
      else if (4 <? S octets)%nat then None
      else inet_pton4_loop src' done new true (S octets)
    else if (ch =? 46) && saw_digit then
      if (octets =? 4)%nat then None
      else inet_pton4_loop src' (done ++ [cur]) 0 false octets
    else None
  end.

Definition inet_pton4 (src : buffer) : option buffer :=
  inet_pton4_loop src [] 0 false 0.

Definition hex_digit_value (ch : Z) : option Z :=
  if (48 <=? ch) && (ch <=? 57) then Some (ch - 48)
  else if (97 <=? ch) && (ch <=? 102) then Some (ch - 87)
  else if (65 <=? ch) && (ch <=? 70) then Some (ch - 55)
  else None.

Record pton6_state := {
  p6_out : buffer;
  p6_colonp : option nat;
  p6_xdigits : nat;
  p6_val : Z
}.

(** The scan of [inet_pton(AF_INET6, ...)]: groups of up to four
    hexadecimal digits, one [::], and a trailing dotted quad. *)
Fixpoint inet_pton6_loop (src : buffer) (curtok : buffer) (st : pton6_state)
    : option pton6_state :=
  match src with
  | [] => Some st
  | ch :: src' =>
    match hex_digit_value ch with
    | Some dgt =>
      let val := 16 * p6_val st + dgt in
      if (p6_xdigits st =? 4)%nat then None
      else if 65535 <? val then None
      else inet_pton6_loop src' curtok
             {| p6_out := p6_out st; p6_colonp := p6_colonp st;
                p6_xdigits := S (p6_xdigits st); p6_val := val |}
    | None =>
      if ch =? 58 then
        if (p6_xdigits st =? 0)%nat then
          match p6_colonp st with
          | Some _ => None
          | None =>
            inet_pton6_loop src' src'
              {| p6_out := p6_out st; p6_colonp := Some (length (p6_out st));
                 p6_xdigits := 0; p6_val := p6_val st |}
          end
        else if bool_decide (src' = []) then None
        else if (16 <? length (p6_out st) + 2)%nat then None
        else
          inet_pton6_loop src' src'
            {| p6_out := p6_out st ++ [p6_val st / 256 mod 256; p6_val st mod 256];
               p6_colonp := p6_colonp st; p6_xdigits := 0; p6_val := 0 |}
      else if (ch =? 46) && (length (p6_out st) + 4 <=? 16)%nat then
        match inet_pton4 curtok with
        | Some a4 =>
          Some {| p6_out := p6_out st ++ a4; p6_colonp := p6_colonp st;
                  p6_xdigits := 0; p6_val := p6_val st |}
        | None => None
        end
      else None
    end
  end.

Definition inet_pton6 (src : buffer) : option buffer :=
  match src with
  | [] => None
  | ch :: src' =>
    let start :=
      if ch =? 58 then
        match src' with
        | c2 :: _ => if c2 =? 58 then Some src' else None
        | [] => None
        end
      else Some src in
    st ← start ≫= fun s =>
           inet_pton6_loop s s
             {| p6_out := []; p6_colonp := None; p6_xdigits := 0; p6_val := 0 |};
    out ← (if (0 <? p6_xdigits st)%nat then
             if (16 <? length (p6_out st) + 2)%nat then None
             else Some (p6_out st ++ [p6_val st / 256 mod 256; p6_val st mod 256])
           else Some (p6_out st));
    out ← match p6_colonp st with
          | Some c =>
            if (length out =? 16)%nat then None
            else Some (take c out ++ zeros (16 - length out) ++ drop c out)
          | None => Some out
          end;
    if (length out =? 16)%nat then Some out else None
  end.

(** A certificate as the OpenSSL accessors present it: the commonName
    entries of the subject in order, and the decoded subjectAltName
    extension ([None] when the certificate has none or it does not decode). *)
Definition GEN_DNS : Z := 2.
Definition GEN_URI : Z := 6.
Definition GEN_IPADD : Z := 7.

Record GENERAL_NAME := { gn_type : Z; gn_data : buffer }.

Record X509 := {
  subject_cn : list buffer;
  subject_alt_name : option (list GENERAL_NAME)
}.

(** The pair of arguments [exact], [regex] of the matchers, one of which
    is [NULL]. *)
Inductive matcher :=
  | exact (s : buffer)
  | by_regex (r : regex_t).

Definition tolower (c : Z) : Z := if (65 <=? c) && (c <=? 90) then c + 32 else c.

(** The C string a buffer holds: its octets up to the first NUL. *)
Fixpoint c_string (v : buffer) : buffer :=
  match v with
  | [] => []
  | c :: v' => if c =? 0 then [] else c :: c_string v'
  end.

(** The loop of [subjectaltnameaddr] over the names, with the value of [r]
    on entry.  [memcmp(v, &addr, l)] reads the storage of the pointer
    parameter [addr] itself, not the address it points to: [addr_slot] is
    what the [l] octets at [&addr] hold. *)
Fixpoint subjectaltnameaddr_loop (alt : list GENERAL_NAME) (family : Z)
    (addr_slot : buffer) (r : Z) : Z :=
  match alt with
  | [] => r
  | gn :: rest =>
    if negb (gn_type gn =? GEN_IPADD) then subjectaltnameaddr_loop rest family addr_slot r
    else
      let v := gn_data gn in
      let l := length v in
      if (((family =? AF_INET) && (l =? 4)%nat) || ((family =? AF_INET6) && (l =? 16)%nat))
         && bool_decide (v = take l addr_slot)
      then 1
      else subjectaltnameaddr_loop rest family addr_slot (-1)
  end.

Definition subjectaltnameaddr (cert : X509) (family : Z) (addr_slot : buffer) : Z :=
  match subject_alt_name cert with
  | None => 0
  | Some alt => subjectaltnameaddr_loop alt family addr_slot 0
  end.

Definition cn_matches (m : matcher) (v : buffer) : bool :=
  match m with
  | exact s => (length v =? length s)%nat && bool_decide (map tolower s = map tolower v)
  | by_regex re => regexec re (c_string v)
  end.

(** [cnregexp(cert, exact, regex)] *)
Definition cnregexp (cert : X509) (m : matcher) : Z :=
  if existsb (cn_matches m) (subject_cn cert) then 1 else 0.

Fixpoint subjectaltnameregexp_loop (alt : list GENERAL_NAME) (type : Z)
    (m : matcher) (r : Z) : Z :=
  match alt with
  | [] => r
  | gn :: rest =>
    if negb (gn_type gn =? type) then subjectaltnameregexp_loop rest type m r
    else
      let v := gn_data gn in
      let l := length v in
      if (l =? 0)%nat then subjectaltnameregexp_loop rest type m (-1)
      else
        let hit :=
          match m with
          | exact s => bool_decide (v = take l (s ++ [0]))
          | by_regex re => regexec re (c_string v)
          end in
        if hit then 1 else subjectaltnameregexp_loop rest type m (-1)
  end.

Definition subjectaltnameregexp (cert : X509) (type : Z) (m : matcher) : Z :=
  match subject_alt_name cert with
  | None => 0
  | Some alt => subjectaltnameregexp_loop alt type m 0
  end.

(** The value of [type] in [verifyconfcert]: 0 for a name, else the
    address family of the literal. *)
Definition host_family (h : buffer) : Z :=
  if bool_decide (inet_pton4 h <> None) then AF_INET
  else if bool_decide (inet_pton6 h <> None) then AF_INET6
  else 0.

Definition verifyconfcert (addr_slot : buffer) (cert : X509) (conf : clsrvconf) : bool :=
  let host_ok :=
    if prefixlen conf =? 255 then
      let type := host_family (host conf) in
      let r := if negb (type =? 0) then subjectaltnameaddr cert type addr_slot
               else subjectaltnameregexp cert GEN_DNS (exact (host conf)) in
      if negb (r =? 0) then negb (r <? 0)
      else negb (cnregexp cert (exact (host conf)) =? 0)
    else true in
  if negb host_ok then false
  else if match certcnregex conf with
          | Some re => cnregexp cert (by_regex re) <? 1
          | None => false
          end then false
  else if match certuriregex conf with
          | Some re => subjectaltnameregexp cert GEN_URI (by_regex re) <? 1
          | None => false
          end then false
  else true.

(** *** What an accepted certificate carries *)

Definition ipadd_names (cert : X509) : list GENERAL_NAME :=
  match subject_alt_name cert with
  | Some alt => filter (fun gn => gn_type gn = GEN_IPADD) alt
  | None => []
  end.

Definition sized_for (family : Z) (gn : GENERAL_NAME) : Prop :=
  (family = AF_INET /\ length (gn_data gn) = 4%nat) \/
  (family = AF_INET6 /\ length (gn_data gn) = 16%nat).

(** A certificate without subjectAltName whose commonName is the text of
    the configured address. *)
Definition cert_cn_only : X509 :=
  {| subject_cn := [ascii_bytes "192.0.2.1"]; subject_alt_name := None |}.

(** ** Command line ([getargs]) *)

(** [getopt(argc, argv, optstring)] as POSIX describes it.  The state is
    [argv] from [optind] on, without the element being scanned, and the
    letters of that element not yet returned. *)
Record getopt_state := { pending : list string; nextchar : string }.

Inductive getopt_ret :=
  | opt_char (c : ascii) (optarg : string)
  | opt_unknown
  | opt_end.

(** Whether [c] is a letter of [optstring], and whether it takes an
    argument. *)
Fixpoint optstring_lookup (optstring : string) (c : ascii) : option bool :=
  match optstring with
  | EmptyString => None
  | String o rest =>
    if Ascii.eqb o ":" then optstring_lookup rest c
    else if Ascii.eqb o c then
      match rest with
      | String ":" _ => Some true
      | _ => Some false
      end
    else optstring_lookup rest c
  end.

Definition getopt_letter (optstring : string) (c : ascii) (cl : string)
    (rest : list string) : getopt_ret * getopt_state :=
  match optstring_lookup optstring c with
  | None => (opt_unknown, {| pending := rest; nextchar := cl |})
  | Some false => (opt_char c "", {| pending := rest; nextchar := cl |})
  | Some true =>
    match cl, rest with
    | String _ _, _ => (opt_char c cl, {| pending := rest; nextchar := "" |})
    | EmptyString, o :: rest' => (opt_char c o, {| pending := rest'; nextchar := "" |})
    | EmptyString, [] => (opt_unknown, {| pending := []; nextchar := "" |})
    end
  end.

Definition getopt (optstring : string) (g : getopt_state) : getopt_ret * getopt_state :=
  match nextchar g with
  | String c cl => getopt_letter optstring c cl (pending g)
  | EmptyString =>
    match pending g with
    | [] => (opt_end, g)
    | a :: rest =>
      match a with
      | String "-" EmptyString => (opt_end, g)
      | String "-" (String "-" EmptyString) =>
        (opt_end, {| pending := rest; nextchar := "" |})
      | String "-" (String c cl) => getopt_letter optstring c cl rest
      | _ => (opt_end, g)
      end
    end
  end.

Record settings := {
  foreground : bool;
  pretend : bool;
  loglevel : Z;
  configfile : option string
}.

Inductive exit_message := usage_line | revision_line | debug_level_error.

(** Modelled from the spec: [debugx] of [debug.c], which is not among the
    sources, writes its message and ends the process with the status it is
    given; [debug] followed by [exit(1)] does so for the usage line. *)
Inductive outcome :=
  | returns (s : settings)
  | exits (status : Z) (m : exit_message).

Definition debug_level (optarg : string) : option Z :=
  match optarg with
  | String d EmptyString =>
    let n := Z.of_nat (nat_of_ascii d) in
    if (n <? 49) || (52 <? n) then None else Some (n - 48)
  | _ => None
  end.

(** The [switch] on the letter [getopt] returned: the settings the loop
    goes on with, or the way the process ends. *)
Definition getargs_switch (c : ascii) (optarg : string) (s : settings)
    : outcome + settings :=
  if Ascii.eqb c "c" then
    inr {| foreground := foreground s; pretend := pretend s;
           loglevel := loglevel s; configfile := Some optarg |}
  else if Ascii.eqb c "d" then
    match debug_level optarg with
    | None => inl (exits 1 debug_level_error)
    | Some l =>
      inr {| foreground := foreground s; pretend := pretend s;
             loglevel := l; configfile := configfile s |}
    end
  else if Ascii.eqb c "f" then
    inr {| foreground := true; pretend := pretend s;
           loglevel := loglevel s; configfile := configfile s |}
  else if Ascii.eqb c "p" then
    inr {| foreground := foreground s; pretend := true;
           loglevel := loglevel s; configfile := configfile s |}
  else if Ascii.eqb c "v" then inl (exits 0 revision_line)
  else inl (exits 1 usage_line).

Fixpoint getargs_loop (fuel : nat) (g : getopt_state) (s : settings) : option outcome :=
  match fuel with
  | O => None
  | S fuel' =>
    match getopt "c:d:fpv" g with
    | (opt_end, g') =>
      if (length (pending g') =? 0)%nat then Some (returns s)
      else Some (exits 1 usage_line)
    | (opt_unknown, _) => Some (exits 1 usage_line)
    | (opt_char c optarg, g') =>
      match getargs_switch c optarg s with
      | inl o => Some o
      | inr s' => getargs_loop fuel' g' s'
      end
    end
  end.

(** Every call of [getopt] that goes on uses up a letter or an element. *)
Definition getopt_measure (g : getopt_state) : nat :=
  String.length (nextchar g)
  + list_sum (map (fun a => S (String.length a)) (pending g)).

(** [getargs] on [argv[1..]], with the values [main] initialises. *)
Definition getargs (args : list string) (s : settings) : option outcome :=
  let g := {| pending := args; nextchar := "" |} in
  getargs_loop (S (getopt_measure g)) g s.


(** *** The command lines [getargs] accepts *)








(** ** Serving a request ([radsrv]) *)

(** [pwdrecrypt(pwd, len, oldsecret, newsecret, oldauth, newauth)] on the
    memory [pwd] points to; [below] is what lies below [out] in the frame of
    [pwdencrypt]. *)
Definition pwdrecrypt (below pwd : buffer) (len : Z) (oldsecret newsecret : buffer)
    (oldauth newauth : buffer) : option buffer :=
  if (len <? 16) || (128 <? len) || negb (len mod 16 =? 0) then None
  else
    match pwddecrypt pwd len oldsecret (strlen8 oldsecret) oldauth with
    | None => None
    | Some pwd' => pwdencrypt below pwd' len newsecret (strlen8 newsecret) newauth
    end.

(** [sendreply(to, buf, tosa)]: [None] when the client or its queue does
    not exist. *)
Definition sendreply (w : world) (to : nat) (b : buffer) (tosa_ : option sockaddr)
    : option world :=
  cl ← clients w !! to;
  q ← replyqs w !! replyq cl;
  let '(ok, b) := radsign b (secret (c_conf cl)) in
  if negb ok then Some w
  else Some (set_replyqs (<[replyq cl := q ++ [ {| reply_buf := b; tosa := tosa_ |} ]]>
                            (replyqs w)) w).

(** The address [respond...] pass on: [&rq->fromsa] for a UDP client. *)
Definition reply_address (w : world) (rq : request) : option sockaddr :=
  match from rq ≫= fun c => clients w !! c with
  | Some cl => match conf_type (c_conf cl) with U => fromsa rq | T => None end
  | None => None
  end.

Definition short_response (code : Z) (b : buffer) : buffer :=
  <[3%nat := 20]> (<[2%nat := 0]> (<[0%nat := code]> (take 20 b))).

Definition respondaccounting (w : world) (rq : request) : option world :=
  b ← buf rq; c ← from rq;
  sendreply w c (short_response RAD_Accounting_Response b) (reply_address w rq).

Definition respondstatusserver (w : world) (rq : request) : option world :=
  b ← buf rq; c ← from rq;
  sendreply w c (short_response RAD_Access_Accept b) (reply_address w rq).

Definition respondreject (w : world) (rq : request) (msg : option buffer) : option world :=
  b ← buf rq; c ← from rq;
  let text := match msg with Some m => m | None => [] end in
  let len := if bool_decide (text = []) then 20 else 20 + 2 + Z.of_nat (length text) in
  let head := [RAD_Access_Reject; nth 1 b 0; len / 256 mod 256; len mod 256]
              ++ peek b 4 16 in
  let resp := if bool_decide (text = []) then head
              else head ++ [RAD_Attr_Reply_Message; (len - 20) mod 256] ++ text in
  sendreply w c resp (reply_address w rq).

(** [id2realm]: the first realm whose expression matches the user name. *)
Definition id2realm (rs : list realm) (id : buffer) : option realm :=
  List.find (fun r => regexec (realm_regex r) id) rs.

(** What one call of [radsrv] draws from its surroundings: the octets
    [RAND_bytes] delivers ([None] when it fails) and the stack contents below
    [out] in the two runs of [pwdencrypt]. *)
Record radsrv_env := {
  rand_bytes : option buffer;
  below_user : buffer;
  below_tunnel : buffer
}.

Section Engine.

(** The attribute rewriter and the user-name rewriter of the engine act on
    the packet of the request only.  [dorewrite buf rewrite] is the packet
    after [dorewrite]; [rewriteusername conf buf in] is [None] when it
    returns 0, otherwise the packet, [rq->origusername] and the contents of
    [in] it leaves. *)
Variable dorewrite : buffer -> rewrite_t -> buffer.
Variable rewriteusername :
  clsrvconf -> buffer -> buffer -> option (buffer * option buffer * buffer).

(** Where [radsrv] stands when it has chosen the server. *)
Inductive routing :=
  | answered (w : world)
  | routed (rq : request) (b : buffer) (id len : Z) (r : realm) (to : option nat).

(** [radsrv] down to [to = realm2server(realm)].  [None] stands for a
    request without buffer or client, or an attribute walk that does not
    end. *)
Definition radsrv_route (w : world) (rq : request) : option routing :=
  b ← buf rq; c ← from rq; cl ← clients w !! c;
  let code := nth 0 b 0 in
  let id := nth 1 b 0 in
  if negb ((code =? RAD_Access_Request) || (code =? RAD_Status_Server)
           || (code =? RAD_Accounting_Request))
  then Some (answered w)
  else
    let len := (RADLEN b - 20) mod 65536 in
    valid ← attrvalidate b 20 len;
    if negb valid then Some (answered w)
    else
      attr ← attrget b 20 len RAD_Attr_Message_Authenticator;
      let '(authentic, b) :=
        match attr with
        | None => (true, b)
        | Some a =>
          if negb (ATTRVALLEN b a =? 16) then (false, b)
          else checkmessageauth b (ATTRVAL a) (secret (c_conf cl))
        end in
      if negb authentic then Some (answered w)
      else if negb (code =? RAD_Access_Request) then
        if code =? RAD_Accounting_Request then
          _ ← attrget b 20 len RAD_Attr_User_Name;
          answered <$> respondaccounting w (set_buf (Some b) rq)
        else answered <$> respondstatusserver w (set_buf (Some b) rq)
      else
        let '(b, len) :=
          match conf_rewrite (c_conf cl) with
          | Some rw => let b := dorewrite b rw in (b, (RADLEN b - 20) mod 65536)
          | None => (b, len)
          end in
        attr ← attrget b 20 len RAD_Attr_User_Name;
        match attr with
        | None => Some (answered w)
        | Some a =>
          let username := c_string (peek b (ATTRVAL a) (Z.to_nat (ATTRVALLEN b a))) in
          let rewritten :=
            match rewriteattrregex (c_conf cl) with
            | Some _ =>
              match rewriteusername (c_conf cl) b username with
              | Some (b, orig, username) =>
                Some (b, orig, username, (RADLEN b - 20) mod 65536)
              | None => None
              end
            | None => Some (b, origusername rq, username, len)
            end in
          match rewritten with
          | None => Some (answered w)
          | Some (b, orig, username, len) =>
            match id2realm (realms w) (c_string username) with
            | None => Some (answered w)
            | Some r =>
              Some (routed
                      {| buf := Some b; tries := tries rq; received := received rq;
                         expiry := expiry rq; from := from rq; fromsa := fromsa rq;
                         origusername := orig; origid := origid rq;
                         origauth := origauth rq |}
                      b id len r (realm2server (servers w) r))
            end
          end
        end.

(** One password attribute of the request, recrypted in place with
    [pwdrecrypt(ATTRVAL(attr), ATTRVALLEN(attr), ..., auth, newauth)], where
    [auth] points to the authenticator of the packet; the outer [None] is an
    attribute walk that does not end, the inner one a failed [pwdrecrypt]. *)
Definition recrypt_attr (below b : buffer) (len type : Z) (oldsecret newsecret : buffer)
    (newauth : buffer) : option (option buffer) :=
  attr ← attrget b 20 len type;
  match attr with
  | None => Some (Some b)
  | Some a =>
    Some (pwd ← pwdrecrypt below (drop (ATTRVAL a) b) (ATTRVALLEN b a mod 256)
                   oldsecret newsecret (peek b 4 16) newauth;
          Some (take (ATTRVAL a) b ++ pwd))
  end.

(** [radsrv] from the choice of the server on. *)
Definition radsrv_forward (env : radsrv_env) (w : world) (rq : request) (b : buffer)
    (id len : Z) (r : realm) (to : option nat) : option world :=
  c ← from rq; cl ← clients w !! c;
  match to with
  | None =>
    match message r with
    | Some m => respondreject w rq (Some m)
    | None => Some w
    end
  | Some t =>
    srv ← servers w !! t;
    if rqinqueue srv (from rq) id then Some w
    else
      match rand_bytes env with
      | None => Some w
      | Some rnd =>
        let newauth := take 16 (rnd ++ zeros 16) in
        b1 ← recrypt_attr (below_user env) b len RAD_Attr_User_Password
               (secret (c_conf cl)) (secret (s_conf srv)) newauth;
        match b1 with
        | None => Some w
        | Some b =>
          b2 ← recrypt_attr (below_tunnel env) b len RAD_Attr_Tunnel_Password
                 (secret (c_conf cl)) (secret (s_conf srv)) newauth;
          match b2 with
          | None => Some w
          | Some b =>
            srv' ← sendrq srv (set_orig id (peek b 4 16)
                                 (set_buf (Some (memcpy b 4 newauth)) rq));
            Some (set_servers (<[t := srv']> (servers w)) w)
          end
        end
      end
  end.

Definition radsrv (env : radsrv_env) (w : world) (rq : request) : option world :=
  route ← radsrv_route w rq;
  match route with
  | answered w' => Some w'
  | routed rq' b id len r to => radsrv_forward env w rq' b id len r to
  end.

(** ** The writer and the reader of a server ([clientwr], [replyh]) *)

Definition is_statsrv (rq : request) : bool :=
  match buf rq with
  | Some b => nth 0 b 0 =? RAD_Status_Server
  | None => false
  end.

(** The number of transmissions after which [clientwr] gives a request
    up. *)
Definition max_tries (srv : server) (rq : request) : Z :=
  if is_statsrv rq || bool_decide (conf_type (s_conf srv) = T) then 1
  else REQUEST_RETRIES.

Definition set_slot (srv : server) (i : Z) (rq : request) : server :=
  {| s_conf := s_conf srv; connectionok := connectionok srv;
     loststatsrv := loststatsrv srv; nextid := nextid srv;
     requests := <[Z.to_nat i := rq]> (requests srv); newrq := newrq srv |}.

Definition set_flags (ok : bool) (lost_ : Z) (nrq : bool) (srv : server) : server :=
  {| s_conf := s_conf srv; connectionok := ok; loststatsrv := lost_;
     nextid := nextid srv; requests := requests srv; newrq := nrq |}.

(** [clientradput(server, rad)]: the packet goes out; a TLS server is
    marked reachable once it is written. *)
Definition clientradput (srv : server) : server :=
  match conf_type (s_conf srv) with
  | U => srv
  | T => set_flags true (loststatsrv srv) (newrq srv) srv
  end.

(** The body of the [for] loop of [clientwr] for the in-use slot [i], with
    [now] the time [gettimeofday] reports. *)
Definition clientwr_slot (now : Z) (srv : server) (i : Z) : server :=
  let rq := slot (requests srv) i in
  if received rq then set_slot srv i (set_buf None rq)
  else if now <? expiry rq then srv
  else if tries rq =? max_tries srv rq then
    let srv :=
      if is_statsrv rq && (loststatsrv srv <? 255)
      then set_flags (connectionok srv) (loststatsrv srv + 1) (newrq srv) srv
      else srv in
    set_slot srv i (set_buf None rq)
  else
    let period :=
      if is_statsrv rq || bool_decide (conf_type (s_conf srv) = T) then REQUEST_EXPIRY
      else REQUEST_EXPIRY / REQUEST_RETRIES in
    clientradput
      (set_slot srv i (set_tries_expiry ((tries rq + 1) mod 256) (now + period) rq)).

(** The request [clientwr] hands to [sendrq] for a Status-Server probe:
    [statsrvrq], zeroed once, with a copy of [statsrvbuf]. *)
Definition statsrvrq (auth : buffer) : request :=
  set_buf (Some (statsrvbuf auth)) request_zero.

(** What [replyh] does to the server: every reply marks it reachable, and
    a reply that is accepted marks the request of its id received. *)
Definition replyh_touch (srv : server) : server :=
  set_flags true 0 (newrq srv) srv.

Definition replyh_accept (srv : server) (i : Z) : server :=
  set_slot (replyh_touch srv) i (set_received true (slot (requests srv) i)).

(** The tests of [replyh] that read the request table: a request was sent
    with this id, and no reply to it was accepted yet. *)
Definition replyh_pending (srv : server) (i : Z) : bool :=
  let rq := slot (requests srv) i in
  in_use rq && negb (tries rq =? 0) && negb (received rq).

(** [removeclientrqs(client)] *)
Definition forget_client (c : nat) (rq : request) : request :=
  if bool_decide (from rq = Some c) then set_from None rq else rq.

Definition removeclientrqs (c : nat) (w : world) : world :=
  set_servers
    (map (fun srv =>
            {| s_conf := s_conf srv; connectionok := connectionok srv;
               loststatsrv := loststatsrv srv; nextid := nextid srv;
               requests := map (forget_client c) (take (Z.to_nat MAX_REQUESTS) (requests srv))
                           ++ drop (Z.to_nat MAX_REQUESTS) (requests srv);
               newrq := newrq srv |})
         (servers w))
    w.

(** ** The engine as a transition system

    The threads of the proxy act on the shared state one critical section
    at a time.  An [action] is one such section; [perform now a w] is the
    state it leaves, [None] when the action cannot take place in [w].  Two
    actions span more than one section of the code: a call of [radsrv], whose
    test [rqinqueue] and whose [sendrq] lock the table one after the other
    (the requests of one client come from one reader thread, and the other
    threads only free slots or clear [from]), and the pass of [clientwr] over
    one slot, which writes [expiry] and [tries] after it has unlocked the
    table (no other thread writes them).  Time is [tv_sec] of
    [gettimeofday], taken not to go back. *)
Inductive action :=
  | act_receive (sel : peer_sel) (d : option datagram)
  | act_radsrv (env : radsrv_env) (b : buffer) (c : nat) (sa_ : option sockaddr)
  | act_writer_start (s : nat)
  | act_writer_wake (s : nat)
  | act_writer_slot (s : nat) (i : Z)
  | act_writer_probe (s : nat) (auth : buffer)
  | act_reply (s : nat) (i : option Z) (fwd : option (nat * reply))
  | act_client_gone (c : nat).

(** The request a reader hands to [radsrv]: zeroed, then given the packet,
    the client and, for UDP, the sender's address. *)
Definition reader_request (b : buffer) (c : nat) (sa_ : option sockaddr) : request :=
  {| buf := Some b; tries := 0; received := false; expiry := 0; from := Some c;
     fromsa := sa_; origusername := None; origid := 0; origauth := zeros 16 |}.

Definition on_server (w : world) (s : nat) (f : server -> option server) : option world :=
  srv ← servers w !! s;
  srv' ← f srv;
  Some (set_servers (<[s := srv']> (servers w)) w).

Definition perform (now : Z) (a : action) (w : world) : option world :=
  match a with
  | act_receive sel d =>
    match radudpget_round w sel d with
    | Some (_, w') => Some w'
    | None => Some w
    end
  | act_radsrv env b c sa_ => radsrv env w (reader_request b c sa_)
  | act_writer_start s =>
    on_server w s (fun srv => Some (set_flags true (loststatsrv srv) (newrq srv) srv))
  | act_writer_wake s =>
    on_server w s (fun srv => Some (set_flags (connectionok srv) (loststatsrv srv) false srv))
  | act_writer_slot s i =>
    on_server w s (fun srv =>
      if (0 <=? i) && (i <? MAX_REQUESTS) && in_use (slot (requests srv) i)
      then Some (clientwr_slot now srv i) else None)
  | act_writer_probe s auth =>
    on_server w s (fun srv =>
      if statusserver (s_conf srv) then sendrq srv (statsrvrq auth) else None)
  | act_reply s i fwd =>
    w' ← on_server w s (fun srv =>
      match i with
      | Some i =>
        if (0 <=? i) && (i <? MAX_REQUESTS) && replyh_pending srv i
        then Some (replyh_accept srv i) else None
      | None => Some (replyh_touch srv)
      end);
    match fwd with
    | Some (q, r) =>
      old ← replyqs w' !! q;
      Some (set_replyqs (<[q := old ++ [r]]> (replyqs w')) w')
    | None => Some w'
    end
  | act_client_gone c => Some (removeclientrqs c w)
  end.

(** A state of the engine with the time of day and, for the account of
    it, the time at which each slot was last taken ([born s i] for slot [i]
    of server [s]). *)
Record traced := {
  tw : world;
  clock : Z;
  born : nat -> Z -> Z
}.

Definition slot_of (w : world) (s : nat) (i : Z) : request :=
  match servers w !! s with
  | Some srv => slot (requests srv) i
  | None => request_zero
  end.

Definition newly_used (w w' : world) (s : nat) (i : Z) : bool :=
  negb (in_use (slot_of w s i)) && in_use (slot_of w' s i).

(** One action, at a time not before the last one. *)
Definition step (t t' : traced) : Prop :=
  exists a,
    clock t <= clock t' /\
    perform (clock t') a (tw t) = Some (tw t') /\
    forall s i, born t' s i
                = if newly_used (tw t) (tw t') s i then clock t' else born t s i.

(** At startup every server is as [addserver] made it. *)
Definition initial (t : traced) : Prop :=
  Forall (fun srv => exists conf, srv = addserver conf) (servers (tw t)).

Definition reachable (t : traced) : Prop :=
  exists t0, initial t0 /\ rtc step t0 t.

End Engine.

(** ** Invariants of the request table *)

(** A request of client [c] with id [k] that still waits for its reply. *)
Definition live (rq : request) (c : nat) (k : Z) : Prop :=
  in_use rq = true /\ received rq = false /\ from rq = Some c /\ origid rq = k.

Definition no_duplicates (srv : server) : Prop :=
  forall i j c k,
    0 <= i < MAX_REQUESTS -> 0 <= j < MAX_REQUESTS ->
    live (slot (requests srv) i) c k -> live (slot (requests srv) j) c k -> i = j.

Definition table_ok (srv : server) : Prop :=
  0 <= nextid srv <= MAX_REQUESTS /\ length (requests srv) = Z.to_nat MAX_REQUESTS.

(** The account of a table at time [clk], with [brn i] the time slot [i]
    was taken. *)
Definition timely (clk : Z) (brn : Z -> Z) (srv : server) : Prop :=
  forall i, 0 <= i < MAX_REQUESTS ->
    let rq := slot (requests srv) i in
    in_use rq = true ->
    brn i <= clk /\ 0 <= tries rq <= max_tries srv rq /\
    (1 <= tries rq -> brn i < expiry rq) /\
    (tries rq = 0 -> expiry rq = 0).

(** The invariant of the engine: every table has its 256 slots, no table
    holds two live requests of one client with one id, and every table
    keeps its account. *)
Definition engine_inv (t : traced) : Prop :=
  Forall table_ok (servers (tw t)) /\
  Forall no_duplicates (servers (tw t)) /\
  forall s srv, servers (tw t) !! s = Some srv -> timely (clock t) (born t s) srv.

(** What one action can do to one server. *)
Inductive server_effect (now : Z) : server -> server -> Prop :=
  | eff_flags srv ok l n : server_effect now srv (set_flags ok l n srv)
  | eff_enqueue srv i rq b :
      0 <= i < MAX_REQUESTS -> free_at (requests srv) i ->
      tries rq = 0 -> received rq = false -> expiry rq = 0 ->
      (forall c, from rq = Some c -> rqinqueue srv (Some c) (origid rq) = false) ->
      server_effect now srv (enqueue srv i (set_buf (Some b) rq))
  | eff_writer srv i :
      0 <= i < MAX_REQUESTS -> in_use (slot (requests srv) i) = true ->
      server_effect now srv (clientwr_slot now srv i)
  | eff_accept srv i :
      0 <= i < MAX_REQUESTS -> in_use (slot (requests srv) i) = true ->
      server_effect now srv (replyh_accept srv i)
  | eff_forget srv c reqs :
      reqs = map (forget_client c) (take (Z.to_nat MAX_REQUESTS) (requests srv))
             ++ drop (Z.to_nat MAX_REQUESTS) (requests srv) ->
      server_effect now srv
        {| s_conf := s_conf srv; connectionok := connectionok srv;
           loststatsrv := loststatsrv srv; nextid := nextid srv;
           requests := reqs; newrq := newrq srv |}.

(** Every server stays in place and is left alone or undergoes one
    effect. *)
Definition servers_effect (now : Z) (tab tab' : list server) : Prop :=
  forall s,
    match tab !! s with
    | Some srv =>
      exists srv', tab' !! s = Some srv' /\ (srv' = srv \/ server_effect now srv srv')
    | None => tab' !! s = None
    end.

(** The stand-ins for the rewriters where no rewriting is configured. *)
Definition keep_packet (b : buffer) (_ : rewrite_t) : buffer := b.

Definition keep_username (_ : clsrvconf) (b u : buffer)
    : option (buffer * option buffer * buffer) :=
  Some (b, None, u).

(** ** A small proxy at work

    One UDP client block, its client, one UDP server and one realm that
    takes every user name; no rewriting is configured. *)
Definition client0 : client := {| c_conf := conf0; replyq := 0%nat |}.

Definition realm_all : realm :=
  {| realm_regex := fun _ => Some []; message := None; srvconfs := [0%nat] |}.

Definition world1 : world :=
  {| clconfs := [(conf0, [0%nat])]; clients := [client0]; servers := [addserver conf0];
     replyqs := [[]]; realms := [realm_all] |}.

(** A packet of 23 octets with the attribute User-Name = "u". *)
Definition named_request (code id : Z) : buffer :=
  [code; id; 0; 23] ++ zeros 16 ++ [RAD_Attr_User_Name; 3; 117].

Definition env0 : radsrv_env :=
  {| rand_bytes := Some (zeros 16); below_user := zeros 16; below_tunnel := zeros 16 |}.

(** The Access-Request with id 7 of the client, as the reader hands it to
    [radsrv], and as it lies in slot 0 of the server afterwards. *)
Definition request7 : request := reader_request (named_request RAD_Access_Request 7) 0 None.

Definition stored7 : request :=
  {| buf := Some (named_request RAD_Access_Request 0); tries := 0; received := false;
     expiry := 0; from := Some 0%nat; fromsa := None; origusername := None;
     origid := 7; origauth := zeros 16 |}.

Definition server2 : server := enqueue (addserver conf0) 0 stored7.

Definition world2 : world := set_servers [server2] world1.

(** The server and the state after the writer has sent the request at
    time 2. *)
Definition server3 : server := set_slot server2 0 (set_tries_expiry 1 8 stored7).

Definition world3 : world := set_servers [server3] world1.

Definition trace1 : traced := {| tw := world1; clock := 0; born := fun _ _ => 0 |}.

Definition trace2 : traced :=
  {| tw := world2; clock := 1;
     born := fun s i => if newly_used world1 world2 s i then 1 else 0 |}.

Definition trace3 : traced :=
  {| tw := world3; clock := 2;
     born := fun s i => if newly_used world2 world3 s i then 2 else born trace2 s i |}.

(** A datagram from the host of [conf0] with the request and two octets
    after it. *)
Definition datagram0 : datagram :=
  {| payload := named_request RAD_Access_Request 7 ++ [0; 0];
     src := {| sa_family := AF_INET; sa_addr := [192; 0; 2; 1]; sa_port := 1812 |} |}.

(** An Accounting-Request with id 9 of the client. *)
Definition accounting9 : request :=
  reader_request (named_request RAD_Accounting_Request 9) 0 None.

(** ** Response authenticators ([validauth]) *)

(** [validauth(rad, reqauth, sec)]: the digest of the packet with the
    authenticator of the request in the place of its own, followed by the
    secret, is compared with the authenticator of the packet.  The
    attributes enter the digest only when the length field exceeds 20. *)
Definition validauth (rad reqauth sec : buffer) : bool :=
  let len := RADLEN rad in
  let hash := Digest.md5 (take 4 rad ++ take 16 reqauth
                          ++ (if len <=? 20 then [] else peek rad 20 (Z.to_nat (len - 20)))
                          ++ sec) in
  (length hash =? 16)%nat && bool_decide (take 16 hash = peek rad 4 16).

(** ** MS-MPPE keys ([msmppencrypt], [msmppdecrypt], [msmpprecrypt])

    [text] is the memory [text] points to, [len] and [sharedlen] are the
    [uint8_t] arguments, [offset] is the [uint8_t] loop counter.  A result
    of [None] stands for a return value of 0 or for an access outside
    [text] or outside the local array [plain[255]]. *)

(** [for (i = 0; i < 16; i++) text[off + i] ^= hash[i];] *)
Definition xor_at (text : buffer) (off : Z) (hash : buffer) : option buffer :=
  if (off <? 0) || (Z.of_nat (length text) <? off + 16) then None
  else Some (memcpy text (Z.to_nat off) (xor_bytes (peek text (Z.to_nat off) 16) hash)).

(** The 16 octets at [text + offset - 16]. *)
Definition block_before (text : buffer) (offset : Z) : option buffer :=
  if (offset <? 16) || (Z.of_nat (length text) <? offset) then None
  else Some (peek text (Z.to_nat (offset - 16)) 16).

Fixpoint msmppencrypt_loop (fuel : nat) (text : buffer) (len : Z) (shared : buffer)
    (offset : Z) : option buffer :=
  match fuel with
  | O => None
  | S fuel' =>
    if offset <? len then
      prev ← block_before text offset;
      let hash := Digest.md5 (shared ++ prev) in
      if negb (length hash =? 16)%nat then None
      else
        text' ← xor_at text offset hash;
        msmppencrypt_loop fuel' text' len shared ((offset + 16) mod 256)
    else Some text
  end.

Definition msmppencrypt (text : buffer) (len : Z) (shared : buffer) (sharedlen : Z)
    (auth salt : buffer) : option buffer :=
  let shared := take (Z.to_nat sharedlen) shared in
  let hash := Digest.md5 (shared ++ take 16 auth ++ take 2 salt) in
  text' ← xor_at text 0 hash;
  msmppencrypt_loop 16 text' len shared 16.

(** [plain] is the part of [plain[255]] written so far, its first
    [offset] octets. *)
Fixpoint msmppdecrypt_loop (fuel : nat) (text : buffer) (len : Z) (shared plain : buffer)
    (offset : Z) : option buffer :=
  match fuel with
  | O => None
  | S fuel' =>
    if offset <? len then
      prev ← block_before text offset;
      let hash := Digest.md5 (shared ++ prev) in
      if negb (length hash =? 16)%nat then None
      else if (255 <? offset + 16) || (Z.of_nat (length text) <? offset + 16) then None
      else
        msmppdecrypt_loop fuel' text len shared
          (plain ++ xor_bytes (peek text (Z.to_nat offset) 16) hash)
          ((offset + 16) mod 256)
    else Some plain
  end.

Definition msmppdecrypt (text : buffer) (len : Z) (shared : buffer) (sharedlen : Z)
    (auth salt : buffer) : option buffer :=
  let shared := take (Z.to_nat sharedlen) shared in
  let hash := Digest.md5 (shared ++ take 16 auth ++ take 2 salt) in
  if (Z.of_nat (length text) <? 16) then None
  else
    plain ← msmppdecrypt_loop 16 text len shared (xor_bytes (peek text 0 16) hash) 16;
    if Z.of_nat (length text) <? len then None
    else Some (memcpy text 0 (take (Z.to_nat len) plain)).

(** [msmpprecrypt(msmpp, len, oldsecret, newsecret, oldauth, newauth)] on
    the memory [msmpp] points to: the salt is its first two octets, the key
    what follows. *)
Definition msmpprecrypt (msmpp : buffer) (len : Z) (oldsecret newsecret : buffer)
    (oldauth newauth : buffer) : option buffer :=
  if len <? 18 then None
  else
    key ← msmppdecrypt (drop 2 msmpp) (len - 2) oldsecret (strlen8 oldsecret) oldauth msmpp;
    key' ← msmppencrypt key (len - 2) newsecret (strlen8 newsecret) newauth msmpp;
    Some (take 2 msmpp ++ key').

(** ** Bits of an address *)

(** Bit [k] of an address in network order: bit 0 is the most significant
    bit of the first octet. *)
Definition addr_bit (a : buffer) (k : Z) : bool :=
  Z.testbit (nth (Z.to_nat (k / 8)) a 0) (7 - k mod 8).

Definition octets (a : buffer) : Prop := Forall (fun x => 0 <= x < 256) a.

(** The IPv4-mapped IPv6 socket address of an IPv4 address. *)
Definition v4mapped (a : buffer) (port : Z) : sockaddr :=
  {| sa_family := AF_INET6; sa_addr := zeros 10 ++ [255; 255] ++ a; sa_port := port |}.

(** A realm that takes every user name and has no server, with the
    message its block configures, and the small proxy with this realm
    alone. *)
Definition realm_closed : realm :=
  {| realm_regex := fun _ => Some []; message := Some (ascii_bytes "no route");
     srvconfs := [] |}.

Definition world_closed : world :=
  {| clconfs := clconfs world1; clients := clients world1; servers := servers world1;
     replyqs := replyqs world1; realms := [realm_closed] |}.

(** ** Names of a certificate *)

(** The subjectAltName entries of one type, in order. *)
Definition san_names (cert : X509) (type : Z) : list GENERAL_NAME :=
  match subject_alt_name cert with
  | Some alt => filter (fun gn => gn_type gn = type) alt
  | None => []
  end.

(** A certificate for [radius.example.org] whose only dNSName entry is
    [radius], and a server block for that host. *)
Definition cert_short_name : X509 :=
  {| subject_cn := [ascii_bytes "unrelated"];
     subject_alt_name := Some [ {| gn_type := GEN_DNS; gn_data := ascii_bytes "radius" |} ] |}.

Definition conf_named : clsrvconf :=
  {| conf_type := T; host := ascii_bytes "radius.example.org"; secret := secret0;
     statusserver := false; prefixlen := 255; addrinfo := [(AF_INET, [192; 0; 2; 1])];
     certcnregex := None; certuriregex := None; rewriteattrregex := None;
     rewriteattrreplacement := []; conf_rewrite := None |}.

(** ** Removing attributes ([dorewrite]) *)

(** [strchr(s, c)] is not [NULL]: [c] occurs in the string, or is the NUL
    that ends it. *)
Definition strchr (s : buffer) (c : Z) : bool :=
  (c =? 0) || bool_decide (c ∈ c_string s).

(** [memmove(buf + dst, buf + src, n)]; [None] when it leaves the buffer. *)
Definition memmove (buf : buffer) (dst src : nat) (n : Z) : option buffer :=
  if (n <? 0) || (Z.of_nat (length buf) <? Z.of_nat src + n)
     || (Z.of_nat (length buf) <? Z.of_nat dst + n)
  then None
  else Some (memcpy buf dst (peek buf src (Z.to_nat n))).

Section Rewrite.

(** [dovendorrewrite(attrs, length, removevendorattrs)] is left open: the
    memory after the call and the value returned, [None] when it does not
    return. *)
Variable dovendorrewrite : buffer -> nat -> Z -> list (Z * Z) -> option (buffer * Z).

(** The [while] loop of [dorewrite]; [len] and [rmlen] are [uint16_t].
    [None] when the loop does not end within [fuel] rounds or a [memmove]
    leaves the buffer. *)
Fixpoint dorewrite_loop (fuel : nat) (buf : buffer) (rewrite : rewrite_t) (attrs : nat)
    (len rmlen : Z) : option (buffer * Z) :=
  match fuel with
  | O => None
  | S fuel' =>
    if 1 <? len then
      let alen := ATTRLEN buf attrs in
      let len := (len - alen) mod 65536 in
      if match removeattrs rewrite with
         | Some types => strchr types (ATTRTYPE buf attrs)
         | None => false
         end
      then
        buf' ← memmove buf attrs (attrs + Z.to_nat alen) len;
        dorewrite_loop fuel' buf' rewrite attrs len ((rmlen + alen) mod 65536)
      else
        match removevendorattrs rewrite with
        | Some vendors =>
          if ATTRTYPE buf attrs =? RAD_Attr_Vendor_Specific then
            '(buf', r) ← dovendorrewrite buf attrs len vendors;
            dorewrite_loop fuel' buf' rewrite attrs len ((rmlen + r) mod 65536)
          else dorewrite_loop fuel' buf rewrite (attrs + Z.to_nat alen) len rmlen
        | None => dorewrite_loop fuel' buf rewrite (attrs + Z.to_nat alen) len rmlen
        end
    else Some (buf, rmlen)
  end.

(** [dorewrite(buf, rewrite)]: the packet it leaves in [buf]. *)
Definition dorewrite (buf : buffer) (rewrite : option rewrite_t) : option buffer :=
  match rewrite with
  | None => Some buf
  | Some rw =>
    match removeattrs rw, removevendorattrs rw with
    | None, None => Some buf
    | _, _ =>
      let len := (RADLEN buf - 20) mod 65536 in
      '(buf', rmlen) ← dorewrite_loop (S (Z.to_nat len)) buf rw 20 len 0;
      if rmlen =? 0 then Some buf'
      else
        let new := (RADLEN buf' - rmlen) mod 65536 in
        Some (<[3%nat := new mod 256]> (<[2%nat := new / 256]> buf'))
    end
  end.

End Rewrite.

(** A rewrite block that removes the attributes 2 and 79. *)
Definition rewrite_2_79 : rewrite_t :=
  {| removeattrs := Some [2; 79; 0]; removevendorattrs := None |}.

(** A packet with the attributes User-Name = "u", 79 (two octets of value)
    and 4 (four octets of value). *)
Definition request_3attrs : buffer :=
  [RAD_Access_Request; 7; 0; 33] ++ zeros 16
  ++ [RAD_Attr_User_Name; 3; 117] ++ [79; 4; 1; 2] ++ [4; 6; 192; 0; 2; 1].

(** An attribute at [a] in [b] and one at [a'] in [b'] that hold the same
    octets, or none in either. *)
Definition same_attr (b b' : buffer) (r r' : option nat) : Prop :=
  match r, r' with
  | None, None => True
  | Some a, Some a' =>
    2 <= ATTRLEN b a /\
    forall k : nat, Z.of_nat k < ATTRLEN b a -> nth (a' + k) b' 0 = nth (a + k) b 0
  | _, _ => False
  end.

(** ** Reading a packet from a TLS connection ([radtlsget])

    The connection is the octets still to come, [None] after them when the
    peer is gone; [sizes] says how many octets each call of [SSL_read] has
    at hand, one more than the number given. *)

(** [SSL_read(ssl, dst, n)]: the octets it stores, the connection after
    it; [None] when it returns 0 or less. *)
Definition SSL_read (stream : buffer) (n : Z) (size : nat) : option (buffer * buffer) :=
  match stream with
  | [] => None
  | _ :: _ =>
    let cnt := Nat.min (Z.to_nat n) (S size) in
    Some (take cnt stream, drop cnt stream)
  end.

(** [for (; total < bound; total += cnt) { cnt = SSL_read(ssl, dst + total,
    bound - total); if (cnt <= 0) return NULL; }] with [got] the [total]
    octets read so far.  The inner [None] is the [return NULL]. *)
Fixpoint read_until (fuel : nat) (stream : buffer) (sizes : list nat) (got : buffer)
    (bound : Z) : option (option (buffer * buffer * list nat)) :=
  match fuel with
  | O => None
  | S fuel' =>
    if Z.of_nat (length got) <? bound then
      match SSL_read stream (bound - Z.of_nat (length got)) (hd 0%nat sizes) with
      | None => Some None
      | Some (data, stream') => read_until fuel' stream' (tl sizes) (got ++ data) bound
      end
    else Some (Some (got, stream, sizes))
  end.

(** [radtlsget(ssl)]: the packet, the connection and the sizes left.  The
    inner [None] is [NULL]; the outer one stands for a length field below 4,
    with which [memcpy(rad, buf, 4)] writes outside [rad]. *)
Fixpoint radtlsget (fuel : nat) (stream : buffer) (sizes : list nat)
    : option (option (buffer * buffer * list nat)) :=
  match fuel with
  | O => None
  | S fuel' =>
    hdr ← read_until 5 stream sizes [] 4;
    match hdr with
    | None => Some None
    | Some (buf_, stream, sizes) =>
      let len := RADLEN buf_ in
      if len <? 4 then None
      else
        body ← read_until (S (Z.to_nat len)) stream sizes buf_ len;
        match body with
        | None => Some None
        | Some (rad_, stream, sizes) =>
          if 20 <=? Z.of_nat (length rad_) then Some (Some (rad_, stream, sizes))
          else radtlsget fuel' stream sizes
        end
    end
  end.

(** A well-formed frame: its length field is its length. *)
Definition framed (f : buffer) : Prop :=
  4 <= RADLEN f /\ Z.of_nat (length f) = RADLEN f.

(** A Status-Server frame of 8 octets before the request of the examples. *)
Definition tls_stream : buffer :=
  [RAD_Status_Server; 1; 0; 8; 0; 0; 0; 0] ++ named_request RAD_Access_Request 7 ++ [2; 9].

(** ** Host and port of a configuration line ([parsehostport]) *)

(** The ways [parsehostport] ends the process, each by [debugx] with
    status 1. *)
Inductive parse_error :=
  | no_closing_bracket
  | missing_host
  | unexpected_after_bracket
  | missing_port.

(** Space, tab and newline, which end a field. *)
Definition blank (c : Z) : bool := (c =? 32) || (c =? 9) || (c =? 10).

(** The [for] loops of [parsehostport]: the number of octets from [p] to
    the first one that is NUL or that [stop] accepts.  A string is read as
    by [c_string]: the end of the buffer stands for its terminator. *)
Fixpoint skip (stop : Z -> bool) (p : buffer) : nat :=
  match p with
  | [] => 0%nat
  | c :: p' => if (c =? 0) || stop c then 0%nat else S (skip stop p')
  end.

Section Parse.

(** [stringcopy] of [util.c], which is not among the sources: it is given
    the start of a field and a length. *)
Variable stringcopy : buffer -> Z -> buffer.

(** [parsehostport]: the values stored in [conf->host] and [conf->port]
    ([None] for [NULL]) and the returned pointer, as the rest of [s]. *)
Definition parsehostport (s : buffer) (default_port : option buffer)
  : parse_error + (buffer * option buffer * buffer) :=
  let ipv6 := hd 0 s =? 91 in
  let field := if ipv6 then drop 1 s else s in
  let n := skip (fun c => (if ipv6 then c =? 93 else c =? 58) || blank c) field in
  let p := drop n field in
  if ipv6 && negb (hd 0 p =? 93) then inl no_closing_bracket
  else if (n =? 0)%nat then inl missing_host
  else
    let host := stringcopy field (Z.of_nat n) in
    let p := if ipv6 then drop 1 p else p in
    if ipv6 && negb ((hd 0 p =? 0) || (hd 0 p =? 58) || blank (hd 0 p))
    then inl unexpected_after_bracket
    else if hd 0 p =? 58 then
      let field := drop 1 p in
      let m := skip blank field in
      if (m =? 0)%nat then inl missing_port
      else inr (host, Some (stringcopy field (Z.of_nat m)), drop m field)
    else inr (host, (fun d => stringcopy d 0) <$> default_port, p).

End Parse.

(** A copy of [len] octets, or of the whole string when [len] is 0. *)
Definition copy_of (s : buffer) (len : Z) : buffer :=
  if len =? 0 then c_string s else take (Z.to_nat len) s.

(** The octets of a field: none is NUL, a blank, or accepted by [stop]. *)
Definition field_of (stop : Z -> bool) (f : buffer) : Prop :=
  f <> [] /\ Forall (fun c => ((c =? 0) || stop c || blank c) = false) f.

(** What may follow the last field: the end of the string or a blank. *)
Definition field_end (rest : buffer) : Prop :=
  ((hd 0 rest =? 0) || blank (hd 0 rest)) = true.

(** ** Matching and rewriting options of a block ([addmatchcertattr],
    [addrewriteattr]) *)

(** [strncasecmp] of the C library, as whether its result is other than 0:
    the first [n] characters of the two strings differ, case apart. *)
Definition strncasecmp (a b : buffer) (n : nat) : bool :=
  negb (bool_decide (tolower <$> take n (c_string a) = tolower <$> take n (c_string b))).

(** The flags of [regcomp], with the values of the C library's [regex.h]. *)
Definition REG_EXTENDED : Z := 1.
Definition REG_ICASE : Z := 2.
Definition REG_NOSUB : Z := 8.

(** The string at [v] after [if (v[strlen(v) - 1] == '/') v[strlen(v) - 1]
    = '\0'], for a [v] that is not empty. *)
Definition strip_slash (v : buffer) : buffer :=
  let s := c_string v in
  if bool_decide (last s = Some 47) then removelast s else s.

(** The string up to its first [c], and the string after it; [strchr]
    finds [c] when [c] is among the octets. *)
Fixpoint before (c : Z) (s : buffer) : buffer :=
  match s with
  | [] => []
  | x :: s' => if x =? c then [] else x :: before c s'
  end.

Fixpoint after (c : Z) (s : buffer) : buffer :=
  match s with
  | [] => []
  | x :: s' => if x =? c then s' else after c s'
  end.

Inductive regex_field := cn_regex | uri_regex.

Definition set_regex (conf : clsrvconf) (f : regex_field) (r : option regex_t) : clsrvconf :=
  {| conf_type := conf_type conf; host := host conf; secret := secret conf;
     statusserver := statusserver conf; prefixlen := prefixlen conf;
     addrinfo := addrinfo conf;
     certcnregex := match f with cn_regex => r | uri_regex => certcnregex conf end;
     certuriregex := match f with cn_regex => certuriregex conf | uri_regex => r end;
     rewriteattrregex := rewriteattrregex conf;
     rewriteattrreplacement := rewriteattrreplacement conf;
     conf_rewrite := conf_rewrite conf |}.

Definition set_rewriteattr (conf : clsrvconf) (r : option regex_t) (replacement : buffer)
  : clsrvconf :=
  {| conf_type := conf_type conf; host := host conf; secret := secret conf;
     statusserver := statusserver conf; prefixlen := prefixlen conf;
     addrinfo := addrinfo conf;
     certcnregex := certcnregex conf; certuriregex := certuriregex conf;
     rewriteattrregex := r;
     rewriteattrreplacement := replacement;
     conf_rewrite := conf_rewrite conf |}.

Section Options.

(** [regcomp] of the C library, given the pattern and the flags: [None]
    when it returns an error.  [stringcopy] is the one of [util.c].
    [malloc] and [stringcopy] are taken to succeed. *)
Variable regcomp : buffer -> Z -> option regex_t.
Variable stringcopy : buffer -> Z -> buffer.

(** [addmatchcertattr]: the configuration it leaves and the value it
    returns.  The tests on [strncasecmp] are taken when the strings
    differ.  [None]: [v] lies behind the end of [matchcertattr]. *)
Definition addmatchcertattr (conf : clsrvconf) (matchcertattr : buffer)
  : option (clsrvconf * Z) :=
  let chosen :=
    if strncasecmp matchcertattr (ascii_bytes "CN:/") 4 then Some (cn_regex, 4%nat)
    else if strncasecmp matchcertattr (ascii_bytes "SubjectAltName:URI:/") 20
         then Some (uri_regex, 20%nat)
         else None in
  match chosen with
  | None => Some (conf, 0)
  | Some (r, k) =>
    if (length matchcertattr <? k)%nat then None
    else
      let v := drop k matchcertattr in
      if hd 0 v =? 0 then Some (conf, 0)
      else
        let v := strip_slash v in
        if hd 0 v =? 0 then Some (conf, 0)
        else match regcomp v (Z.lor REG_ICASE REG_NOSUB) with
             | Some re => Some (set_regex conf r (Some re), 1)
             | None => Some (set_regex conf r None, 0)
             end
  end.

(** [addrewriteattr]: the configuration it leaves and the value it returns.
    [None]: [strchr] finds no slash and [*w] reads through [NULL].  Where
    the regex is left [NULL] so is the replacement, which the record holds
    as the empty string. *)
Definition addrewriteattr (conf : clsrvconf) (rewriteattr : buffer)
  : option (clsrvconf * Z) :=
  let v := drop 11 rewriteattr in
  if strncasecmp rewriteattr (ascii_bytes "User-Name:/") 11 || (hd 0 v =? 0)
  then Some (conf, 0)
  else
    let v := strip_slash v in
    if negb (bool_decide (47 ∈ v)) then None
    else
      let w := after 47 v in
      match regcomp (before 47 v) (Z.lor REG_ICASE REG_EXTENDED) with
      | Some re => Some (set_rewriteattr conf (Some re) (stringcopy w 0), 1)
      | None => Some (set_rewriteattr conf None [], 0)
      end.

End Options.

(** A text: octets without NUL. *)
Definition text (s : buffer) : Prop := Forall (fun c => c <> 0) s.

(** A stand-in for [regcomp] in the examples: the regex that matches the
    subjects equal to its pattern; a pattern with an opening bracket does
    not compile. *)
Definition literal (p : buffer) (flags : Z) : option regex_t :=
  if bool_decide (91 ∈ p) then None
  else Some (fun s => if bool_decide (s = p) then Some [] else None).

(** * Properties *)

(** ** The digests against the test vectors of RFC 1321 and RFC 2202 *)

Example md5_empty :
  Digest.md5 [] = [212; 29; 140; 217; 143; 0; 178; 4; 233; 128; 9; 152; 236; 248; 66; 126].
Proof. vm_compute. reflexivity. Qed.

Example md5_abc :
  Digest.md5 (ascii_bytes "abc")
  = [144; 1; 80; 152; 60; 210; 79; 176; 214; 150; 63; 125; 40; 225; 127; 114].
Proof. vm_compute. reflexivity. Qed.

Example md5_two_blocks :
  Digest.md5 (repeat 97 70)
  = [15; 92; 108; 78; 116; 11; 252; 192; 140; 60; 38; 204; 178; 103; 61; 70].
Proof. vm_compute. reflexivity. Qed.

Example hmac_md5_rfc2202 :
  Digest.hmac_md5 (ascii_bytes "Jefe") (ascii_bytes "what do ya want for nothing?")
  = [117; 12; 120; 62; 106; 176; 181; 3; 234; 168; 110; 49; 10; 93; 183; 56].
Proof. vm_compute. reflexivity. Qed.

(** ** The password cipher ([pwdencrypt], [pwddecrypt]) *)

Lemma md5_length (m : buffer) : length (Digest.md5 m) = 16%nat.
Proof.
  unfold Digest.md5, Digest.le_bytes.
  rewrite !length_app, !length_map, !length_seq. reflexivity.
Qed.

Lemma lxor_cancel (k h p : Z) : Z.lxor k (Z.lxor h p) = p -> h = k.
Proof.
  intros E. rewrite <- Z.lxor_assoc in E.
  assert (Z.lxor (Z.lxor (Z.lxor k h) p) p = Z.lxor p p) as E' by (rewrite E; reflexivity).
  rewrite Z.lxor_assoc, !Z.lxor_nilpotent, Z.lxor_0_r in E'.
  symmetry. apply Z.lxor_eq. exact E'.
Qed.

Lemma xor_bytes_involutive (h p : buffer) :
  (length p <= length h)%nat -> xor_bytes h (xor_bytes h p) = p.
Proof.
  revert p. induction h as [|x h IH]; intros [|y p] Hl; simpl in *; try lia; try reflexivity.
  rewrite IH by lia. f_equal.
  rewrite <- Z.lxor_assoc, Z.lxor_nilpotent, Z.lxor_0_l. reflexivity.
Qed.

Lemma list_of_length_16 (l : buffer) :
  length l = 16%nat ->
  exists x0 x1 x2 x3 x4 x5 x6 x7 x8 x9 x10 x11 x12 x13 x14 x15,
    l = [x0; x1; x2; x3; x4; x5; x6; x7; x8; x9; x10; x11; x12; x13; x14; x15].
Proof.
  intros H.
  do 16 (destruct l as [|? l]; [discriminate H|]).
  destruct l; [|discriminate H]. repeat eexists.
Qed.

Lemma pwdencrypt_loop_step fuel below in_ len shared input out offset :
  0 <= offset -> offset + 16 <= 128 -> offset + 16 <= Z.of_nat (length in_) ->
  pwdencrypt_loop (S fuel) below in_ len shared input out offset =
    let out' := out ++ xor_bytes (Digest.md5 (shared ++ input))
                                 (peek in_ (Z.to_nat offset) 16) in
    if offset + 16 =? len then Some out'
    else pwdencrypt_loop fuel below in_ len shared
           (if offset =? 0 then take 16 below
            else peek out' (Z.to_nat (offset - 16)) 16)
           out' (offset + 16).
Proof.
  intros H0 H1 H2. unfold pwdencrypt_loop at 1; fold pwdencrypt_loop.
  rewrite md5_length.
  replace (128 <? offset + 16) with false by (symmetry; apply Z.ltb_ge; lia).
  replace (Z.of_nat (length in_) <? offset + 16) with false
    by (symmetry; apply Z.ltb_ge; lia).
  rewrite (Z.mod_small (offset + 16)) by lia.
  reflexivity.
Qed.

Lemma pwddecrypt_loop_step fuel in_ len shared input out offset :
  0 <= offset -> offset + 16 <= 128 -> offset + 16 <= Z.of_nat (length in_) ->
  pwddecrypt_loop (S fuel) in_ len shared input out offset =
    let out' := out ++ xor_bytes (Digest.md5 (shared ++ input))
                                 (peek in_ (Z.to_nat offset) 16) in
    if offset + 16 =? len then Some out'
    else pwddecrypt_loop fuel in_ len shared
           (peek in_ (Z.to_nat offset) 16) out' (offset + 16).
Proof.
  intros H0 H1 H2. unfold pwddecrypt_loop at 1; fold pwddecrypt_loop.
  rewrite md5_length.
  replace (128 <? offset + 16) with false by (symmetry; apply Z.ltb_ge; lia).
  replace (Z.of_nat (length in_) <? offset + 16) with false
    by (symmetry; apply Z.ltb_ge; lia).
  rewrite (Z.mod_small (offset + 16)) by lia.
  reflexivity.
Qed.

Lemma lxor_solve (g c p : Z) : Z.lxor g c = p -> g = Z.lxor p c.
Proof.
  intros <-. rewrite Z.lxor_assoc, Z.lxor_nilpotent, Z.lxor_0_r. reflexivity.
Qed.

Ltac ground t :=
  match t with
  | context [?v] => is_var v; fail 1
  | _ => idtac
  end.

(** Replace the closed digests, slices and sums of the goal by their values. *)
Ltac eval_closed :=
  repeat match goal with
  | |- context [Digest.md5 ?x] =>
      ground x; let v := eval vm_compute in (Digest.md5 x) in
      change (Digest.md5 x) with v
  | |- context [peek ?x ?i ?n] =>
      ground x; ground i; let v := eval vm_compute in (peek x i n) in
      change (peek x i n) with v
  | |- context [Z.to_nat ?x] =>
      ground x; let v := eval vm_compute in (Z.to_nat x) in
      change (Z.to_nat x) with v
  | |- context [?a =? ?b] =>
      ground a; ground b; let v := eval vm_compute in (a =? b) in
      change (a =? b) with v
  | |- context [Z.lxor ?a ?b] =>
      ground a; ground b; let v := eval vm_compute in (Z.lxor a b) in
      change (Z.lxor a b) with v
  end.

Ltac name_digest E :=
  match goal with
  | |- context [Digest.md5 ?x] =>
      destruct (list_of_length_16 _ (md5_length x))
        as (?h & ?h & ?h & ?h & ?h & ?h & ?h & ?h & ?h & ?h & ?h & ?h & ?h & ?h & ?h & ?h & E);
      rewrite E
  end.

(** One block: the round trip holds, whatever lies below [out]. *)
Lemma pwd_roundtrip_one_block (below p shared auth : buffer) :
  length p = 16%nat ->
  exists c,
    pwdencrypt below p 16 shared (strlen8 shared) auth = Some c /\
    pwddecrypt c 16 shared (strlen8 shared) auth = Some p.
Proof.
  intros Hp.
  set (h := Digest.md5 (take (Z.to_nat (strlen8 shared)) shared ++ take 16 auth)).
  assert (length h = 16%nat) as Hh by apply md5_length.
  exists (xor_bytes h p).
  assert (length (xor_bytes h p) = 16%nat) as Hc
    by (unfold xor_bytes; rewrite length_zip_with; lia).
  unfold pwdencrypt, pwddecrypt.
  rewrite pwdencrypt_loop_step, pwddecrypt_loop_step by lia.
  cbv zeta. change (0 + 16 =? 16) with true. cbv iota.
  change (Z.to_nat 0) with 0%nat. change (Z.to_nat 16) with 16%nat.
  unfold peek, memcpy. fold h. rewrite !drop_0, !app_nil_l.
  rewrite (take_ge p 16), (take_ge (xor_bytes h p) 16) by lia.
  rewrite xor_bytes_involutive by lia.
  rewrite (take_ge p 16) by lia.
  cbn [take app Nat.add].
  rewrite !drop_ge by lia.
  rewrite !app_nil_r. split; reflexivity.
Qed.

(** C1.  Three blocks: whatever lies below [out] in the stack frame,
    decrypting the result of [pwdencrypt] under the same secret and
    authenticator does not give the 48-octet password back.  The second
    block is keyed with the digest of the octets below [out] and the third
    with the first ciphertext block, where [pwddecrypt] uses the first and
    the second ciphertext block. *)
Theorem pwdencrypt_roundtrip_fails (below : buffer) :
  (pwdencrypt below pw48 48 secret0 (strlen8 secret0) (zeros 16)
     ≫= fun c => pwddecrypt c 48 secret0 (strlen8 secret0) (zeros 16))
  <> Some pw48.
Proof.
  unfold pwdencrypt.
  change (take (Z.to_nat (strlen8 secret0)) secret0) with secret0.
  change (take 16 (zeros 16)) with (zeros 16).
  rewrite pwdencrypt_loop_step by (vm_compute; congruence).
  cbv zeta. eval_closed. cbv iota.
  cbn [app xor_bytes zip_with].
  rewrite pwdencrypt_loop_step by (vm_compute; congruence).
  cbv zeta. eval_closed. cbv iota.
  name_digest Hh.
  cbn [app xor_bytes zip_with peek take drop].
  rewrite pwdencrypt_loop_step by (vm_compute; congruence).
  cbv zeta. eval_closed. cbv iota.
  let v := eval vm_compute in pw48 in change pw48 with v.
  cbn [app xor_bytes zip_with peek take drop memcpy length Nat.add].
  eval_closed.
  change (Some ?c ≫= ?f) with (f c). cbv beta.
  unfold pwddecrypt.
  change (take (Z.to_nat (strlen8 secret0)) secret0) with secret0.
  change (take 16 (zeros 16)) with (zeros 16).
  rewrite pwddecrypt_loop_step by (vm_compute; congruence).
  cbv zeta. cbn [peek take drop Z.to_nat]. eval_closed. cbv iota.
  cbn [app xor_bytes zip_with].
  rewrite pwddecrypt_loop_step by (vm_compute; congruence).
  cbv zeta. eval_closed. cbn [peek take drop]. eval_closed. cbv iota.
  cbn [app xor_bytes zip_with].
  rewrite pwddecrypt_loop_step by (vm_compute; congruence).
  cbv zeta. eval_closed. cbn [peek take drop]. eval_closed. cbv iota.
  name_digest Hg.
  cbn [app xor_bytes zip_with peek take drop memcpy length Nat.add].
  eval_closed.
  intros E. injection E as E.
  repeat match goal with
  | H : Z.lxor _ (Z.lxor _ _) = _ |- _ => apply lxor_cancel in H; subst
  | H : Z.lxor _ _ = _ |- _ => apply lxor_solve in H; subst
  end.
  vm_compute in Hg. discriminate Hg.
Qed.

(** Two blocks, with 16 zero octets below [out]: the second block is lost. *)
Example pwdencrypt_roundtrip_32 :
  (pwdencrypt (zeros 16) (take 32 pw48) 32 secret0 (strlen8 secret0) (zeros 16)
     ≫= fun c => pwddecrypt c 32 secret0 (strlen8 secret0) (zeros 16))
  = Some (take 16 pw48 ++
          [51; 205; 121; 119; 159; 170; 187; 188; 219; 6; 230; 173; 139; 241; 32; 107]).
Proof. vm_compute. reflexivity. Qed.

(** ** The Message-Authenticator check ([checkmessageauth]) *)

Lemma hmac_md5_length (key msg : buffer) : length (Digest.hmac_md5 key msg) = 16%nat.
Proof. unfold Digest.hmac_md5. apply md5_length. Qed.

Lemma memcpy_restore (rad : buffer) (off : nat) (tmp : buffer) :
  (off + 16 <= length rad)%nat -> length tmp = 16%nat ->
  memcpy (memcpy rad off tmp) off (peek rad off 16) = rad.
Proof.
  intros Hin Ht. unfold memcpy, peek.
  assert (length (take 16 (drop off rad)) = 16%nat) as Hl
    by (rewrite length_take, length_drop; lia).
  assert (length (take off rad) = off) as Ha by (rewrite length_take; lia).
  rewrite Hl, Ht.
  rewrite take_app_length' by (symmetry; exact Ha).
  rewrite (drop_app_add' (take off rad)) by (symmetry; exact Ha).
  rewrite drop_app_length' by (symmetry; exact Ht).
  rewrite <- (take_drop off rad) at 4.
  rewrite <- (take_drop 16 (drop off rad)) at 2.
  rewrite drop_drop. reflexivity.
Qed.

(** The buffer [checkmessageauth] leaves on either return: the attribute
    value zeroed for the digest, then overwritten with the octets saved in
    [auth]. *)
Lemma checkmessageauth_buffer (rad : buffer) (authattr : nat) (secret : buffer) :
  snd (checkmessageauth rad authattr secret)
  = memcpy (memcpy rad authattr (zeros 16)) authattr (peek rad authattr 16).
Proof.
  unfold checkmessageauth. cbv zeta.
  destruct (negb (length _ =? 16)%nat); [reflexivity|].
  destruct (negb (bool_decide _)); reflexivity.
Qed.

(** C7.  Whatever [checkmessageauth] answers, it leaves the packet as it
    found it, for every 16-octet attribute value inside the buffer. *)
Theorem checkmessageauth_preserves_packet (rad : buffer) (authattr : nat)
    (secret : buffer) :
  (authattr + 16 <= length rad)%nat ->
  snd (checkmessageauth rad authattr secret) = rad.
Proof.
  intros Hin. rewrite checkmessageauth_buffer.
  apply memcpy_restore; [exact Hin|]. reflexivity.
Qed.

(** The Status-Server packet of [clientwr], checked at its attribute. *)
Lemma checkmessageauth_preserves_packet_witness :
  (22 + 16 <= length (statsrvbuf (zeros 16)))%nat /\
  snd (checkmessageauth (statsrvbuf (zeros 16)) 22 secret0) = statsrvbuf (zeros 16).
Proof.
  split; [vm_compute; lia |].
  apply (checkmessageauth_preserves_packet (statsrvbuf (zeros 16)) 22 secret0).
  vm_compute; lia.
Defined.

(** ** Slot allocation ([sendrq]) *)

Lemma in_use_free (reqs : list request) (i : Z) :
  in_use (slot reqs i) = false <-> free_at reqs i.
Proof.
  unfold in_use, free_at. rewrite bool_decide_eq_false. split.
  - intros H. destruct (buf (slot reqs i)); [exfalso; apply H; congruence | reflexivity].
  - intros -> N. apply N. reflexivity.
Qed.

Lemma scan_free_spec (fuel : nat) (reqs : list request) (i bound : Z) :
  i <= bound -> bound - i <= Z.of_nat fuel ->
  let r := scan_free fuel reqs i bound in
  i <= r <= bound /\ none_free reqs i r /\ (r < bound -> free_at reqs r).
Proof.
  revert i. induction fuel as [|fuel IH]; intros i Hle Hfuel; cbn [scan_free].
  - cbv zeta. repeat split; try lia; intros j Hj; lia.
  - destruct (Z.ltb_spec i bound) as [Hlt|Hge].
    + destruct (in_use (slot reqs i)) eqn:Hu.
      * specialize (IH (i + 1) ltac:(lia) ltac:(lia)). cbv zeta in IH |- *.
        destruct IH as (Hr & Hnone & Hfree). repeat split; try lia; [|exact Hfree].
        intros j Hj. destruct (Z.eq_dec j i) as [->|Hne].
        -- rewrite <- in_use_free. congruence.
        -- apply Hnone. lia.
      * cbv zeta. repeat split; try lia.
        -- intros j Hj; lia.
        -- intros _. apply in_use_free. exact Hu.
    + cbv zeta. repeat split; try lia; intros j Hj; lia.
Qed.




(** *** Attribute walks *)

Lemma attrget_loop_ext (fuel : nat) (b1 b2 : buffer) (attrs : nat) (len type : Z) :
  (forall x, (attrs <= x)%nat -> nth x b1 0 = nth x b2 0) ->
  attrget_loop fuel b1 attrs len type = attrget_loop fuel b2 attrs len type.
Proof.
  revert attrs len. induction fuel as [|fuel IH]; intros attrs len Hext; [reflexivity|].
  cbn [attrget_loop]. unfold ATTRTYPE, ATTRLEN.
  rewrite (Hext attrs), (Hext (attrs + 1)%nat) by lia.
  destruct (1 <? len); [|reflexivity].
  destruct (nth attrs b2 0 =? type); [reflexivity|].
  apply IH. intros x Hx. apply Hext. lia.
Qed.

(** After [attrvalidate] has accepted a list, [attrget] returns, and the
    attribute it returns lies inside the list. *)
Lemma attrvalidate_attrget (fuel : nat) (b : buffer) (attrs : nat) (len type : Z) :
  attrvalidate_loop fuel b attrs len = Some true ->
  exists r, attrget_loop fuel b attrs len type = Some r /\
    forall a, r = Some a ->
      (attrs <= a)%nat /\ ATTRTYPE b a = type /\ 2 <= ATTRLEN b a /\
      Z.of_nat a + ATTRLEN b a <= Z.of_nat attrs + len.
Proof.
  revert attrs len. induction fuel as [|fuel IH]; intros attrs len Hv; [discriminate Hv|].
  cbn [attrvalidate_loop attrget_loop] in *.
  destruct (1 <? len); [|exists None; split; [reflexivity | discriminate]].
  destruct (Z.ltb_spec (ATTRLEN b attrs) 2) as [|Hlen]; [discriminate Hv|].
  cbv zeta in Hv.
  destruct (Z.ltb_spec (len - ATTRLEN b attrs) 0) as [|Hfit]; [discriminate Hv|].
  destruct (Z.eqb_spec (ATTRTYPE b attrs) type) as [Ht|Ht].
  - exists (Some attrs). split; [reflexivity|].
    intros a [= <-]. repeat split; try lia; try exact Ht.
  - destruct (IH _ _ Hv) as (r & Hr & Hin). exists r. split; [exact Hr|].
    intros a Ha. destruct (Hin a Ha) as (H1 & H2 & H3 & H4).
    repeat split; try lia; try exact H2.
Qed.

Lemma attrvalidate_total (b : buffer) (attrs : nat) (len : Z) :
  exists r, attrvalidate b attrs len = Some r.
Proof.
  unfold attrvalidate.
  assert (forall fuel attrs len, len <= Z.of_nat fuel ->
            exists r, attrvalidate_loop (S fuel) b attrs len = Some r) as H.
  { clear. induction fuel as [|fuel IH]; intros attrs len Hf.
    - cbn [attrvalidate_loop].
      destruct (Z.ltb_spec 1 len); [lia | eexists; reflexivity].
    - remember (S fuel) as n. cbn [attrvalidate_loop]. subst n.
      destruct (Z.ltb_spec 1 len); [|eexists; reflexivity].
      destruct (Z.ltb_spec (ATTRLEN b attrs) 2); [eexists; reflexivity|].
      cbv zeta. destruct (Z.ltb_spec (len - ATTRLEN b attrs) 0); [eexists; reflexivity|].
      apply IH. lia. }
  apply H. lia.
Qed.

Lemma nth_insert_ne (b : buffer) (i k : nat) (v : Z) :
  i <> k -> nth k (<[i := v]> b) 0 = nth k b 0.
Proof. intros Hne. rewrite !nth_lookup, list_lookup_insert_ne by exact Hne. reflexivity. Qed.

Lemma nth_insert_eq (b : buffer) (i : nat) (v : Z) :
  (i < length b)%nat -> nth i (<[i := v]> b) 0 = v.
Proof. intros Hlt. rewrite nth_lookup, list_lookup_insert_eq by exact Hlt. reflexivity. Qed.

Lemma nth_memcpy_below (d src : buffer) (off k : nat) :
  (k < off)%nat -> (k < length d)%nat -> nth k (memcpy d off src) 0 = nth k d 0.
Proof.
  intros Hk Hin. unfold memcpy. rewrite !nth_lookup.
  rewrite lookup_app_l by (rewrite length_take; lia).
  rewrite lookup_take_lt by exact Hk. reflexivity.
Qed.

Lemma length_memcpy (d src : buffer) (off : nat) :
  (off + length src <= length d)%nat -> length (memcpy d off src) = length d.
Proof.
  intros H. unfold memcpy. rewrite !length_app, length_take, length_drop. lia.
Qed.


Lemma slot_enqueue_eq (to : server) (i : Z) (rq : request) :
  0 <= i -> (Z.to_nat i < length (requests to))%nat ->
  slot (requests (enqueue to i rq)) i = rq.
Proof.
  intros Hi Hlen. unfold slot, enqueue. cbn [requests].
  rewrite nth_lookup, list_lookup_insert_eq by exact Hlen. reflexivity.
Qed.

Lemma slot_enqueue_ne (to : server) (i j : Z) (rq : request) :
  0 <= i -> 0 <= j -> j <> i ->
  slot (requests (enqueue to i rq)) j = slot (requests to) j.
Proof.
  intros Hi Hj Hne. unfold slot, enqueue. cbn [requests].
  rewrite !nth_lookup, list_lookup_insert_ne by lia. reflexivity.
Qed.


(** ** Realm routing ([realm2server]) *)

Lemma realm2server_loop_live (entries : list (nat * server))
    (best first : option (nat * server)) :
  (exists e, e ∈ entries /\ usable e /\ lost e = 0) ->
  exists e, realm2server_loop entries best first = Some e /\
            e ∈ entries /\ usable e /\ lost e = 0.
Proof.
  revert best first. induction entries as [|x rest IH]; intros best first (e & He & Hu & Hl).
  - apply elem_of_nil in He. contradiction.
  - cbn [realm2server_loop]. cbv zeta.
    destruct (connectionok (snd x)) eqn:Hx; cbn [negb].
    + destruct (Z.eqb_spec (loststatsrv (snd x)) 0) as [Hz|Hz].
      * exists x. repeat split; [apply list_elem_of_here | exact Hx | exact Hz].
      * assert (exists e, e ∈ rest /\ usable e /\ lost e = 0) as Hrest.
        { apply elem_of_cons in He as [->|He]; [contradiction|]. eauto. }
        destruct best as [b|]; [destruct (_ <? _)|];
          (match goal with
           | |- exists e, realm2server_loop rest ?b ?f = _ /\ _ =>
               destruct (IH b f Hrest) as (r & Hr & Hin & Hru & Hrl)
           end;
           exists r; repeat split; [exact Hr | apply list_elem_of_further, Hin | exact Hru | exact Hrl]).
    + assert (exists e, e ∈ rest /\ usable e /\ lost e = 0) as Hrest.
      { apply elem_of_cons in He as [->|He]; [unfold usable in Hu; congruence|]. eauto. }
      destruct (IH best (match first with None => Some x | Some f => Some f end) Hrest)
        as (r & Hr & Hin & Hru & Hrl).
      exists r. repeat split; [exact Hr | apply list_elem_of_further, Hin | exact Hru | exact Hrl].
Qed.

Lemma realm2server_loop_degraded (entries : list (nat * server))
    (best first : option (nat * server)) :
  (forall e, e ∈ entries -> usable e -> lost e <> 0) ->
  ((exists e, (e ∈ entries \/ best = Some e) /\ usable e) ->
   (forall b, best = Some b -> usable b) ->
   exists e, realm2server_loop entries best first = Some e /\
     (e ∈ entries \/ best = Some e) /\ usable e /\
     forall e', e' ∈ entries \/ best = Some e' -> usable e' -> lost e <= lost e') /\
  ((forall e, e ∈ entries -> ~ usable e) -> best = None ->
   realm2server_loop entries best first =
     match first with Some f => Some f | None => head entries end).
Proof.
  revert best first. induction entries as [|x rest IH]; intros best first Hnz.
  - split.
    + intros (e & [He|He] & Hu) Hb; [apply elem_of_nil in He; contradiction|].
      subst best. exists e. cbn. repeat split; auto.
      intros e' [He'|[= <-]] _; [apply elem_of_nil in He'; contradiction | lia].
    + intros _ ->. cbn. destruct first; reflexivity.
  - assert (forall e, e ∈ rest -> usable e -> lost e <> 0) as Hnz'
      by (intros e He; apply Hnz, list_elem_of_further, He).
    cbn [realm2server_loop]. cbv zeta.
    set (first' := match first with None => Some x | Some f => Some f end).
    destruct (connectionok (snd x)) eqn:Hx; cbn [negb].
    + assert (lost x <> 0) as Hxl by (apply Hnz; [apply list_elem_of_here | exact Hx]).
      destruct (Z.eqb_spec (loststatsrv (snd x)) 0) as [Hz|_]; [contradiction|].
      split; [|intros Hnone _; exfalso; apply (Hnone x); [apply list_elem_of_here | exact Hx]].
      intros _ Hb.
      assert (forall nb, (nb = x \/ best = Some nb) ->
                (forall e', e' = x \/ best = Some e' -> lost nb <= lost e') ->
                exists e, realm2server_loop rest (Some nb) first' = Some e /\
                  (e ∈ x :: rest \/ best = Some e) /\ usable e /\
                  forall e', e' ∈ x :: rest \/ best = Some e' -> usable e' -> lost e <= lost e')
        as Hstep.
      { intros nb Hnb Hmin.
        assert (usable nb) as Hunb by (destruct Hnb as [->|Hnb]; [exact Hx | apply Hb, Hnb]).
        destruct (proj1 (IH (Some nb) first' Hnz')) as (e & He & Hin & Hue & Hemin).
        { exists nb. split; [right; reflexivity | exact Hunb]. }
        { intros b [= <-]. exact Hunb. }
        exists e. split; [exact He|]. split; [|split; [exact Hue|]].
        - destruct Hin as [Hin|[= <-]]; [left; apply list_elem_of_further, Hin|].
          destruct Hnb as [->|Hnb]; [left; apply list_elem_of_here | right; exact Hnb].
        - intros e' He' Hu'.
          assert (lost e <= lost nb) as Hle by (apply Hemin; [right; reflexivity | exact Hunb]).
          destruct He' as [He'|He'].
          + apply elem_of_cons in He' as [->|He'].
            * specialize (Hmin x (or_introl eq_refl)). lia.
            * apply Hemin; [left; exact He' | exact Hu'].
          + specialize (Hmin e' (or_intror He')). lia. }
      destruct best as [b|].
      * destruct (Z.ltb_spec (loststatsrv (snd x)) (loststatsrv (snd b))) as [Hlt|Hge].
        -- apply Hstep; [left; reflexivity|].
           intros e' [->|[= <-]]; unfold lost; lia.
        -- apply Hstep; [right; reflexivity|].
           intros e' [->|[= <-]]; unfold lost; lia.
      * apply Hstep; [left; reflexivity|].
        intros e' [->|[=]]; lia.
    + split.
      * intros (e & He & Hu) Hb.
        destruct (proj1 (IH best first' Hnz')) as (r & Hr & Hin & Hur & Hmin).
        { exists e. split; [|exact Hu]. destruct He as [He|He]; [|right; exact He].
          apply elem_of_cons in He as [->|He]; [unfold usable in Hu; congruence | left; exact He]. }
        { exact Hb. }
        exists r. split; [exact Hr|]. split; [|split; [exact Hur|]].
        -- destruct Hin as [Hin|Hin]; [left; apply list_elem_of_further, Hin | right; exact Hin].
        -- intros e' He' Hu'. apply Hmin; [|exact Hu'].
           destruct He' as [He'|He']; [|right; exact He'].
           apply elem_of_cons in He' as [->|He']; [unfold usable in Hu'; congruence | left; exact He'].
      * intros Hnone ->.
        rewrite (proj2 (IH None first' Hnz')); [|intros e He; apply Hnone, list_elem_of_further, He | reflexivity].
        unfold first'. destruct first; reflexivity.
Qed.

Lemma realm2server_loop_none (entries : list (nat * server)) :
  realm2server_loop entries None None = None <-> entries = [].
Proof.
  split; [|intros ->; reflexivity].
  destruct entries as [|x rest]; [reflexivity|]. intros H. exfalso.
  assert (forall l best first, first <> None -> realm2server_loop l best first <> None) as Hne.
  { clear. induction l as [|y l IH]; intros best first Hf; cbn [realm2server_loop].
    - destruct best; [discriminate | exact Hf].
    - cbv zeta.
      assert (match first with None => Some y | Some f => Some f end <> None) as Hf'
        by (destruct first; discriminate).
      destruct (negb _); [apply IH, Hf'|].
      destruct (_ =? 0); [discriminate|].
      destruct best; [destruct (_ <? _)|]; apply IH, Hf'. }
  cbn [realm2server_loop] in H. cbv zeta in H.
  destruct (negb _); [eapply Hne, H; discriminate|].
  destruct (_ =? 0); [discriminate|]. eapply Hne, H; discriminate.
Qed.

(** C5 (as the code has it).  [realm2server] returns a server that is
    reachable ([connectionok]) and has lost no Status-Server probe when the
    realm has one; otherwise, among the reachable servers, one with the least
    [loststatsrv]; otherwise, when no server is reachable, the first server of
    the realm; and [NULL] exactly when the realm lists no server. *)
Theorem realm2server_choice (tab : list server) (r : realm) :
  let L := realm_servers tab r in
  ((exists e, e ∈ L /\ usable e /\ lost e = 0) ->
   exists e, realm2server tab r = Some (fst e) /\ e ∈ L /\ usable e /\ lost e = 0) /\
  ((forall e, e ∈ L -> usable e -> lost e <> 0) -> (exists e, e ∈ L /\ usable e) ->
   exists e, realm2server tab r = Some (fst e) /\ e ∈ L /\ usable e /\
             forall e', e' ∈ L -> usable e' -> lost e <= lost e') /\
  ((forall e, e ∈ L -> ~ usable e) -> realm2server tab r = fst <$> head L) /\
  (realm2server tab r = None <-> L = []).
Proof.
  cbv zeta. unfold realm2server. set (L := realm_servers tab r). repeat split.
  - intros H. destruct (realm2server_loop_live L None None H) as (e & He & Hin & Hu & Hl).
    exists e. rewrite He. repeat split; assumption.
  - intros Hnz (e & Hin & Hu).
    destruct (proj1 (realm2server_loop_degraded L None None Hnz)) as (x & Hx & Hxin & Hxu & Hmin).
    { exists e. split; [left; exact Hin | exact Hu]. }
    { discriminate. }
    exists x. rewrite Hx. destruct Hxin as [Hxin|[=]].
    repeat split; try assumption.
    intros e' He' Hu'. apply Hmin; [left; exact He' | exact Hu'].
  - intros Hnone.
    rewrite (proj2 (realm2server_loop_degraded L None None
                      (fun e He Hu => False_ind _ (Hnone e He Hu))) Hnone eq_refl).
    reflexivity.
  - intros H. apply realm2server_loop_none.
    destruct (realm2server_loop L None None); [discriminate H | reflexivity].
  - intros ->. reflexivity.
Qed.

(** C5, as stated, fails: no server of the realm is reachable with no probe
    lost, the first server has the smallest positive [loststatsrv], and
    [realm2server] returns the second. *)
Lemma realm2server_skips_unreachable :
  realm2server two_servers realm_both = Some 1%nat /\
  Forall (fun s => ~ (connectionok s = true /\ loststatsrv s = 0)) two_servers /\
  (exists s0 s1, two_servers !! 0%nat = Some s0 /\ two_servers !! 1%nat = Some s1 /\
                 0 < loststatsrv s0 < loststatsrv s1).
Proof.
  split; [reflexivity|]. split.
  - repeat constructor; cbn; intros [_ H]; discriminate H.
  - eexists _, _. repeat split; reflexivity.
Qed.

(** ** Receiving a datagram ([radudpget]) *)

(** C6 (as the code has it).  Of the datagrams UDP can carry (at most
    65535 octets), one of fewer than 20 octets, with a length field below 20
    or shorter than its length field is dropped; so is one whose sender is
    not the expected peer or matches no UDP block; every other datagram is
    returned cut to exactly the declared length. *)
Theorem radudpget_round_length (w : world) (sel : peer_sel) (d : datagram) :
  let cnt := Z.of_nat (length (payload d)) in
  let len := RADLEN (payload d) in
  cnt <= 65535 ->
  (cnt < 20 \/ len < 20 \/ cnt < len -> radudpget_round w sel (Some d) = None) /\
  (radudpget_peer w sel (src d) = None -> radudpget_round w sel (Some d) = None) /\
  (forall who w', 20 <= len <= cnt ->
     radudpget_peer w sel (src d) = Some (who, w') ->
     exists r, radudpget_round w sel (Some d) = Some (r, w') /\
       rad r = take (Z.to_nat len) (payload d) /\
       Z.of_nat (length (rad r)) = len /\ peer r = who /\ sa r = src d).
Proof.
  cbv zeta. intros Hudp. unfold radudpget_round. cbv zeta.
  rewrite (take_ge (payload d)) by lia.
  repeat split.
  - intros Hbad.
    destruct (Z.ltb_spec (Z.of_nat (length (payload d))) 20); [reflexivity|].
    destruct (Z.ltb_spec (RADLEN (payload d)) 20); [reflexivity|].
    destruct (Z.ltb_spec (Z.of_nat (length (payload d))) (RADLEN (payload d)));
      [reflexivity | lia].
  - intros ->. repeat destruct (_ <? _); reflexivity.
  - intros who w' Hlen ->.
    destruct (Z.ltb_spec (Z.of_nat (length (payload d))) 20); [lia|].
    destruct (Z.ltb_spec (RADLEN (payload d)) 20); [lia|].
    destruct (Z.ltb_spec (Z.of_nat (length (payload d))) (RADLEN (payload d))); [lia|].
    eexists. split; [reflexivity|]. cbn [rad peer sa]. repeat split.
    rewrite length_take. lia.
Qed.

(** The loop passes over a dropped datagram and stops at an accepted one. *)
Lemma radudpget_unfold (w : world) (sel : peer_sel) (d : option datagram)
    (rest : list (option datagram)) :
  radudpget w sel (d :: rest) =
    match radudpget_round w sel d with
    | Some (r, w') => Some (r, w', rest)
    | None => radudpget w sel rest
    end.
Proof. reflexivity. Qed.

(** C6, as stated, fails: none of the three length conditions holds for
    this datagram, and it is dropped all the same. *)
Lemma radudpget_drops_unknown_peer :
  let d := {| payload := bare_request RAD_Access_Request 7; src := stranger |} in
  Z.of_nat (length (payload d)) = 20 /\ RADLEN (payload d) = 20 /\
  radudpget_round world0 (of_client None) (Some d) = None /\
  radudpget world0 (of_client None) [Some d] = None.
Proof. cbv zeta. repeat split; vm_compute; reflexivity. Qed.

(** ** Certificate identity ([verifyconfcert]) *)

Example inet_pton4_ok : inet_pton4 (ascii_bytes "192.0.2.1") = Some [192; 0; 2; 1].
Proof. reflexivity. Qed.

Example inet_pton4_leading_zero : inet_pton4 (ascii_bytes "192.0.02.1") = None.
Proof. reflexivity. Qed.

Example inet_pton4_short : inet_pton4 (ascii_bytes "192.0.2") = None.
Proof. reflexivity. Qed.

Example inet_pton6_loopback :
  inet_pton6 (ascii_bytes "::1") = Some (zeros 15 ++ [1]).
Proof. reflexivity. Qed.

Example inet_pton6_doc :
  inet_pton6 (ascii_bytes "2001:db8::a:1")
  = Some [32; 1; 13; 184; 0; 0; 0; 0; 0; 0; 0; 0; 0; 10; 0; 1].
Proof. reflexivity. Qed.

Example inet_pton6_mapped :
  inet_pton6 (ascii_bytes "::ffff:192.0.2.1")
  = Some (zeros 10 ++ [255; 255; 192; 0; 2; 1]).
Proof. reflexivity. Qed.

Example inet_pton6_full :
  inet_pton6 (ascii_bytes "1:2:3:4:5:6:7:8")
  = Some [0; 1; 0; 2; 0; 3; 0; 4; 0; 5; 0; 6; 0; 7; 0; 8].
Proof. reflexivity. Qed.

Example inet_pton6_rejects :
  inet_pton6 (ascii_bytes "192.0.2.1") = None /\
  inet_pton6 (ascii_bytes "1:2:3:4:5:6:7:8:9") = None /\
  inet_pton6 (ascii_bytes ":1") = None /\
  inet_pton6 (ascii_bytes "1::2::3") = None /\
  inet_pton6 (ascii_bytes "radius.example.org") = None.
Proof. repeat split; reflexivity. Qed.

Lemma subjectaltnameaddr_loop_result (alt : list GENERAL_NAME) (family : Z)
    (addr_slot : buffer) (r : Z) :
  (r = 0 \/ r = -1) ->
  let res := subjectaltnameaddr_loop alt family addr_slot r in
  (res = 0 \/ res = -1 \/ res = 1) /\
  (res = 1 -> exists gn, gn ∈ alt /\ gn_type gn = GEN_IPADD /\ sized_for family gn) /\
  (res = 0 -> r = 0 /\ forall gn, gn ∈ alt -> gn_type gn <> GEN_IPADD).
Proof.
  revert r. induction alt as [|gn rest IH]; intros r Hr; cbn [subjectaltnameaddr_loop].
  - cbv zeta. split; [lia|]. split; [intros E; lia|].
    intros E. split; [exact E|].
    intros gn Hgn. apply elem_of_nil in Hgn. contradiction.
  - cbv zeta. destruct (Z.eqb_spec (gn_type gn) GEN_IPADD) as [Ht|Ht]; cbn [negb].
    + destruct (_ && bool_decide _) eqn:Hhit.
      * split; [lia|]. split; [|intros E; lia]. intros _. exists gn.
        apply andb_prop in Hhit as [Hfam _].
        split; [apply list_elem_of_here|]. split; [exact Ht|].
        apply orb_prop in Hfam as [Hf|Hf]; apply andb_prop in Hf as [Hf1 Hf2];
          apply Z.eqb_eq in Hf1; apply Nat.eqb_eq in Hf2; [left | right]; auto.
      * destruct (IH (-1) (or_intror eq_refl)) as (H1 & H2 & H3). cbv zeta in *.
        split; [exact H1|]. split.
        -- intros E. destruct (H2 E) as (g & Hg & Hty & Hsz).
           exists g. split; [apply list_elem_of_further, Hg | auto].
        -- intros E. destruct (H3 E) as [E' _]. lia.
    + destruct (IH r Hr) as (H1 & H2 & H3). cbv zeta in *.
      split; [exact H1|]. split.
      * intros E. destruct (H2 E) as (g & Hg & Hty & Hsz).
        exists g. split; [apply list_elem_of_further, Hg | auto].
      * intros E. split; [apply H3, E|].
        intros g Hg. apply elem_of_cons in Hg as [->|Hg]; [exact Ht|].
        apply (proj2 (H3 E)), Hg.
Qed.

Lemma host_family_literal (h : buffer) :
  inet_pton4 h <> None \/ inet_pton6 h <> None ->
  host_family h = AF_INET \/ host_family h = AF_INET6.
Proof.
  intros H. unfold host_family.
  destruct (decide (inet_pton4 h <> None)) as [H4|H4].
  - left. rewrite bool_decide_eq_true_2 by exact H4. reflexivity.
  - right. rewrite bool_decide_eq_false_2 by exact H4.
    rewrite bool_decide_eq_true_2 by tauto. reflexivity.
Qed.

Lemma cnregexp_exact (cert : X509) (h : buffer) :
  cnregexp cert (exact h) <> 0 ->
  exists cn, cn ∈ subject_cn cert /\ length cn = length h /\
             map tolower h = map tolower cn.
Proof.
  unfold cnregexp. destruct (existsb _ _) eqn:E; [intros _|intros H; contradiction].
  apply existsb_exists in E as (cn & Hin & Hm). exists cn.
  apply andb_prop in Hm as [Hl He].
  apply Nat.eqb_eq in Hl. apply bool_decide_eq_true in He.
  split; [apply list_elem_of_In, Hin | auto].
Qed.

(** C4 (as the code has it).  When the configured host is an IPv4 or
    IPv6 literal, a certificate that [verifyconfcert] accepts either carries
    a subjectAltName iPAddress entry of the size of the literal's family (4
    or 16 octets), or carries no iPAddress entry at all and has a commonName
    equal to the configured host, letter case aside. *)
Theorem verifyconfcert_ip_literal (addr_slot : buffer) (cert : X509) (conf : clsrvconf) :
  prefixlen conf = 255 ->
  inet_pton4 (host conf) <> None \/ inet_pton6 (host conf) <> None ->
  verifyconfcert addr_slot cert conf = true ->
  (exists gn, gn ∈ ipadd_names cert /\ sized_for (host_family (host conf)) gn) \/
  (ipadd_names cert = [] /\
   exists cn, cn ∈ subject_cn cert /\ length cn = length (host conf) /\
              map tolower (host conf) = map tolower cn).
Proof.
  intros Hp Hlit Hv. unfold verifyconfcert in Hv. cbv zeta in Hv.
  rewrite Hp in Hv. change (255 =? 255) with true in Hv. cbv iota in Hv.
  set (fam := host_family (host conf)) in *.
  assert (fam = AF_INET \/ fam = AF_INET6) as Hfam by apply host_family_literal, Hlit.
  assert ((fam =? 0) = false) as Hnz
    by (apply Z.eqb_neq; unfold AF_INET, AF_INET6 in Hfam; lia).
  rewrite Hnz in Hv. cbn [negb] in Hv.
  unfold subjectaltnameaddr, ipadd_names in *.
  destruct (subject_alt_name cert) as [alt|].
  - destruct (subjectaltnameaddr_loop_result alt fam addr_slot 0 (or_introl eq_refl))
      as (Hres & Hone & Hzero). cbv zeta in *.
    destruct Hres as [E|[E|E]]; rewrite E in Hv; cbn [Z.eqb negb Z.ltb Z.compare] in Hv.
    + right. destruct (Hzero E) as [_ Hno]. split.
      * apply elem_of_nil_inv. intros gn Hgn.
        apply list_elem_of_filter in Hgn as [Hty Hin]. exact (Hno gn Hin Hty).
      * apply cnregexp_exact. intros Hc. rewrite Hc in Hv. discriminate Hv.
    + discriminate Hv.
    + left. destruct (Hone E) as (gn & Hin & Hty & Hsz). exists gn.
      split; [apply list_elem_of_filter; split; assumption | exact Hsz].
  - cbn [Z.eqb negb] in Hv. right. split; [reflexivity|].
    apply cnregexp_exact. intros Hc. rewrite Hc in Hv. discriminate Hv.
Qed.

(** C4, as stated, fails: the host of [conf0] is an IPv4 literal, the
    certificate carries no iPAddress entry, and it is accepted. *)
Lemma verifyconfcert_accepts_cn_for_literal :
  prefixlen conf0 = 255 /\
  inet_pton4 (host conf0) = Some [192; 0; 2; 1] /\
  ipadd_names cert_cn_only = [] /\
  verifyconfcert (zeros 16) cert_cn_only conf0 = true.
Proof. repeat split; reflexivity. Qed.

(** The certificate of the example above falls under the second case. *)
Lemma verifyconfcert_ip_literal_witness :
  prefixlen conf0 = 255 /\
  (inet_pton4 (host conf0) <> None \/ inet_pton6 (host conf0) <> None) /\
  verifyconfcert (zeros 16) cert_cn_only conf0 = true /\
  ((exists gn, gn ∈ ipadd_names cert_cn_only /\ sized_for (host_family (host conf0)) gn) \/
   (ipadd_names cert_cn_only = [] /\
    exists cn, cn ∈ subject_cn cert_cn_only /\ length cn = length (host conf0) /\
               map tolower (host conf0) = map tolower cn)).
Proof.
  split; [reflexivity|]. split; [left; discriminate|]. split; [reflexivity|].
  apply (verifyconfcert_ip_literal (zeros 16) cert_cn_only conf0);
    [reflexivity | left; discriminate | reflexivity].
Defined.

(** ** Command line ([getargs]) *)







Lemma getopt_letter_progress (c : ascii) (cl : string) (rest : list string)
    (c' : ascii) (a : string) (g' : getopt_state) :
  getopt_letter "c:d:fpv" c cl rest = (opt_char c' a, g') ->
  (getopt_measure g' <= getopt_measure {| pending := rest; nextchar := cl |})%nat.
Proof.
  unfold getopt_letter, getopt_measure.
  destruct (optstring_lookup _ c) as [[|]|]; [| |discriminate].
  - destruct cl as [|x cl]; [destruct rest as [|o rest']; [discriminate|]|];
      intros [= _ _ <-];
      cbn [pending nextchar map list_sum fold_right String.length]; lia.
  - intros [= _ _ <-]. cbn [pending nextchar]. lia.
Qed.

Lemma getopt_progress (g : getopt_state) (c : ascii) (a : string) (g' : getopt_state) :
  getopt "c:d:fpv" g = (opt_char c a, g') ->
  (getopt_measure g' < getopt_measure g)%nat.
Proof.
  unfold getopt. destruct g as [pend next]. cbn [nextchar pending].
  destruct next as [|x cl].
  - destruct pend as [|e rest]; [discriminate|].
    destruct e as [|d e']; [discriminate|].
    destruct e' as [|x cl].
    + destruct d as [[] [] [] [] [] [] [] []]; discriminate.
    + assert (forall r, r = getopt_letter "c:d:fpv" x cl rest ->
                r = (opt_char c a, g') ->
                (getopt_measure g' < getopt_measure
                   {| pending := String d (String x cl) :: rest; nextchar := "" |})%nat) as Hl.
      { intros r -> Hr. apply getopt_letter_progress in Hr.
        unfold getopt_measure in *.
        cbn [pending nextchar map list_sum fold_right String.length] in *.
        lia. }
      destruct d as [[] [] [] [] [] [] [] []]; try discriminate.
      destruct x as [[] [] [] [] [] [] [] []]; destruct cl;
        try discriminate; apply (Hl _ eq_refl).
  - intros H. apply getopt_letter_progress in H.
    unfold getopt_measure in *. cbn [pending nextchar String.length] in *. lia.
Qed.

(** [getargs] always comes to an end: it returns or ends the process. *)
Lemma getargs_total (args : list string) (s : settings) :
  exists o, getargs args s = Some o.
Proof.
  unfold getargs. cbv zeta.
  assert (forall fuel g s, (getopt_measure g < fuel)%nat ->
            exists o, getargs_loop fuel g s = Some o) as H.
  { induction fuel as [|fuel IH]; intros g s0 Hf; [lia|].
    cbn [getargs_loop].
    destruct (getopt "c:d:fpv" g) as [[c a| |] g'] eqn:E.
    - destruct (getargs_switch c a s0); [eexists; reflexivity|].
      apply IH. apply getopt_progress in E. lia.
    - eexists; reflexivity.
    - destruct (_ =? _)%nat; eexists; reflexivity. }
  apply H. lia.
Qed.



(** ** Requests answered by the proxy itself ([radsrv]) *)

Lemma attrget_after_validate (b : buffer) (len type : Z) :
  attrvalidate b 20 len = Some true ->
  exists r, attrget b 20 len type = Some r /\
    forall a, r = Some a ->
      (20 <= a)%nat /\ ATTRTYPE b a = type /\ 2 <= ATTRLEN b a /\
      Z.of_nat a + ATTRLEN b a <= 20 + len.
Proof.
  intros Hv. destruct (attrvalidate_attrget _ b 20 len type Hv) as (r & Hr & Hin).
  exists r. split; [exact Hr|]. intros a Ha. destruct (Hin a Ha) as (H1 & H2 & H3 & H4).
  repeat split; try lia; exact H2.
Qed.

Lemma short_response_shape (code : Z) (b : buffer) :
  (20 <= length b)%nat ->
  let r := short_response code b in
  length r = 20%nat /\ nth 0 r 0 = code /\ nth 1 r 0 = nth 1 b 0 /\ RADLEN r = 20.
Proof.
  intros Hb. cbv zeta. unfold short_response, RADLEN.
  assert (length (take 20 b) = 20%nat) as Hl by (rewrite length_take; lia).
  repeat split.
  - rewrite !length_insert. exact Hl.
  - rewrite !nth_insert_ne by lia. apply nth_insert_eq. lia.
  - rewrite !nth_insert_ne by lia. rewrite !nth_lookup, lookup_take_lt by lia. reflexivity.
  - rewrite nth_insert_ne by lia. rewrite nth_insert_eq by (rewrite length_insert; lia).
    rewrite nth_insert_eq by (rewrite !length_insert; lia). reflexivity.
Qed.

Lemma radsign_shape (r sec : buffer) :
  length r = 20%nat ->
  let '(ok, r') := radsign r sec in
  ok = true /\ length r' = 20%nat /\ nth 0 r' 0 = nth 0 r 0 /\ nth 1 r' 0 = nth 1 r 0 /\
  RADLEN r' = RADLEN r /\
  peek r' 4 16 = Digest.md5 (take (Z.to_nat (RADLEN r)) r ++ sec).
Proof.
  intros Hl. unfold radsign. cbv zeta. rewrite md5_length.
  set (h := Digest.md5 _). assert (length h = 16%nat) as Hh by apply md5_length.
  repeat split.
  - rewrite length_memcpy; lia.
  - apply nth_memcpy_below; lia.
  - apply nth_memcpy_below; lia.
  - unfold RADLEN. rewrite !nth_memcpy_below by lia. reflexivity.
  - unfold memcpy, peek. rewrite drop_app_length' by (rewrite length_take; lia).
    rewrite take_app_length' by lia. reflexivity.
Qed.

Section EngineFacts.

Variable dorewrite : buffer -> rewrite_t -> buffer.
Variable rewriteusername :
  clsrvconf -> buffer -> buffer -> option (buffer * option buffer * buffer).

(** C10.  An Accounting-Request whose attribute list is valid and whose
    Message-Authenticator, when it has one, verifies is answered by the proxy:
    [radsrv] appends to the queue of the client a signed packet of 20 octets
    with code 5 and the id of the request, and leaves every server, and with
    it every request table, as it was, whatever the realms are. *)
Theorem radsrv_accounting (env : radsrv_env) (w : world) (rq : request)
    (b : buffer) (c : nat) (cl : client) (q : list reply) :
  buf rq = Some b -> from rq = Some c ->
  clients w !! c = Some cl -> replyqs w !! replyq cl = Some q ->
  nth 0 b 0 = RAD_Accounting_Request ->
  20 <= RADLEN b <= 65535 -> RADLEN b <= Z.of_nat (length b) ->
  attrvalidate b 20 (RADLEN b - 20) = Some true ->
  (forall a, attrget b 20 (RADLEN b - 20) RAD_Attr_Message_Authenticator = Some (Some a) ->
     ATTRVALLEN b a = 16 /\
     fst (checkmessageauth b (ATTRVAL a) (secret (c_conf cl))) = true) ->
  exists resp w',
    radsrv dorewrite rewriteusername env w rq = Some w' /\
    servers w' = servers w /\
    replyqs w' = <[replyq cl := q ++ [ {| reply_buf := resp; tosa := reply_address w rq |} ]]>
                   (replyqs w) /\
    length resp = 20%nat /\ nth 0 resp 0 = RAD_Accounting_Response /\
    nth 1 resp 0 = nth 1 b 0 /\ RADLEN resp = 20.
Proof.
  intros Hb Hc Hcl Hq Hcode Hlen Hfit Hval Hma.
  assert ((RADLEN b - 20) mod 65536 = RADLEN b - 20) as Hmod by (apply Z.mod_small; lia).
  assert (20 <= length b)%nat as Hb20 by lia.
  destruct (attrget_after_validate b _ RAD_Attr_Message_Authenticator Hval) as (ma & Hget & Hin).
  destruct (attrget_after_validate b _ RAD_Attr_User_Name Hval) as (un & Hun & _).
  (* the packet after the check of the Message-Authenticator *)
  assert (match ma with
          | None => (true, b)
          | Some a =>
            if negb (ATTRVALLEN b a =? 16) then (false, b)
            else checkmessageauth b (ATTRVAL a) (secret (c_conf cl))
          end = (true, b)) as Hauth.
  { destruct ma as [a|]; [|reflexivity].
    destruct (Hma a Hget) as [H16 Hok]. rewrite H16. cbn [Z.eqb negb].
    change (16 =? 16) with true. cbn [negb].
    destruct (Hin a eq_refl) as (Ha & _ & _ & Hend).
    pose proof (checkmessageauth_buffer b (ATTRVAL a) (secret (c_conf cl))) as Hsame.
    rewrite memcpy_restore in Hsame
      by (unfold ATTRVALLEN, ATTRVAL in *; first [lia | reflexivity]).
    destruct (checkmessageauth b (ATTRVAL a) (secret (c_conf cl))) as [ok b'] eqn:E.
    cbn [fst snd] in *. rewrite Hok, Hsame. reflexivity. }
  unfold radsrv, radsrv_route.
  rewrite Hb, Hc. cbn [mbind option_bind]. rewrite Hcl. cbn [mbind option_bind].
  rewrite Hcode, Hmod. cbn [Z.eqb orb negb RAD_Accounting_Request RAD_Access_Request
    RAD_Status_Server Pos.eqb].
  rewrite Hval. cbn [mbind option_bind negb]. rewrite Hget. cbn [mbind option_bind].
  rewrite Hauth. cbn [negb]. rewrite Hun. cbn [mbind option_bind].
  unfold respondaccounting. cbn [buf from set_buf mbind option_bind].
  rewrite Hc. cbn [mbind option_bind].
  unfold sendreply. rewrite Hcl. cbn [mbind option_bind]. rewrite Hq. cbn [mbind option_bind].
  destruct (short_response_shape RAD_Accounting_Response b Hb20) as (Hl & H0 & H1 & Hr).
  pose proof (radsign_shape (short_response RAD_Accounting_Response b) (secret (c_conf cl)) Hl)
    as Hsign.
  destruct (radsign _ _) as [ok resp]. destruct Hsign as (-> & Hl' & H0' & H1' & Hr' & _).
  cbn [negb fmap option_fmap option_map].
  eexists resp, _. split; [reflexivity|].
  split; [reflexivity|]. split.
  - cbn [replyqs set_replyqs]. unfold reply_address. cbn [from set_buf fromsa]. reflexivity.
  - repeat split; congruence.
Qed.

End EngineFacts.

(** ** The engine and its request tables *)

(** *** The effect of [sendrq] and [radsrv] on the servers *)

Lemma sendrq_slot_free (to : server) (i : Z) :
  0 <= nextid to <= MAX_REQUESTS ->
  sendrq_slot to = Some i ->
  0 <= i < MAX_REQUESTS /\ free_at (requests to) i.
Proof.
  intros Hn. unfold sendrq_slot.
  pose proof (scan_free_spec (Z.to_nat (MAX_REQUESTS - nextid to)) (requests to)
                (nextid to) MAX_REQUESTS ltac:(lia) ltac:(lia)) as (H1 & _ & H3).
  pose proof (scan_free_spec (Z.to_nat (nextid to)) (requests to) 0 (nextid to)
                ltac:(lia) ltac:(lia)) as (H4 & _ & H6).
  cbv zeta in *.
  destruct (Z.eqb_spec (scan_free (Z.to_nat (MAX_REQUESTS - nextid to)) (requests to)
                          (nextid to) MAX_REQUESTS) MAX_REQUESTS) as [E|NE].
  - destruct (Z.eqb_spec (scan_free (Z.to_nat (nextid to)) (requests to) 0 (nextid to))
                (nextid to)) as [E'|NE']; [discriminate|].
    intros [= <-]. split; [lia | apply H6; lia].
  - intros [= <-]. split; [lia | apply H3; lia].
Qed.

Lemma sendrq_effect (to to' : server) (rq : request) :
  0 <= nextid to <= MAX_REQUESTS ->
  sendrq to rq = Some to' ->
  to' = to \/
  exists i b, 0 <= i < MAX_REQUESTS /\ free_at (requests to) i /\
              to' = enqueue to i (set_buf (Some b) rq).
Proof.
  intros Hn. unfold sendrq.
  destruct (sendrq_slot to) as [i|] eqn:Hs; [|intros [= <-]; left; reflexivity].
  destruct (sendrq_slot_free to i Hn Hs) as [Hi Hfree].
  destruct (buf rq) as [b|]; [|discriminate]. cbv zeta.
  destruct (attrget _ _ _ _) as [[attr|]|]; [| |discriminate].
  - destruct (createmessageauth _ _ _) as [[|] b'];
      intros [= <-]; [right; eauto | left; reflexivity].
  - intros [= <-]. right. eauto.
Qed.

Lemma sendreply_servers (w w' : world) (to : nat) (b : buffer) (tosa_ : option sockaddr) :
  sendreply w to b tosa_ = Some w' -> servers w' = servers w.
Proof.
  unfold sendreply. intros H.
  destruct (clients w !! to) as [cl|]; [|discriminate H]. cbn [mbind option_bind] in H.
  destruct (replyqs w !! replyq cl) as [q|]; [|discriminate H]. cbn [mbind option_bind] in H.
  destruct (radsign b (secret (c_conf cl))) as [[|] b']; cbn [negb] in H;
    injection H as <-; reflexivity.
Qed.

(** Take apart a computation in the option monad that is known to
    succeed. *)
Ltac bind_inv H :=
  match type of H with
  | (?x ≫= _) = Some _ =>
      let E := fresh "E" in
      destruct x eqn:E; cbn [mbind option_bind] in H; [|discriminate H]
  | (_ <$> ?x) = Some _ =>
      let E := fresh "E" in
      destruct x eqn:E; cbn [fmap option_fmap option_map] in H; [|discriminate H]
  | (if ?c then _ else _) = Some _ =>
      let E := fresh "E" in destruct c eqn:E
  | match ?x with _ => _ end = Some _ =>
      let E := fresh "E" in destruct x eqn:E
  | None = Some _ => discriminate H
  end.

Section EngineEffects.

Variable dorewrite : buffer -> rewrite_t -> buffer.
Variable rewriteusername :
  clsrvconf -> buffer -> buffer -> option (buffer * option buffer * buffer).

Lemma radsrv_route_answered (w w' : world) (rq : request) :
  radsrv_route dorewrite rewriteusername w rq = Some (answered w') ->
  servers w' = servers w.
Proof.
  unfold radsrv_route, respondaccounting, respondstatusserver. intros H.
  repeat bind_inv H; try discriminate H; injection H as H; subst;
    try reflexivity;
    match goal with
    | E : _ = Some w' |- _ =>
        cbn [buf from set_buf] in E; cbn [mbind option_bind] in E;
        repeat bind_inv E; eapply sendreply_servers; eassumption
    end.
Qed.

Lemma radsrv_route_routed (w : world) (rq rq' : request) (b' : buffer) (id len : Z)
    (r : realm) (to : option nat) :
  radsrv_route dorewrite rewriteusername w rq = Some (routed rq' b' id len r to) ->
  (exists b, buf rq = Some b /\ id = nth 1 b 0 /\ nth 0 b 0 = RAD_Access_Request) /\
  from rq' = from rq /\ tries rq' = tries rq /\ received rq' = received rq /\
  expiry rq' = expiry rq /\ to = realm2server (servers w) r.
Proof.
  unfold radsrv_route, respondaccounting, respondstatusserver. intros H.
  repeat bind_inv H; try discriminate H; injection H as H; subst;
    try match goal with
    | E : _ = Some (routed _ _ _ _ _ _) |- _ =>
        cbn [mbind option_bind fmap option_fmap option_map] in E; repeat bind_inv E;
        discriminate E
    end.
  all: cbn [from tries received expiry]; repeat split; try reflexivity.
  all: eexists; split; [reflexivity|]; split; [reflexivity|].
  all: match goal with
       | E : negb (_ =? RAD_Access_Request) = false |- _ =>
           apply negb_false_iff, Z.eqb_eq in E; exact E
       end.
Qed.

Lemma radsrv_forward_effect (env : radsrv_env) (w w' : world) (rq : request)
    (b : buffer) (id len : Z) (r : realm) (to : option nat) :
  radsrv_forward env w rq b id len r to = Some w' ->
  servers w' = servers w \/
  exists t srv srv' rq',
    to = Some t /\ servers w !! t = Some srv /\
    rqinqueue srv (from rq) id = false /\
    from rq' = from rq /\ origid rq' = id /\ tries rq' = tries rq /\
    received rq' = received rq /\ expiry rq' = expiry rq /\
    sendrq srv rq' = Some srv' /\
    servers w' = <[t := srv']> (servers w).
Proof.
  unfold radsrv_forward, respondreject. intros H.
  repeat bind_inv H; try discriminate H;
    try (injection H as <-; left; reflexivity);
    try (left; eapply sendreply_servers; eassumption).
  injection H as <-. right.
  match goal with
  | E : sendrq ?srv ?rq' = Some ?srv', E' : servers w !! ?t = Some ?srv |- _ =>
      exists t, srv, srv', rq'
  end.
  cbn [from origid tries received expiry set_orig set_buf servers set_servers].
  repeat split; try reflexivity; assumption.
Qed.

(** What [radsrv] does to the servers for a request a reader hands in:
    nothing, or one [sendrq] of a request that is no duplicate. *)
Lemma radsrv_effect (env : radsrv_env) (w w' : world) (b : buffer) (c : nat)
    (sa_ : option sockaddr) :
  radsrv dorewrite rewriteusername env w (reader_request b c sa_) = Some w' ->
  servers w' = servers w \/
  exists t srv srv' rq',
    servers w !! t = Some srv /\
    rqinqueue srv (Some c) (nth 1 b 0) = false /\
    from rq' = Some c /\ origid rq' = nth 1 b 0 /\ tries rq' = 0 /\
    received rq' = false /\ expiry rq' = 0 /\
    sendrq srv rq' = Some srv' /\
    servers w' = <[t := srv']> (servers w).
Proof.
  unfold radsrv. intros H.
  destruct (radsrv_route _ _ w _) as [[w0|rq' b' id len r to]|] eqn:Hroute;
    cbn [mbind option_bind] in H; [| |discriminate H].
  - injection H as <-. left. eapply radsrv_route_answered, Hroute.
  - apply radsrv_route_routed in Hroute
      as ((b0 & Hb0 & -> & _) & Hfrom & Htries & Hrecv & Hexp & _).
    cbn [reader_request buf from tries received expiry] in *. injection Hb0 as <-.
    apply radsrv_forward_effect in H
      as [H|(t & srv & srv' & rq2 & _ & Hsrv & Hq & Hf & Ho & Ht & Hr & He & Hs & Hw)];
      [left; exact H|].
    right. exists t, srv, srv', rq2. rewrite Hfrom in *.
    repeat split; try assumption; congruence.
Qed.

Lemma servers_effect_refl (now : Z) (tab : list server) : servers_effect now tab tab.
Proof. intros s. destruct (tab !! s) as [srv|]; [|reflexivity]. eauto. Qed.

Lemma servers_effect_insert (now : Z) (tab : list server) (t : nat) (srv srv' : server) :
  tab !! t = Some srv -> srv' = srv \/ server_effect now srv srv' ->
  servers_effect now tab (<[t := srv']> tab).
Proof.
  intros Ht Heff s. destruct (decide (t = s)) as [->|Hne].
  - rewrite Ht. exists srv'. split; [|exact Heff].
    apply list_lookup_insert_eq. eapply lookup_lt_Some, Ht.
  - rewrite list_lookup_insert_ne by exact Hne.
    destruct (tab !! s) as [x|]; [|reflexivity]. eauto.
Qed.

Lemma on_server_inv (w w' : world) (s : nat) (f : server -> option server) :
  on_server w s f = Some w' ->
  exists srv srv', servers w !! s = Some srv /\ f srv = Some srv' /\
                   w' = set_servers (<[s := srv']> (servers w)) w.
Proof.
  unfold on_server. intros H. repeat bind_inv H. injection H as <-. eauto.
Qed.

Lemma radudpget_round_servers (w w' : world) (sel : peer_sel) (d : option datagram)
    (r : received_packet) :
  radudpget_round w sel d = Some (r, w') -> servers w' = servers w.
Proof.
  unfold radudpget_round, radudpget_peer, addclient, newreplyq. intros H.
  destruct d as [d|]; [|discriminate H]. cbv zeta in H.
  repeat bind_inv H; try discriminate H; injection H as _ <-;
    repeat match goal with
    | E : _ = Some _ |- _ => progress (repeat bind_inv E)
    | E : Some _ = Some _ |- _ => injection E as E
    | E : (_, _) = (_, _) |- _ => injection E as E
    end; subst; try reflexivity.
  destruct (conf_type _); injection E12 as _ <-; reflexivity.
Qed.

(** Every action leaves each server alone or has one effect on it. *)
Lemma perform_effect (now : Z) (a : action) (w w' : world) :
  Forall table_ok (servers w) ->
  perform dorewrite rewriteusername now a w = Some w' ->
  servers_effect now (servers w) (servers w').
Proof.
  intros Hok H. destruct a as [sel d|env b c sa_|s|s|s i|s auth|s i fwd|c]; cbn [perform] in H.
  - destruct (radudpget_round w sel d) as [[r w0]|] eqn:E; injection H as <-.
    + rewrite (radudpget_round_servers _ _ _ _ _ E). apply servers_effect_refl.
    + apply servers_effect_refl.
  - apply radsrv_effect in H
      as [->|(t & srv & srv' & rq' & Ht & Hq & Hf & Ho & Htr & Hr & He & Hs & ->)];
      [apply servers_effect_refl|].
    apply (servers_effect_insert now _ t srv srv' Ht).
    assert (table_ok srv) as [Hn _]
      by (eapply Forall_lookup_1; [exact Hok | exact Ht]).
    apply (sendrq_effect _ _ _ Hn) in Hs as [->|(i & b' & Hi & Hfree & ->)];
      [left; reflexivity|].
    right. apply eff_enqueue; try assumption.
    intros c' Hc'. rewrite Hf in Hc'. injection Hc' as <-. rewrite Ho. exact Hq.
  - apply on_server_inv in H as (srv & srv' & Hs & [= <-] & ->).
    apply (servers_effect_insert now _ s srv _ Hs). right. constructor.
  - apply on_server_inv in H as (srv & srv' & Hs & [= <-] & ->).
    apply (servers_effect_insert now _ s srv _ Hs). right. constructor.
  - apply on_server_inv in H as (srv & srv' & Hs & Hf & ->).
    apply (servers_effect_insert now _ s srv _ Hs).
    destruct (_ && in_use _) eqn:E; [|discriminate Hf]. injection Hf as <-.
    apply andb_prop in E as [E Hu]. apply andb_prop in E as [E1 E2].
    right. apply eff_writer; [lia | exact Hu].
  - apply on_server_inv in H as (srv & srv' & Hs & Hf & ->).
    apply (servers_effect_insert now _ s srv _ Hs).
    destruct (statusserver _); [|discriminate Hf].
    assert (table_ok srv) as [Hn _]
      by (eapply Forall_lookup_1; [exact Hok | exact Hs]).
    apply (sendrq_effect _ _ _ Hn) in Hf as [->|(i & b' & Hi & Hfree & ->)];
      [left; reflexivity|].
    right. apply eff_enqueue; try assumption; try reflexivity.
    intros c' Hc'. discriminate Hc'.
  - destruct (on_server w s _) as [w0|] eqn:E; cbn [mbind option_bind] in H;
      [|discriminate H].
    assert (servers w' = servers w0) as ->.
    { destruct fwd as [[q r]|]; [|injection H as <-; reflexivity].
      repeat bind_inv H. injection H as <-. reflexivity. }
    apply on_server_inv in E as (srv & srv' & Hs & Hf & ->).
    apply (servers_effect_insert now _ s srv _ Hs).
    destruct i as [i|]; [|injection Hf as <-; right; constructor].
    destruct (_ && replyh_pending _ _) eqn:E; [|discriminate Hf]. injection Hf as <-.
    apply andb_prop in E as [E Hp]. apply andb_prop in E as [E1 E2].
    unfold replyh_pending in Hp. cbv zeta in Hp.
    apply andb_prop in Hp as [Hp _]. apply andb_prop in Hp as [Hu _].
    right. apply eff_accept; [lia | exact Hu].
  - injection H as <-. unfold removeclientrqs. cbn [servers set_servers].
    intros s. rewrite list_lookup_fmap.
    destruct (servers w !! s) as [srv|]; [|reflexivity]. cbn [fmap option_fmap option_map].
    eexists. split; [reflexivity|]. right. apply (eff_forget now srv c). reflexivity.
Qed.

End EngineEffects.

(** *** The request table under the effects *)

Lemma slot_insert_eq (reqs : list request) (i : Z) (rq : request) :
  0 <= i -> (Z.to_nat i < length reqs)%nat ->
  slot (<[Z.to_nat i := rq]> reqs) i = rq.
Proof.
  intros Hi Hl. unfold slot. rewrite nth_lookup, list_lookup_insert_eq by exact Hl.
  reflexivity.
Qed.

Lemma slot_insert_ne (reqs : list request) (i j : Z) (rq : request) :
  0 <= i -> 0 <= j -> j <> i ->
  slot (<[Z.to_nat i := rq]> reqs) j = slot reqs j.
Proof.
  intros Hi Hj Hne. unfold slot. rewrite !nth_lookup, list_lookup_insert_ne by lia.
  reflexivity.
Qed.

Lemma slot_forget (c : nat) (reqs : list request) (i : Z) :
  0 <= i < MAX_REQUESTS ->
  slot (map (forget_client c) (take (Z.to_nat MAX_REQUESTS) reqs)
        ++ drop (Z.to_nat MAX_REQUESTS) reqs) i
  = forget_client c (slot reqs i).
Proof.
  intros Hi. unfold slot. rewrite !nth_lookup.
  destruct (decide (Z.to_nat i < length reqs)%nat) as [Hin|Hout].
  - rewrite lookup_app_l by (rewrite length_map, length_take; lia).
    rewrite list_lookup_fmap, lookup_take_lt by lia.
    destruct (reqs !! Z.to_nat i); reflexivity.
  - rewrite (lookup_ge_None_2 reqs) by lia.
    rewrite lookup_ge_None_2; [reflexivity|].
    rewrite length_app, length_map, length_take, length_drop. lia.
Qed.

Lemma table_ok_effect (now : Z) (srv srv' : server) :
  server_effect now srv srv' -> table_ok srv -> table_ok srv'.
Proof.
  intros Heff [Hn Hl]. unfold table_ok.
  destruct Heff as [srv ok l n|srv i rq b Hi _ _ _ _ _|srv i Hi _|srv i Hi _|srv c reqs ->].
  - cbn. auto.
  - cbn [enqueue nextid requests]. rewrite length_insert. split; [lia | exact Hl].
  - unfold clientwr_slot, clientradput, set_slot, set_flags. cbv zeta.
    repeat match goal with |- context [if ?c then _ else _] => destruct c end;
      try destruct (conf_type (s_conf _));
      cbn [nextid requests s_conf]; rewrite ?length_insert; auto.
  - cbn [replyh_accept replyh_touch set_slot set_flags nextid requests].
    rewrite length_insert. auto.
  - cbn [nextid requests]. split; [exact Hn|].
    rewrite length_app, length_map, length_take, length_drop. lia.
Qed.

Lemma rqinqueue_live (srv : server) (c : nat) (k : Z) :
  rqinqueue srv (Some c) k = true <->
  exists i, 0 <= i < MAX_REQUESTS /\ live (slot (requests srv) i) c k.
Proof.
  unfold rqinqueue, live. rewrite existsb_exists. split.
  - intros (rq & Hin & Hp).
    apply list_elem_of_In, list_elem_of_lookup in Hin as (n & Hn).
    apply lookup_take_Some in Hn as [Hn Hlt].
    exists (Z.of_nat n). split; [lia|]. unfold slot.
    rewrite Nat2Z.id, nth_lookup, Hn. cbn [default].
    apply andb_prop in Hp as [Hp Hf]. apply andb_prop in Hp as [Hp Ho].
    apply andb_prop in Hp as [Hu Hr].
    apply bool_decide_eq_true in Hf. apply Z.eqb_eq in Ho. apply negb_true_iff in Hr.
    auto.
  - intros (i & Hi & Hu & Hr & Hf & Ho).
    exists (slot (requests srv) i). split.
    + apply list_elem_of_In, list_elem_of_lookup. exists (Z.to_nat i).
      apply lookup_take_Some. split; [|lia].
      unfold slot in *. rewrite nth_lookup in *.
      destruct (requests srv !! Z.to_nat i) as [rq|]; [reflexivity|].
      cbn in Hu. discriminate Hu.
    + rewrite Hu, Hr, Hf, Ho, Z.eqb_refl. cbn. apply bool_decide_eq_true. reflexivity.
Qed.

Lemma slot_clientwr_ne (now : Z) (srv : server) (i j : Z) :
  0 <= i -> 0 <= j -> j <> i ->
  slot (requests (clientwr_slot now srv i)) j = slot (requests srv) j.
Proof.
  intros Hi Hj Hne. unfold clientwr_slot, clientradput, set_slot, set_flags. cbv zeta.
  repeat match goal with |- context [if ?c then _ else _] => destruct c end;
    try destruct (conf_type (s_conf _));
    cbn [requests s_conf]; rewrite ?slot_insert_ne by lia; reflexivity.
Qed.

Lemma conf_clientwr (now : Z) (srv : server) (i : Z) :
  s_conf (clientwr_slot now srv i) = s_conf srv.
Proof.
  unfold clientwr_slot, clientradput, set_slot, set_flags. cbv zeta.
  repeat match goal with |- context [if ?c then _ else _] => destruct c end;
    try destruct (conf_type (s_conf _)); reflexivity.
Qed.

(** The slot [clientwr] works on is left alone, freed, or sent once more. *)
Lemma slot_clientwr_eq (now : Z) (srv : server) (i : Z) :
  0 <= i -> (Z.to_nat i < length (requests srv))%nat ->
  let rq := slot (requests srv) i in
  let rq' := slot (requests (clientwr_slot now srv i)) i in
  rq' = rq \/ rq' = set_buf None rq \/
  (received rq = false /\ expiry rq <= now /\ tries rq <> max_tries srv rq /\
   rq' = set_tries_expiry ((tries rq + 1) mod 256)
           (now + (if is_statsrv rq || bool_decide (conf_type (s_conf srv) = T)
                   then REQUEST_EXPIRY else REQUEST_EXPIRY / REQUEST_RETRIES)) rq).
Proof.
  intros Hi Hl. cbv zeta. unfold clientwr_slot, clientradput. cbv zeta.
  destruct (received (slot (requests srv) i)) eqn:Hr.
  { right; left. cbn [set_slot requests]. apply slot_insert_eq; assumption. }
  destruct (Z.ltb_spec now (expiry (slot (requests srv) i))) as [Hlt|Hge].
  { left. reflexivity. }
  destruct (Z.eqb_spec (tries (slot (requests srv) i)) (max_tries srv (slot (requests srv) i)))
    as [He|Hne].
  { right; left. destruct (_ && _); cbn [set_slot set_flags requests];
      apply slot_insert_eq; assumption. }
  right; right. repeat split; try assumption.
  destruct (conf_type (s_conf (set_slot srv i _))); cbn [set_slot set_flags requests];
    apply slot_insert_eq; assumption.
Qed.

Lemma live_set_buf_none (rq : request) (c : nat) (k : Z) : ~ live (set_buf None rq) c k.
Proof. intros (Hu & _). cbn in Hu. discriminate Hu. Qed.

Lemma no_duplicates_effect (now : Z) (srv srv' : server) :
  server_effect now srv srv' -> table_ok srv ->
  no_duplicates srv -> no_duplicates srv'.
Proof.
  intros Heff [Hn Hl] Hnd.
  assert (forall i, 0 <= i < MAX_REQUESTS -> (Z.to_nat i < length (requests srv))%nat)
    as Hin by (intros i Hi; rewrite Hl; lia).
  (* effects that make no slot live *)
  assert ((forall i c k, 0 <= i < MAX_REQUESTS ->
             live (slot (requests srv') i) c k -> live (slot (requests srv) i) c k) ->
          no_duplicates srv') as Hshrink.
  { intros Hsub i j c k Hi Hj Li Lj. apply (Hnd i j c k Hi Hj); apply Hsub; assumption. }
  destruct Heff as [srv ok l n|srv i rq b Hi Hfree Ht Hr He Hq|srv i Hi Hu|srv i Hi Hu
                   |srv c reqs ->].
  - apply Hshrink. intros i c k _ H. exact H.
  - intros j1 j2 c k Hj1 Hj2 L1 L2. cbn [enqueue requests] in L1, L2.
    assert (forall j, 0 <= j < MAX_REQUESTS -> j <> i ->
              live (slot (<[Z.to_nat i := set_buf (Some b) rq]> (requests srv)) j) c k ->
              from rq = Some c -> origid rq = k -> False) as Hclash.
    { intros j Hj Hne Lj Hf Ho. rewrite slot_insert_ne in Lj by lia.
      specialize (Hq c Hf). rewrite Ho in Hq.
      assert (rqinqueue srv (Some c) k = true) as Hyes
        by (apply rqinqueue_live; exists j; auto).
      congruence. }
    destruct (Z.eq_dec j1 i) as [->|N1]; destruct (Z.eq_dec j2 i) as [->|N2];
      [reflexivity | | |].
    + exfalso. rewrite slot_insert_eq in L1 by (auto; lia).
      destruct L1 as (_ & _ & Hf & Ho). eapply (Hclash j2); eauto.
    + exfalso. rewrite slot_insert_eq in L2 by (auto; lia).
      destruct L2 as (_ & _ & Hf & Ho). eapply (Hclash j1); eauto.
    + rewrite slot_insert_ne in L1, L2 by lia. apply (Hnd j1 j2 c k); assumption.
  - apply Hshrink. intros j c k Hj Lj.
    destruct (Z.eq_dec j i) as [->|Hne]; [|rewrite slot_clientwr_ne in Lj by lia; exact Lj].
    destruct (slot_clientwr_eq now srv i ltac:(lia) (Hin i Hi)) as [E|[E|(_ & _ & _ & E)]];
      cbv zeta in E; rewrite E in Lj.
    + exact Lj.
    + exfalso. eapply live_set_buf_none, Lj.
    + exact Lj.
  - apply Hshrink. intros j c k Hj Lj. cbn [replyh_accept replyh_touch set_slot set_flags
      requests] in Lj.
    destruct (Z.eq_dec j i) as [->|Hne]; [|rewrite slot_insert_ne in Lj by lia; exact Lj].
    rewrite slot_insert_eq in Lj by (auto; lia).
    destruct Lj as (_ & Hr & _). cbn in Hr. discriminate Hr.
  - apply Hshrink. intros j c' k Hj Lj. cbn [requests] in Lj.
    rewrite slot_forget in Lj by exact Hj. unfold forget_client in Lj.
    destruct (bool_decide _); [|exact Lj].
    destruct Lj as (_ & _ & Hf & _). cbn in Hf. discriminate Hf.
Qed.

(** *** The account of tries and expiry under the effects *)

Lemma max_tries_bounds (srv : server) (rq : request) :
  1 <= max_tries srv rq <= REQUEST_RETRIES.
Proof. unfold max_tries, REQUEST_RETRIES. destruct (_ || _); lia. Qed.

Lemma conf_effect (now : Z) (srv srv' : server) :
  server_effect now srv srv' -> s_conf srv' = s_conf srv.
Proof.
  intros [ | | srv0 i _ _ | | ]; try reflexivity. apply conf_clientwr.
Qed.

(** What an effect leaves in a slot that is in use after it: the slot as it
    was up to the reply flag and the client, the slot sent once more, or a
    slot taken just now. *)
Definition slot_kept (rq rq' : request) : Prop :=
  in_use rq = true /\ buf rq' = buf rq /\ tries rq' = tries rq /\ expiry rq' = expiry rq.

Definition slot_resent (now : Z) (srv : server) (rq rq' : request) : Prop :=
  in_use rq = true /\ buf rq' = buf rq /\ tries rq <> max_tries srv rq /\
  tries rq' = (tries rq + 1) mod 256 /\ now < expiry rq'.

Definition slot_taken (rq rq' : request) : Prop :=
  in_use rq = false /\ tries rq' = 0 /\ expiry rq' = 0.

Lemma slot_effect (now : Z) (srv srv' : server) (j : Z) :
  server_effect now srv srv' -> table_ok srv -> 0 <= j < MAX_REQUESTS ->
  let rq := slot (requests srv) j in
  let rq' := slot (requests srv') j in
  in_use rq' = true ->
  slot_kept rq rq' \/ slot_resent now srv rq rq' \/ slot_taken rq rq'.
Proof.
  intros Heff [Hn Hl] Hj. cbv zeta.
  assert (forall i, 0 <= i < MAX_REQUESTS -> (Z.to_nat i < length (requests srv))%nat)
    as Hin by (intros i Hi; rewrite Hl; lia).
  destruct Heff as [srv ok l n|srv i rq b Hi Hfree Ht Hr He Hq|srv i Hi Hu|srv i Hi Hu
                   |srv c reqs ->].
  - intros Hu. left. repeat split; assumption.
  - cbn [enqueue requests]. destruct (Z.eq_dec j i) as [->|Hne].
    + rewrite slot_insert_eq by (auto; lia). intros _. right; right.
      split; [|split]; [|exact Ht|exact He].
      apply in_use_free. exact Hfree.
    + rewrite slot_insert_ne by lia. intros Hu. left. repeat split; assumption.
  - destruct (Z.eq_dec j i) as [->|Hne].
    + destruct (slot_clientwr_eq now srv i ltac:(lia) (Hin i Hi)) as [E|[E|(_ & _ & Hm & E)]];
        cbv zeta in E; rewrite E; intros Hu'.
      * left. repeat split; assumption.
      * cbn in Hu'. discriminate Hu'.
      * right; left. split; [exact Hu|]. split; [reflexivity|]. split; [exact Hm|].
        split; [reflexivity|]. cbn [set_tries_expiry expiry].
        unfold REQUEST_EXPIRY, REQUEST_RETRIES. change (20 / 3) with 6.
        destruct (_ || _); lia.
    + rewrite slot_clientwr_ne by lia. intros Hu'. left. repeat split; assumption.
  - cbn [replyh_accept replyh_touch set_slot set_flags requests].
    destruct (Z.eq_dec j i) as [->|Hne].
    + rewrite slot_insert_eq by (auto; lia). intros _. left. repeat split; assumption.
    + rewrite slot_insert_ne by lia. intros Hu'. left. repeat split; assumption.
  - cbn [requests]. rewrite slot_forget by exact Hj. unfold forget_client.
    destruct (bool_decide _); intros Hu'; left; repeat split; assumption.
Qed.

Lemma max_tries_kept (srv srv' : server) (rq rq' : request) :
  s_conf srv' = s_conf srv -> buf rq' = buf rq -> max_tries srv' rq' = max_tries srv rq.
Proof. intros Hc Hb. unfold max_tries, is_statsrv. rewrite Hc, Hb. reflexivity. Qed.

Lemma timely_effect (now clk : Z) (brn brn' : Z -> Z) (srv srv' : server) :
  srv' = srv \/ server_effect now srv srv' -> table_ok srv -> clk <= now ->
  timely clk brn srv ->
  (forall i, brn' i = if negb (in_use (slot (requests srv) i))
                         && in_use (slot (requests srv') i)
                      then now else brn i) ->
  timely now brn' srv'.
Proof.
  intros [->|Heff] Hok Hclk Htim Hb j Hj; cbv zeta; intros Hu'.
  { specialize (Htim j Hj Hu'). cbv zeta in Htim. rewrite Hb, Hu'. cbn.
    destruct Htim as (H1 & H2 & H3 & H4). repeat split; try lia; auto. }
  pose proof (conf_effect now srv srv' Heff) as Hc.
  pose proof (max_tries_bounds srv' (slot (requests srv') j)) as Hmb.
  destruct (slot_effect now srv srv' j Heff Hok Hj Hu')
    as [(Hu & Hbuf & Ht & He)|[(Hu & Hbuf & Hm & Ht & He)|(Hu & Ht & He)]];
    rewrite Hb, Hu, Hu'; cbn [negb andb].
  - destruct (Htim j Hj Hu) as (H1 & H2 & H3 & H4).
    rewrite (max_tries_kept srv srv' _ _ Hc Hbuf), Ht, He.
    repeat split; try lia; auto.
  - destruct (Htim j Hj Hu) as (H1 & H2 & H3 & H4).
    rewrite (max_tries_kept srv srv' _ _ Hc Hbuf) in *.
    unfold REQUEST_RETRIES in Hmb.
    rewrite Ht, Z.mod_small by lia. repeat split; try lia.
  - rewrite Ht, He. repeat split; try lia.
Qed.

(** *** The invariant of the engine *)

Lemma slot_addserver (conf : clsrvconf) (i : Z) :
  slot (requests (addserver conf)) i = request_zero.
Proof.
  unfold slot, addserver. cbn [requests].
  destruct (nth_in_or_default (Z.to_nat i) (repeat request_zero (Z.to_nat MAX_REQUESTS))
              request_zero) as [Hin|E]; [|exact E].
  exact (repeat_spec _ _ _ Hin).
Qed.

Section EngineInvariant.

Variable dorewrite : buffer -> rewrite_t -> buffer.
Variable rewriteusername :
  clsrvconf -> buffer -> buffer -> option (buffer * option buffer * buffer).

Lemma engine_inv_initial (t : traced) : initial t -> engine_inv t.
Proof.
  unfold initial, engine_inv. intros Hinit.
  split; [|split].
  - eapply Forall_impl; [exact Hinit|]. intros srv (conf & ->).
    split; [cbn; unfold MAX_REQUESTS; lia | cbn [addserver requests]; apply repeat_length].
  - eapply Forall_impl; [exact Hinit|]. intros srv (conf & ->) i j c k _ _ (Hu & _).
    rewrite slot_addserver in Hu. discriminate Hu.
  - intros s srv Hs i Hi. cbv zeta. intros Hu.
    destruct (Forall_lookup_1 _ _ _ _ Hinit Hs) as (conf & ->).
    rewrite slot_addserver in Hu. discriminate Hu.
Qed.

Lemma engine_inv_step (t t' : traced) :
  step dorewrite rewriteusername t t' -> engine_inv t -> engine_inv t'.
Proof.
  intros (a & Hclk & Hperf & Hborn) (Hok & Hnd & Htim).
  pose proof (perform_effect dorewrite rewriteusername _ _ _ _ Hok Hperf) as Heff.
  assert (forall s srv', servers (tw t') !! s = Some srv' ->
            exists srv, servers (tw t) !! s = Some srv /\
              (srv' = srv \/ server_effect (clock t') srv srv')) as Hback.
  { intros s srv' Hs'. specialize (Heff s).
    destruct (servers (tw t) !! s) as [srv|] eqn:Hs.
    - destruct Heff as (srv1 & H1 & H2). exists srv. split; [reflexivity|]. congruence.
    - congruence. }
  split; [|split].
  - apply Forall_lookup_2. intros s srv' Hs'.
    destruct (Hback s srv' Hs') as (srv & Hs & [->|He]).
    + exact (Forall_lookup_1 _ _ _ _ Hok Hs).
    + exact (table_ok_effect _ _ _ He (Forall_lookup_1 _ _ _ _ Hok Hs)).
  - apply Forall_lookup_2. intros s srv' Hs'.
    destruct (Hback s srv' Hs') as (srv & Hs & [->|He]).
    + exact (Forall_lookup_1 _ _ _ _ Hnd Hs).
    + exact (no_duplicates_effect _ _ _ He (Forall_lookup_1 _ _ _ _ Hok Hs)
               (Forall_lookup_1 _ _ _ _ Hnd Hs)).
  - intros s srv' Hs'.
    destruct (Hback s srv' Hs') as (srv & Hs & He).
    apply (timely_effect (clock t') (clock t) (born t s) (born t' s) srv srv' He
             (Forall_lookup_1 _ _ _ _ Hok Hs) Hclk (Htim s srv Hs)).
    intros i. rewrite Hborn. unfold newly_used, slot_of. rewrite Hs, Hs'. reflexivity.
Qed.

Lemma engine_inv_reachable (t : traced) :
  reachable dorewrite rewriteusername t -> engine_inv t.
Proof.
  intros (t0 & Hinit & Hrtc). apply engine_inv_initial in Hinit.
  induction Hrtc as [t|t t1 t2 Hstep _ IH]; [exact Hinit|].
  apply IH. exact (engine_inv_step _ _ Hstep Hinit).
Qed.

End EngineInvariant.

(** *** The small proxy at work *)

Example radsrv_stores_request7 :
  radsrv keep_packet keep_username env0 world1 request7 = Some world2.
Proof. vm_compute. reflexivity. Qed.

Example clientwr_sends_request7 :
  perform keep_packet keep_username 2 (act_writer_slot 0 0) world2 = Some world3.
Proof. vm_compute. reflexivity. Qed.

Lemma trace2_reachable : reachable keep_packet keep_username trace2.
Proof.
  exists trace1. split.
  - unfold initial. cbn. constructor; [|constructor]. exists conf0. reflexivity.
  - apply rtc_once. exists (act_radsrv env0 (named_request RAD_Access_Request 7) 0 None).
    split; [cbn; lia|]. split; [exact radsrv_stores_request7|]. intros s i. reflexivity.
Qed.

Lemma trace3_reachable : reachable keep_packet keep_username trace3.
Proof.
  destruct trace2_reachable as (t0 & Hinit & Hrtc).
  exists t0. split; [exact Hinit|].
  eapply rtc_r; [exact Hrtc|].
  exists (act_writer_slot 0 0).
  split; [cbn; lia|]. split; [exact clientwr_sends_request7|]. intros s i. reflexivity.
Qed.

(** *** Duplicates and the account of every reachable table *)

Section EngineReachable.

Variable dorewrite : buffer -> rewrite_t -> buffer.
Variable rewriteusername :
  clsrvconf -> buffer -> buffer -> option (buffer * option buffer * buffer).

Lemma radsrv_route_client (w : world) (rq : request) (route : routing) :
  radsrv_route dorewrite rewriteusername w rq = Some route ->
  exists c cl, from rq = Some c /\ clients w !! c = Some cl.
Proof.
  unfold radsrv_route. intros H.
  bind_inv H. bind_inv H. bind_inv H. eauto.
Qed.

(** C2.  An Access-Request of client [c] with id [k] that [radsrv] routes
    to the server [s] is dropped, the state left as it was, when a slot of
    the table of [s] holds an in-use, unreceived request with [origid = k] and
    [from = c]; and in every reachable state no table holds two such slots
    for one client and one id. *)
Theorem duplicate_suppression :
  (forall env w rq b0 c rq' b id len r s srv i,
     buf rq = Some b0 -> from rq = Some c ->
     radsrv_route dorewrite rewriteusername w rq = Some (routed rq' b id len r (Some s)) ->
     servers w !! s = Some srv ->
     0 <= i < MAX_REQUESTS -> live (slot (requests srv) i) c (nth 1 b0 0) ->
     radsrv dorewrite rewriteusername env w rq = Some w) /\
  (forall t, reachable dorewrite rewriteusername t ->
     Forall no_duplicates (servers (tw t))).
Proof.
  split.
  - intros env w rq b0 c rq' b id len r s srv i Hb Hc Hroute Hs Hi Hlive.
    destruct (radsrv_route_client _ _ _ Hroute) as (c' & cl & Hc' & Hcl).
    destruct (radsrv_route_routed _ _ _ _ _ _ _ _ _ _ Hroute)
      as ((b1 & Hb1 & Hid & _) & Hfrom & _).
    assert (c' = c) as -> by congruence.
    assert (b1 = b0) as -> by congruence.
    unfold radsrv. rewrite Hroute. cbn [mbind option_bind].
    unfold radsrv_forward. rewrite Hfrom, Hc. cbn [mbind option_bind].
    rewrite Hcl. cbn [mbind option_bind]. rewrite Hs. cbn [mbind option_bind].
    assert (rqinqueue srv (Some c) id = true) as ->; [|reflexivity].
    apply rqinqueue_live. exists i. subst id. split; assumption.
  - intros t Hreach.
    exact (proj1 (proj2 (engine_inv_reachable _ _ t Hreach))).
Qed.

(** C8 (as the code has it).  In every reachable state every in-use
    slot has [tries] between 0 and the number of transmissions its server
    allows (1 for a TLS server or a Status-Server probe, [REQUEST_RETRIES]
    otherwise); once it was sent ([tries >= 1]) its [expiry] is later than the
    time the slot was taken, and before that ([tries = 0]) its [expiry] is
    0. *)
Theorem request_slots_timely (t : traced) (s : nat) (srv : server) (i : Z) :
  reachable dorewrite rewriteusername t ->
  servers (tw t) !! s = Some srv -> 0 <= i < MAX_REQUESTS ->
  in_use (slot (requests srv) i) = true ->
  let rq := slot (requests srv) i in
  0 <= tries rq <= max_tries srv rq /\
  max_tries srv rq = (if is_statsrv rq || bool_decide (conf_type (s_conf srv) = T)
                      then 1 else REQUEST_RETRIES) /\
  (1 <= tries rq -> born t s i < expiry rq) /\
  (tries rq = 0 -> expiry rq = 0).
Proof.
  intros Hreach Hs Hi Hu. cbv zeta.
  destruct (engine_inv_reachable _ _ t Hreach) as (_ & _ & Htim).
  destruct (Htim s srv Hs i Hi Hu) as (_ & Ht & He & H0).
  split; [exact Ht|]. split; [reflexivity|]. split; assumption.
Qed.

End EngineReachable.

(** The request with id 7 is in slot 0; the same request once more is
    dropped, and the table after the writer has sent it holds no duplicate. *)
Lemma duplicate_suppression_witness :
  live (slot (requests server2) 0) 0 7 /\
  radsrv keep_packet keep_username env0 world2 request7 = Some world2 /\
  Forall no_duplicates (servers (tw trace3)).
Proof.
  split; [|split].
  - vm_compute. repeat split; reflexivity.
  - apply (proj1 (duplicate_suppression keep_packet keep_username)
             env0 world2 request7 (named_request RAD_Access_Request 7) 0%nat
             request7 (named_request RAD_Access_Request 7) 7 3 realm_all 0%nat
             server2 0).
    + reflexivity.
    + reflexivity.
    + vm_compute. reflexivity.
    + reflexivity.
    + unfold MAX_REQUESTS. lia.
    + vm_compute. repeat split; reflexivity.
  - apply (proj2 (duplicate_suppression keep_packet keep_username)).
    exact trace3_reachable.
Defined.

(** The slot taken at time 1 and sent at time 2 expires at time 8. *)
Lemma request_slots_timely_witness :
  tries (slot (requests server3) 0) = 1 /\ expiry (slot (requests server3) 0) = 8 /\
  born trace3 0%nat 0 = 1 /\
  0 <= tries (slot (requests server3) 0)
    <= max_tries server3 (slot (requests server3) 0) /\
  (1 <= tries (slot (requests server3) 0) ->
   born trace3 0%nat 0 < expiry (slot (requests server3) 0)).
Proof.
  split; [reflexivity|]. split; [reflexivity|]. split; [reflexivity|].
  pose proof (request_slots_timely keep_packet keep_username trace3 0%nat server3 0
                trace3_reachable eq_refl ltac:(unfold MAX_REQUESTS; lia)
                ltac:(vm_compute; reflexivity)) as H.
  cbv zeta in H. destruct H as (H1 & _ & H2 & _). split; assumption.
Defined.

(** C8, as stated, fails: the slot [radsrv] has just filled through
    [sendrq] is in use with [tries = 0], and its [expiry], 0, is not later
    than the time it was taken. *)
Lemma request_stored_with_no_tries :
  reachable keep_packet keep_username trace2 /\
  exists srv, servers (tw trace2) !! 0%nat = Some srv /\
    in_use (slot (requests srv) 0) = true /\
    ~ (1 <= tries (slot (requests srv) 0) <= max_tries srv (slot (requests srv) 0)) /\
    ~ (born trace2 0%nat 0 < expiry (slot (requests srv) 0)).
Proof.
  split; [exact trace2_reachable|].
  exists server2.
  split; [reflexivity|]. split; [vm_compute; reflexivity|].
  split; vm_compute; intros H; [destruct H as [H _]; apply H; reflexivity | discriminate H].
Qed.

(** ** The small proxy: allocation, reception, accounting *)


(** The two octets after the declared length are cut off. *)
Lemma radudpget_round_length_witness :
  Z.of_nat (length (payload datagram0)) <= 65535 /\
  exists r,
    radudpget_round world1 (of_client None) (Some datagram0) = Some (r, world1) /\
    rad r = named_request RAD_Access_Request 7 /\ peer r = of_client (Some 0%nat).
Proof.
  split; [vm_compute; discriminate|].
  destruct (radudpget_round_length world1 (of_client None) datagram0) as (_ & _ & H).
  - vm_compute. discriminate.
  - destruct (H (of_client (Some 0%nat)) world1) as (r & Hr & Hrad & _ & Hpeer & _).
    + vm_compute. split; discriminate.
    + vm_compute. reflexivity.
    + exists r. split; [exact Hr|]. split; [|exact Hpeer].
      rewrite Hrad. vm_compute. reflexivity.
Defined.

(** The Accounting-Request with id 9 is answered; the server is left alone. *)
Lemma radsrv_accounting_witness :
  exists resp w',
    radsrv keep_packet keep_username env0 world1 accounting9 = Some w' /\
    servers w' = servers world1 /\
    replyqs w' = [[ {| reply_buf := resp; tosa := None |} ]] /\
    nth 0 resp 0 = RAD_Accounting_Response /\ nth 1 resp 0 = 9.
Proof.
  destruct (radsrv_accounting keep_packet keep_username env0 world1 accounting9
              (named_request RAD_Accounting_Request 9) 0%nat client0 [])
    as (resp & w' & H1 & H2 & H3 & _ & H4 & H5 & _).
  - reflexivity.
  - reflexivity.
  - reflexivity.
  - reflexivity.
  - reflexivity.
  - vm_compute. split; discriminate.
  - vm_compute. discriminate.
  - vm_compute. reflexivity.
  - intros a Ha. vm_compute in Ha. discriminate Ha.
  - exists resp, w'. split; [exact H1|]. split; [exact H2|]. split; [exact H3|].
    split; [exact H4|exact H5].
Defined.

(** ** MS-MPPE keys: encryption and decryption *)

Lemma xor_bytes_cancel_r (p h : buffer) :
  (length p <= length h)%nat -> xor_bytes (xor_bytes p h) h = p.
Proof.
  revert h. induction p as [|x p IH]; intros [|y h] Hl; simpl in *; try lia; try reflexivity.
  rewrite IH by lia. f_equal.
  rewrite Z.lxor_assoc, Z.lxor_nilpotent, Z.lxor_0_r. reflexivity.
Qed.

Lemma length_xor_bytes (a b : buffer) :
  length (xor_bytes a b) = Nat.min (length a) (length b).
Proof. unfold xor_bytes. apply length_zip_with. Qed.

Lemma length_peek (t : buffer) (off n : nat) :
  (off + n <= length t)%nat -> length (peek t off n) = n.
Proof. intros H. unfold peek. rewrite length_take, length_drop. lia. Qed.

Lemma take_take_le (t : buffer) (n m : nat) :
  (n <= m)%nat -> take n (take m t) = take n t.
Proof. intros H. rewrite take_take, Nat.min_l by exact H. reflexivity. Qed.

Lemma peek_take_eq (a b : buffer) (n off k : nat) :
  take n a = take n b -> (off + k <= n)%nat -> peek a off k = peek b off k.
Proof.
  intros E Hk. unfold peek. rewrite !take_drop_commute.
  rewrite <- (take_take_le a (off + k) n), <- (take_take_le b (off + k) n) by exact Hk.
  rewrite E. reflexivity.
Qed.

Lemma peek_app_next (t : buffer) (off n m : nat) :
  peek t off n ++ peek t (off + n) m = peek t off (n + m).
Proof.
  unfold peek. rewrite <- drop_drop. apply take_take_drop.
Qed.

Lemma take_memcpy (d src : buffer) (off : nat) :
  (off <= length d)%nat -> take off (memcpy d off src) = take off d.
Proof.
  intros H. unfold memcpy. rewrite take_app_length'; [reflexivity|].
  rewrite length_take. lia.
Qed.

Lemma peek_memcpy (d src : buffer) (off : nat) :
  (off <= length d)%nat -> peek (memcpy d off src) off (length src) = src.
Proof.
  intros H. unfold memcpy, peek.
  rewrite drop_app_length' by (rewrite length_take; lia).
  apply take_app_length.
Qed.

Lemma drop_memcpy (d src : buffer) (off k : nat) :
  (off + length src <= k)%nat -> (off <= length d)%nat ->
  drop k (memcpy d off src) = drop k d.
Proof.
  intros Hk Hd. unfold memcpy.
  rewrite app_assoc, drop_app_ge by (rewrite length_app, length_take; lia).
  rewrite length_app, length_take, drop_drop. f_equal. lia.
Qed.

Lemma xor_at_some (text : buffer) (off : Z) (hash : buffer) :
  0 <= off -> off + 16 <= Z.of_nat (length text) -> length hash = 16%nat ->
  exists t,
    xor_at text off hash = Some t /\ length t = length text /\
    take (Z.to_nat off) t = take (Z.to_nat off) text /\
    peek t (Z.to_nat off) 16 = xor_bytes (peek text (Z.to_nat off) 16) hash /\
    forall k, (Z.to_nat off + 16 <= k)%nat -> drop k t = drop k text.
Proof.
  intros H0 Hin Hh. unfold xor_at.
  destruct (Z.ltb_spec off 0); [lia|].
  destruct (Z.ltb_spec (Z.of_nat (length text)) (off + 16)); [lia|]. cbn [orb].
  set (blk := xor_bytes (peek text (Z.to_nat off) 16) hash).
  assert (length blk = 16%nat) as Hb.
  { unfold blk. rewrite length_xor_bytes, length_peek by lia. lia. }
  eexists. split; [reflexivity|]. split; [|split; [|split]].
  - apply length_memcpy. lia.
  - apply take_memcpy. lia.
  - rewrite <- Hb at 1. apply peek_memcpy. lia.
  - intros k Hk. apply drop_memcpy; lia.
Qed.

Lemma msmpp_loops (shared : buffer) (len : Z) (n : nat) :
  forall (text : buffer) (offset : Z),
    16 <= offset -> offset + 16 * Z.of_nat n = len -> len <= 240 ->
    len <= Z.of_nat (length text) ->
    forall fuel, (n < fuel)%nat ->
    exists c,
      msmppencrypt_loop fuel text len shared offset = Some c /\
      length c = length text /\
      take (Z.to_nat offset) c = take (Z.to_nat offset) text /\
      drop (Z.to_nat len) c = drop (Z.to_nat len) text /\
      forall plain fuel', (n < fuel')%nat ->
        msmppdecrypt_loop fuel' c len shared plain offset
        = Some (plain ++ peek text (Z.to_nat offset) (Z.to_nat (len - offset))).
Proof.
  induction n as [|n IH]; intros text offset Ho Hlen H240 Htext fuel Hfuel.
  - destruct fuel as [|fuel]; [lia|]. cbn [msmppencrypt_loop].
    destruct (Z.ltb_spec offset len); [lia|].
    exists text. repeat split; try reflexivity.
    intros plain [|fuel'] Hf; [lia|]. cbn [msmppdecrypt_loop].
    destruct (Z.ltb_spec offset len); [lia|].
    replace (len - offset) with 0 by lia. unfold peek. cbn [Z.to_nat take].
    rewrite app_nil_r. reflexivity.
  - destruct fuel as [|fuel]; [lia|]. cbn [msmppencrypt_loop].
    destruct (Z.ltb_spec offset len); [|lia].
    assert (forall t : buffer, length t = length text ->
              block_before t offset = Some (peek t (Z.to_nat (offset - 16)) 16)) as Hprev.
    { intros t Ht. unfold block_before.
      destruct (Z.ltb_spec offset 16); [lia|].
      destruct (Z.ltb_spec (Z.of_nat (length t)) offset); [lia|]. reflexivity. }
    rewrite (Hprev text eq_refl). cbn [mbind option_bind].
    set (hash := Digest.md5 (shared ++ peek text (Z.to_nat (offset - 16)) 16)).
    assert (length hash = 16%nat) as Hh by apply md5_length.
    rewrite Hh. cbn [Nat.eqb negb]. change ((16 =? 16)%nat) with true. cbn [negb].
    destruct (xor_at_some text offset hash ltac:(lia) ltac:(lia) Hh)
      as (t1 & -> & Hl1 & Hpre1 & Hblk1 & Hpost1).
    cbn [mbind option_bind].
    rewrite (Z.mod_small (offset + 16)) by lia.
    destruct (IH t1 (offset + 16) ltac:(lia) ltac:(lia) H240 ltac:(lia) fuel ltac:(lia))
      as (c & -> & Hlc & Hprec & Hpostc & Hdec).
    assert (take (Z.to_nat offset) c = take (Z.to_nat offset) text) as Hpre.
    { rewrite <- Hpre1.
      rewrite <- (take_take_le c (Z.to_nat offset) (Z.to_nat (offset + 16))) by lia.
      rewrite Hprec. apply take_take_le. lia. }
    exists c. split; [reflexivity|]. split; [congruence|]. split; [exact Hpre|].
    split; [rewrite Hpostc; apply Hpost1; lia|].
    intros plain [|fuel'] Hf; [lia|]. cbn [msmppdecrypt_loop].
    destruct (Z.ltb_spec offset len); [|lia].
    rewrite (Hprev c ltac:(congruence)). cbn [mbind option_bind].
    rewrite (peek_take_eq c text (Z.to_nat offset) (Z.to_nat (offset - 16)) 16 Hpre)
      by lia.
    fold hash. rewrite Hh. change ((16 =? 16)%nat) with true. cbn [negb].
    destruct (Z.ltb_spec 255 (offset + 16)); [lia|].
    destruct (Z.ltb_spec (Z.of_nat (length c)) (offset + 16)); [lia|]. cbn [orb].
    rewrite (Z.mod_small (offset + 16)) by lia.
    rewrite (peek_take_eq c t1 (Z.to_nat (offset + 16)) (Z.to_nat offset) 16 Hprec) by lia.
    rewrite Hblk1, xor_bytes_cancel_r by (rewrite length_peek; lia).
    rewrite Hdec by lia. f_equal. rewrite <- app_assoc. f_equal.
    assert (peek t1 (Z.to_nat (offset + 16)) (Z.to_nat (len - (offset + 16)))
            = peek text (Z.to_nat (offset + 16)) (Z.to_nat (len - (offset + 16)))) as ->.
    { unfold peek. rewrite Hpost1 by lia. reflexivity. }
    replace (Z.to_nat (offset + 16)) with (Z.to_nat offset + 16)%nat by lia.
    rewrite peek_app_next. f_equal. lia.
Qed.

(** X1.  A key of 16 to 240 octets, a multiple of 16, that [msmppencrypt]
    has encrypted in place is given back by [msmppdecrypt] under the same
    secret, authenticator and salt; what follows the key in memory is left
    alone. *)
Theorem msmpp_roundtrip (text : buffer) (len : Z) (shared : buffer) (sharedlen : Z)
    (auth salt : buffer) :
  16 <= len <= 240 -> len mod 16 = 0 -> len <= Z.of_nat (length text) ->
  exists c,
    msmppencrypt text len shared sharedlen auth salt = Some c /\
    length c = length text /\
    drop (Z.to_nat len) c = drop (Z.to_nat len) text /\
    msmppdecrypt c len shared sharedlen auth salt = Some text.
Proof.
  intros Hlen Hmod Htext. unfold msmppencrypt, msmppdecrypt. cbv zeta.
  set (sh := take (Z.to_nat sharedlen) shared).
  set (hash := Digest.md5 (sh ++ take 16 auth ++ take 2 salt)).
  assert (length hash = 16%nat) as Hh by apply md5_length.
  destruct (xor_at_some text 0 hash ltac:(lia) ltac:(lia) Hh)
    as (t1 & -> & Hl1 & _ & Hblk1 & Hpost1).
  cbn [mbind option_bind].
  assert (exists n, 16 + 16 * Z.of_nat n = len) as (n & Hn).
  { exists (Z.to_nat (len / 16 - 1)).
    pose proof (Z.div_mod len 16 ltac:(lia)). lia. }
  destruct (msmpp_loops sh len n t1 16 ltac:(lia) Hn ltac:(lia) ltac:(lia) 16%nat ltac:(lia))
    as (c & -> & Hlc & Hprec & Hpostc & Hdec).
  exists c. split; [reflexivity|]. split; [congruence|].
  split; [rewrite Hpostc; apply Hpost1; cbn; lia|].
  destruct (Z.ltb_spec (Z.of_nat (length c)) 16); [lia|].
  rewrite Hdec by lia. cbn [mbind option_bind].
  destruct (Z.ltb_spec (Z.of_nat (length c)) len); [lia|].
  f_equal.
  change (Z.to_nat 16) with 16%nat in *. change (Z.to_nat 0) with 0%nat in *.
  rewrite (peek_take_eq c t1 16 0 16 Hprec) by lia.
  rewrite Hblk1, xor_bytes_cancel_r by (rewrite length_peek; lia).
  assert (peek t1 16 (Z.to_nat (len - 16)) = peek text 16 (Z.to_nat (len - 16))) as ->.
  { unfold peek. rewrite (Hpost1 16%nat) by lia. reflexivity. }
  change 16%nat with (0 + 16)%nat at 2. rewrite peek_app_next.
  unfold memcpy, peek. cbn [take drop app]. rewrite drop_0.
  replace (16 + Z.to_nat (len - 16))%nat with (Z.to_nat len) by lia.
  rewrite take_take, Nat.min_id.
  rewrite length_take, Nat.min_l by lia.
  rewrite Nat.add_0_l, take_0, app_nil_l.
  rewrite Hpostc, (Hpost1 (Z.to_nat len)) by lia.
  apply take_drop.
Qed.

(** Three blocks under the secret of the examples. *)
Lemma msmpp_roundtrip_witness :
  exists c,
    msmppencrypt pw48 48 secret0 (strlen8 secret0) (zeros 16) [128; 1] = Some c /\
    msmppdecrypt c 48 secret0 (strlen8 secret0) (zeros 16) [128; 1] = Some pw48.
Proof.
  destruct (msmpp_roundtrip pw48 48 secret0 (strlen8 secret0) (zeros 16) [128; 1])
    as (c & H1 & _ & _ & H2).
  - lia.
  - reflexivity.
  - vm_compute. discriminate.
  - exists c. split; assumption.
Defined.

Lemma msmppdecrypt_loop_total (shared : buffer) (len : Z) (n : nat) :
  forall (text plain : buffer) (offset : Z),
    16 <= offset -> offset + 16 * Z.of_nat n = len -> len <= 240 ->
    len <= Z.of_nat (length text) ->
    forall fuel, (n < fuel)%nat ->
    exists p, msmppdecrypt_loop fuel text len shared plain offset = Some p /\
              length p = (length plain + 16 * n)%nat.
Proof.
  induction n as [|n IH]; intros text plain offset Ho Hlen H240 Htext [|fuel] Hfuel;
    try lia; cbn [msmppdecrypt_loop].
  - destruct (Z.ltb_spec offset len); [lia|]. exists plain. split; [reflexivity | lia].
  - destruct (Z.ltb_spec offset len); [|lia].
    unfold block_before.
    destruct (Z.ltb_spec offset 16); [lia|].
    destruct (Z.ltb_spec (Z.of_nat (length text)) offset); [lia|].
    cbn [orb mbind option_bind]. rewrite md5_length.
    change ((16 =? 16)%nat) with true. cbn [negb].
    destruct (Z.ltb_spec 255 (offset + 16)); [lia|].
    destruct (Z.ltb_spec (Z.of_nat (length text)) (offset + 16)); [lia|]. cbn [orb].
    rewrite (Z.mod_small (offset + 16)) by lia.
    destruct (IH text (plain ++ xor_bytes (peek text (Z.to_nat offset) 16)
                                  (Digest.md5 (shared ++ peek text (Z.to_nat (offset - 16)) 16)))
                (offset + 16) ltac:(lia) ltac:(lia) H240 Htext fuel ltac:(lia))
      as (p & -> & Hp).
    exists p. split; [reflexivity|]. rewrite Hp, length_app, length_xor_bytes, md5_length.
    rewrite length_peek by lia. lia.
Qed.

Lemma msmppdecrypt_total (text : buffer) (len : Z) (shared : buffer) (sharedlen : Z)
    (auth salt : buffer) :
  16 <= len <= 240 -> len mod 16 = 0 -> len <= Z.of_nat (length text) ->
  exists key, msmppdecrypt text len shared sharedlen auth salt = Some key /\
              length key = length text.
Proof.
  intros Hlen Hmod Htext. unfold msmppdecrypt. cbv zeta.
  destruct (Z.ltb_spec (Z.of_nat (length text)) 16); [lia|].
  assert (exists n, 16 + 16 * Z.of_nat n = len) as (n & Hn).
  { exists (Z.to_nat (len / 16 - 1)).
    pose proof (Z.div_mod len 16 ltac:(lia)). lia. }
  match goal with
  | |- context [msmppdecrypt_loop 16 text len ?sh ?pl 16] =>
      destruct (msmppdecrypt_loop_total sh len n text pl 16 ltac:(lia) Hn ltac:(lia)
                  Htext 16%nat ltac:(lia)) as (p & -> & Hp);
      assert (length pl = 16%nat) as Hpl
        by (rewrite length_xor_bytes, md5_length, length_peek by lia; lia)
  end.
  cbn [mbind option_bind].
  destruct (Z.ltb_spec (Z.of_nat (length text)) len); [lia|].
  eexists. split; [reflexivity|].
  apply length_memcpy. rewrite length_take. lia.
Qed.

Lemma msmppdecrypt_salt (text : buffer) (len : Z) (shared : buffer) (sharedlen : Z)
    (auth salt salt' : buffer) :
  take 2 salt = take 2 salt' ->
  msmppdecrypt text len shared sharedlen auth salt
  = msmppdecrypt text len shared sharedlen auth salt'.
Proof. intros E. unfold msmppdecrypt. rewrite E. reflexivity. Qed.

(** X2.  [msmpprecrypt] re-keys an MS-MPPE attribute value (two octets of
    salt, then a key of 16 to 240 octets, a multiple of 16): the salt is
    kept, and decrypting the new value under the new secret and
    authenticator gives the key that the old value holds under the old
    ones. *)
Theorem msmpprecrypt_rekeys (msmpp : buffer) (len : Z) (oldsecret newsecret : buffer)
    (oldauth newauth : buffer) :
  18 <= len <= 242 -> (len - 2) mod 16 = 0 -> len <= Z.of_nat (length msmpp) ->
  exists key r,
    msmppdecrypt (drop 2 msmpp) (len - 2) oldsecret (strlen8 oldsecret) oldauth msmpp
    = Some key /\
    msmpprecrypt msmpp len oldsecret newsecret oldauth newauth = Some r /\
    length r = length msmpp /\ take 2 r = take 2 msmpp /\
    msmppdecrypt (drop 2 r) (len - 2) newsecret (strlen8 newsecret) newauth r = Some key.
Proof.
  intros Hlen Hmod Hin.
  assert (length (drop 2 msmpp) = (length msmpp - 2)%nat) as Hd by apply length_drop.
  destruct (msmppdecrypt_total (drop 2 msmpp) (len - 2) oldsecret (strlen8 oldsecret)
              oldauth msmpp ltac:(lia) Hmod ltac:(lia)) as (key & Hkey & Hlk).
  destruct (msmpp_roundtrip key (len - 2) newsecret (strlen8 newsecret) newauth msmpp
              ltac:(lia) Hmod ltac:(lia)) as (c & Henc & Hlc & _ & Hdec).
  exists key, (take 2 msmpp ++ c).
  assert (length (take 2 msmpp) = 2%nat) as Ht by (rewrite length_take; lia).
  split; [exact Hkey|]. split; [|split; [|split]].
  - unfold msmpprecrypt. destruct (Z.ltb_spec len 18); [lia|].
    rewrite Hkey. cbn [mbind option_bind]. rewrite Henc. reflexivity.
  - rewrite length_app, Ht, Hlc, Hlk, Hd. lia.
  - rewrite take_app_length' by (symmetry; exact Ht). reflexivity.
  - rewrite drop_app_length' by (symmetry; exact Ht).
    rewrite (msmppdecrypt_salt c _ _ _ _ (take 2 msmpp ++ c) msmpp); [exact Hdec|].
    rewrite take_app_length' by (symmetry; exact Ht). reflexivity.
Qed.

(** A salt and a key of three blocks, from the secret of the examples to
    another. *)
Lemma msmpprecrypt_rekeys_witness :
  exists key r,
    msmppdecrypt pw48 48 secret0 (strlen8 secret0) (zeros 16) ([128; 1] ++ pw48)
    = Some key /\
    msmpprecrypt ([128; 1] ++ pw48) 50 secret0 (ascii_bytes "other") (zeros 16)
      (repeat 1 16) = Some r /\
    msmppdecrypt (drop 2 r) 48 (ascii_bytes "other") (strlen8 (ascii_bytes "other"))
      (repeat 1 16) r = Some key.
Proof.
  destruct (msmpprecrypt_rekeys ([128; 1] ++ pw48) 50 secret0 (ascii_bytes "other")
              (zeros 16) (repeat 1 16)) as (key & r & H1 & H2 & _ & _ & H3).
  - lia.
  - reflexivity.
  - vm_compute. discriminate.
  - exists key, r. split; [exact H1|]. split; [exact H2|exact H3].
Defined.

(** ** Message-Authenticator and response authenticator *)

Lemma memcpy_twice (d a b : buffer) (off : nat) :
  length a = length b -> (off + length a <= length d)%nat ->
  memcpy (memcpy d off a) off b = memcpy d off b.
Proof.
  intros Hab Hin. unfold memcpy.
  rewrite take_app_length' by (rewrite length_take; lia).
  f_equal. f_equal.
  rewrite app_assoc, drop_app_ge by (rewrite length_app, length_take; lia).
  rewrite length_app, length_take, drop_drop. f_equal. lia.
Qed.

(** X4.  A packet whose Message-Authenticator [createmessageauth] has
    filled in passes [checkmessageauth] under the same secret. *)
Theorem createmessageauth_verifies (rad : buffer) (a : nat) (secret : buffer) :
  (a + 16 <= length rad)%nat ->
  fst (createmessageauth rad (Some a) secret) = true /\
  fst (checkmessageauth (snd (createmessageauth rad (Some a) secret)) a secret) = true.
Proof.
  intros Hin. unfold createmessageauth. cbv zeta.
  set (rad0 := memcpy rad a (zeros 16)).
  set (hash := Digest.hmac_md5 secret (take (Z.to_nat (RADLEN rad0)) rad0)).
  assert (length hash = 16%nat) as Hh by apply hmac_md5_length.
  assert (length (zeros 16) = 16%nat) as Hz by reflexivity.
  assert (length rad0 = length rad) as Hl0 by (apply length_memcpy; lia).
  rewrite Hh. change ((16 =? 16)%nat) with true. cbn [negb fst snd].
  split; [reflexivity|].
  unfold checkmessageauth. cbv zeta.
  assert (memcpy (memcpy rad0 a hash) a (zeros 16) = rad0) as ->.
  { rewrite memcpy_twice by (rewrite ?Hh, ?Hl0; auto; lia).
    unfold rad0. rewrite memcpy_twice by (rewrite ?Hz; auto; lia). reflexivity. }
  fold hash. rewrite Hh. change ((16 =? 16)%nat) with true. cbn [negb].
  pose proof (peek_memcpy rad0 hash a ltac:(lia)) as Hpeek. rewrite Hh in Hpeek.
  rewrite Hpeek, (take_ge hash 16) by lia.
  rewrite bool_decide_eq_true_2 by reflexivity. reflexivity.
Qed.

(** The Status-Server packet of [clientwr], signed and checked. *)
Lemma createmessageauth_verifies_witness :
  fst (checkmessageauth (snd (createmessageauth (statsrvbuf (zeros 16)) (Some 22%nat) secret0))
         22 secret0) = true.
Proof.
  apply (createmessageauth_verifies (statsrvbuf (zeros 16)) 22 secret0).
  vm_compute. lia.
Defined.

(** X5.  A reply that [radsign] has signed with the authenticator of the
    request in place is accepted by [validauth] for that request under the
    same secret. *)
Theorem radsign_validauth (rad sec : buffer) :
  20 <= RADLEN rad <= Z.of_nat (length rad) ->
  fst (radsign rad sec) = true /\
  validauth (snd (radsign rad sec)) (peek rad 4 16) sec = true.
Proof.
  intros Hlen. unfold radsign. cbv zeta. cbn [fst snd].
  set (hash := Digest.md5 (take (Z.to_nat (RADLEN rad)) rad ++ sec)).
  assert (length hash = 16%nat) as Hh by apply md5_length.
  rewrite Hh. split; [reflexivity|].
  unfold validauth. cbv zeta.
  assert (RADLEN (memcpy rad 4 hash) = RADLEN rad) as ->.
  { unfold RADLEN. rewrite !nth_memcpy_below by lia. reflexivity. }
  assert (take 4 (memcpy rad 4 hash) = take 4 rad) as -> by (apply take_memcpy; lia).
  pose proof (peek_memcpy rad hash 4 ltac:(lia)) as Hpeek. rewrite Hh in Hpeek.
  rewrite Hpeek.
  assert (take 4 rad ++ take 16 (peek rad 4 16)
          ++ (if RADLEN rad <=? 20 then []
              else peek (memcpy rad 4 hash) 20 (Z.to_nat (RADLEN rad - 20))) ++ sec
          = take (Z.to_nat (RADLEN rad)) rad ++ sec) as ->.
  { rewrite !app_assoc. f_equal.
    assert (take 16 (peek rad 4 16) = peek rad 4 16) as ->
      by (unfold peek; apply take_idemp).
    unfold peek at 1. rewrite take_take_drop.
    destruct (Z.leb_spec (RADLEN rad) 20) as [Hle|Hgt].
    - rewrite app_nil_r. replace (RADLEN rad) with 20 by lia. reflexivity.
    - assert (peek (memcpy rad 4 hash) 20 (Z.to_nat (RADLEN rad - 20))
              = peek rad 20 (Z.to_nat (RADLEN rad - 20))) as ->.
      { unfold peek. rewrite drop_memcpy by lia. reflexivity. }
      unfold peek. change (4 + 16)%nat with 20%nat. rewrite take_take_drop.
      f_equal. lia. }
  fold hash. rewrite Hh. change ((16 =? 16)%nat) with true. cbn [andb].
  rewrite (take_ge hash 16) by lia. apply bool_decide_eq_true_2. reflexivity.
Qed.

(** An Access-Accept of 20 octets for the request with id 7. *)
Lemma radsign_validauth_witness :
  validauth (snd (radsign (bare_request RAD_Access_Accept 7) secret0))
    (peek (bare_request RAD_Access_Accept 7) 4 16) secret0 = true.
Proof.
  apply (radsign_validauth (bare_request RAD_Access_Accept 7) secret0).
  vm_compute. split; discriminate.
Defined.

(** ** Re-keying a password ([pwdrecrypt]) *)

Lemma memcpy_peek_same (d : buffer) (off n : nat) :
  (off + n <= length d)%nat -> memcpy d off (peek d off n) = d.
Proof.
  intros H. unfold memcpy, peek.
  rewrite length_take, length_drop, Nat.min_l by lia.
  rewrite <- drop_drop, take_drop. apply take_drop.
Qed.

(** X3.  [pwdrecrypt] re-keys a password of one block: decrypting its
    result under the new secret and authenticator gives the password the
    attribute held under the old ones, and the memory after the 16 octets is
    left alone, whatever lies below [out] in the frame of [pwdencrypt]. *)
Theorem pwdrecrypt_rekeys (below pwd oldsecret newsecret oldauth newauth : buffer) :
  (16 <= length pwd)%nat ->
  exists p r,
    pwddecrypt pwd 16 oldsecret (strlen8 oldsecret) oldauth = Some p /\
    pwdrecrypt below pwd 16 oldsecret newsecret oldauth newauth = Some r /\
    length r = length pwd /\ drop 16 r = drop 16 pwd /\
    pwddecrypt r 16 newsecret (strlen8 newsecret) newauth = Some p.
Proof.
  intros Hl.
  set (ho := Digest.md5 (take (Z.to_nat (strlen8 oldsecret)) oldsecret ++ take 16 oldauth)).
  set (hn := Digest.md5 (take (Z.to_nat (strlen8 newsecret)) newsecret ++ take 16 newauth)).
  assert (length ho = 16%nat) as Hho by apply md5_length.
  assert (length hn = 16%nat) as Hhn by apply md5_length.
  assert (forall t : buffer, (16 <= length t)%nat -> forall h : buffer, length h = 16%nat ->
            length (xor_bytes h (peek t 0 16)) = 16%nat) as Hx.
  { intros t Ht h Hh. rewrite length_xor_bytes, length_peek by lia. lia. }
  assert (forall t sec auth, (16 <= length t)%nat ->
            pwddecrypt t 16 sec (strlen8 sec) auth
            = Some (memcpy t 0 (xor_bytes (Digest.md5 (take (Z.to_nat (strlen8 sec)) sec
                                                       ++ take 16 auth)) (peek t 0 16))))
    as Hdec.
  { intros t sec auth Ht. unfold pwddecrypt.
    rewrite pwddecrypt_loop_step by lia. cbv zeta.
    change (0 + 16 =? 16) with true. cbv iota. cbn [app].
    change (Z.to_nat 0) with 0%nat. change (Z.to_nat 16) with 16%nat.
    rewrite take_ge by (rewrite Hx by (auto using md5_length); lia). reflexivity. }
  set (p := memcpy pwd 0 (xor_bytes ho (peek pwd 0 16))).
  assert (length p = length pwd) as Hp by (apply length_memcpy; rewrite Hx by auto; lia).
  set (r := memcpy p 0 (xor_bytes hn (peek p 0 16))).
  assert (length r = length pwd) as Hr.
  { unfold r. rewrite length_memcpy by (rewrite Hx by (auto; lia); lia). exact Hp. }
  exists p, r. split; [apply Hdec; exact Hl|]. split; [|split; [exact Hr|split]].
  - unfold pwdrecrypt. cbn [Z.ltb Z.compare Pos.compare Pos.compare_cont orb negb].
    change (16 mod 16 =? 0) with true. cbn [negb]. rewrite Hdec by exact Hl. fold ho p.
    unfold pwdencrypt. rewrite pwdencrypt_loop_step by lia. cbv zeta.
    change (0 + 16 =? 16) with true. cbv iota. cbn [app].
    change (Z.to_nat 0) with 0%nat. change (Z.to_nat 16) with 16%nat.
    fold hn. rewrite take_ge by (rewrite Hx by (auto; lia); lia). reflexivity.
  - unfold r. rewrite drop_memcpy by (rewrite ?Hx by (auto; lia); lia).
    unfold p. rewrite drop_memcpy by (rewrite ?Hx by (auto; lia); lia). reflexivity.
  - rewrite Hdec by lia. fold hn. f_equal.
    assert (peek r 0 16 = xor_bytes hn (peek p 0 16)) as ->.
    { unfold r. rewrite <- (Hx p ltac:(lia) hn Hhn) at 2. apply peek_memcpy. lia. }
    rewrite xor_bytes_involutive by (rewrite length_peek; lia).
    unfold r. rewrite memcpy_twice by (rewrite ?Hx, ?length_peek by (auto; lia); lia).
    apply memcpy_peek_same. lia.
Qed.

(** The first block of the password of the examples, with the rest of it
    after the block. *)
Lemma pwdrecrypt_rekeys_witness :
  exists p r,
    pwddecrypt pw48 16 secret0 (strlen8 secret0) (zeros 16) = Some p /\
    pwdrecrypt (zeros 16) pw48 16 secret0 (ascii_bytes "other") (zeros 16) (repeat 1 16)
    = Some r /\
    pwddecrypt r 16 (ascii_bytes "other") (strlen8 (ascii_bytes "other")) (repeat 1 16)
    = Some p.
Proof.
  destruct (pwdrecrypt_rekeys (zeros 16) pw48 secret0 (ascii_bytes "other") (zeros 16)
              (repeat 1 16)) as (p & r & H1 & H2 & _ & _ & H3).
  - vm_compute. lia.
  - exists p, r. split; [exact H1|]. split; [exact H2|exact H3].
Defined.

(** ** Attribute walks after validation *)

(** X6.  Once [attrvalidate] has accepted an attribute list, [attrget]
    returns for every type, and an attribute it returns has that type, a
    length of at least 2 and ends inside the list. *)
Theorem attrget_inside (b : buffer) (attrs : nat) (len type : Z) :
  attrvalidate b attrs len = Some true ->
  exists r, attrget b attrs len type = Some r /\
    forall a, r = Some a ->
      (attrs <= a)%nat /\ ATTRTYPE b a = type /\ 2 <= ATTRLEN b a /\
      Z.of_nat a + ATTRLEN b a <= Z.of_nat attrs + len.
Proof.
  intros Hv. exact (attrvalidate_attrget _ b attrs len type Hv).
Qed.

(** The User-Name of the request of the examples. *)
Lemma attrget_inside_witness :
  attrget (named_request RAD_Access_Request 7) 20 3 RAD_Attr_User_Name = Some (Some 20%nat) /\
  exists r, attrget (named_request RAD_Access_Request 7) 20 3 RAD_Attr_Message_Authenticator
            = Some r.
Proof.
  split; [reflexivity|].
  destruct (attrget_inside (named_request RAD_Access_Request 7) 20 3
              RAD_Attr_Message_Authenticator) as (r & Hr & _).
  - reflexivity.
  - exists r. exact Hr.
Defined.

(** ** Address prefixes ([prefixmatch]) *)

Lemma land_eq_bits (x y m : Z) :
  Z.land x m = Z.land y m <->
  forall n, 0 <= n -> Z.testbit m n = true -> Z.testbit x n = Z.testbit y n.
Proof.
  split.
  - intros E n Hn Hm.
    assert (Z.testbit (Z.land x m) n = Z.testbit (Z.land y m) n) as H by (rewrite E; reflexivity).
    rewrite !Z.land_spec, Hm, !andb_true_r in H. exact H.
  - intros H. apply Z.bits_inj'. intros n Hn. rewrite !Z.land_spec.
    destruct (Z.testbit m n) eqn:Hm; [|rewrite !andb_false_r; reflexivity].
    rewrite (H n Hn Hm). reflexivity.
Qed.

Lemma prefix_mask_bits (r : nat) (n : Z) :
  (1 <= r <= 7)%nat -> 0 <= n ->
  Z.testbit (nth r prefix_mask 0) n = (8 - Z.of_nat r <=? n) && (n <? 8).
Proof.
  intros Hr Hn.
  assert (nth r prefix_mask 0 = Z.shiftl (Z.ones (Z.of_nat r)) (8 - Z.of_nat r)) as ->.
  { do 8 (destruct r as [|r]; [try lia; reflexivity|]). lia. }
  rewrite Z.shiftl_spec by exact Hn.
  destruct (Z.leb_spec (8 - Z.of_nat r) n) as [Hge|Hlt].
  - rewrite Z.testbit_ones_nonneg by lia. cbn [andb].
    destruct (Z.ltb_spec (n - (8 - Z.of_nat r)) (Z.of_nat r));
      destruct (Z.ltb_spec n 8); try reflexivity; lia.
  - rewrite Z.testbit_neg_r by lia. reflexivity.
Qed.

Lemma octet_eq_bits (x y : Z) :
  0 <= x < 256 -> 0 <= y < 256 ->
  (x = y <-> forall j, 0 <= j < 8 -> Z.testbit x (7 - j) = Z.testbit y (7 - j)).
Proof.
  intros Hx Hy. split; [intros -> j _; reflexivity|].
  intros H. apply Z.bits_inj'. intros n Hn.
  destruct (Z.lt_ge_cases n 8) as [Hlt|Hge].
  - replace n with (7 - (7 - n)) by lia. apply H. lia.
  - rewrite <- (Z.mod_small x 256), <- (Z.mod_small y 256) by lia.
    change 256 with (2 ^ 8). rewrite !Z.mod_pow2_bits_high by lia. reflexivity.
Qed.

Lemma take_eq_nth (a1 a2 : buffer) (l : nat) :
  (l <= length a1)%nat -> (l <= length a2)%nat ->
  (take l a1 = take l a2 <-> forall i, (i < l)%nat -> nth i a1 0 = nth i a2 0).
Proof.
  intros H1 H2. split.
  - intros E i Hi. rewrite !nth_lookup.
    rewrite <- (lookup_take_lt a1 l i), <- (lookup_take_lt a2 l i) by exact Hi.
    rewrite E. reflexivity.
  - intros H. apply list_eq. intros i.
    destruct (Nat.lt_ge_cases i l) as [Hi|Hi].
    + rewrite !lookup_take_lt by exact Hi.
      destruct (lookup_lt_is_Some_2 a1 i ltac:(lia)) as [x Ex].
      destruct (lookup_lt_is_Some_2 a2 i ltac:(lia)) as [y Ey].
      specialize (H i Hi). rewrite !nth_lookup, Ex, Ey in H. cbn in H. congruence.
    + rewrite !lookup_take_ge by exact Hi. reflexivity.
Qed.

(** X7.  [prefixmatch] compares the first [len] bits of two addresses:
    it answers 1 exactly when they agree on each of them; with [len = 0]
    every pair of addresses matches. *)
Theorem prefixmatch_bits (a1 a2 : buffer) (len : Z) :
  octets a1 -> octets a2 -> 0 <= len ->
  len <= 8 * Z.of_nat (length a1) -> len <= 8 * Z.of_nat (length a2) ->
  (prefixmatch a1 a2 len = true <->
   forall k, 0 <= k < len -> addr_bit a1 k = addr_bit a2 k).
Proof.
  intros Ho1 Ho2 H0 Hl1 Hl2.
  pose proof (Z.div_mod len 8 ltac:(lia)) as Hdm.
  pose proof (Z.mod_pos_bound len 8 ltac:(lia)) as Hr.
  assert (0 <= len / 8) as Hq by (apply Z.div_pos; lia).
  set (l := Z.to_nat (len / 8)) in *. set (r := Z.to_nat (len mod 8)) in *.
  assert (forall (a : buffer) i, octets a -> 0 <= nth i a 0 < 256) as Hbyte.
  { intros a i Ho. destruct (nth_in_or_default i a 0) as [Hin| ->]; [|lia].
    unfold octets in Ho. rewrite Forall_forall in Ho. apply Ho.
    apply list_elem_of_In. exact Hin. }
  (* the whole octets *)
  assert (take l a1 = take l a2 <->
          forall k, 0 <= k < 8 * Z.of_nat l -> addr_bit a1 k = addr_bit a2 k) as Hwhole.
  { rewrite take_eq_nth by lia. split.
    - intros H k Hk. unfold addr_bit. rewrite (H (Z.to_nat (k / 8))); [reflexivity|].
      assert (k / 8 < Z.of_nat l) by (apply Z.div_lt_upper_bound; lia).
      assert (0 <= k / 8) by (apply Z.div_pos; lia). lia.
    - intros H i Hi. apply (octet_eq_bits _ _ (Hbyte a1 i Ho1) (Hbyte a2 i Ho2)).
      intros j Hj. specialize (H (8 * Z.of_nat i + j) ltac:(lia)).
      unfold addr_bit in H.
      replace ((8 * Z.of_nat i + j) / 8) with (Z.of_nat i) in H
        by (apply (Z.div_unique _ 8 _ j); lia).
      replace ((8 * Z.of_nat i + j) mod 8) with j in H
        by (apply (Z.mod_unique _ 8 (Z.of_nat i) j); lia).
      rewrite Nat2Z.id in H. exact H. }
  (* the bits of the last octet *)
  assert ((1 <= r)%nat ->
          (Z.land (nth l a1 0) (nth r prefix_mask 0) = Z.land (nth l a2 0) (nth r prefix_mask 0)
           <-> forall k, 8 * Z.of_nat l <= k < len -> addr_bit a1 k = addr_bit a2 k)) as Hlast.
  { intros Hr1. rewrite land_eq_bits. split.
    - intros H k Hk. unfold addr_bit.
      assert (k / 8 = Z.of_nat l) as Hk8
        by (symmetry; apply (Z.div_unique _ 8 _ (k - 8 * Z.of_nat l)); lia).
      assert (k mod 8 = k - 8 * Z.of_nat l) as Hkm
        by (symmetry; apply (Z.mod_unique _ 8 (Z.of_nat l)); lia).
      rewrite Hk8, Nat2Z.id, Hkm. apply H; [lia|].
      rewrite prefix_mask_bits by lia.
      apply andb_true_intro. split; [apply Z.leb_le | apply Z.ltb_lt]; lia.
    - intros H n Hn Hm. rewrite prefix_mask_bits in Hm by lia.
      apply andb_prop in Hm as [Hlo Hhi]. apply Z.leb_le in Hlo. apply Z.ltb_lt in Hhi.
      specialize (H (8 * Z.of_nat l + (7 - n)) ltac:(lia)). unfold addr_bit in H.
      replace ((8 * Z.of_nat l + (7 - n)) / 8) with (Z.of_nat l) in H
        by (apply (Z.div_unique _ 8 _ (7 - n)); lia).
      replace ((8 * Z.of_nat l + (7 - n)) mod 8) with (7 - n) in H
        by (apply (Z.mod_unique _ 8 (Z.of_nat l)); lia).
      rewrite Nat2Z.id in H. replace (7 - (7 - n)) with n in H by lia. exact H. }
  unfold prefixmatch. cbv zeta. fold l r.
  destruct (decide (take l a1 = take l a2)) as [Et|Nt].
  - rewrite (bool_decide_eq_true_2 _ Et). cbn [negb]. rewrite andb_false_r.
    destruct (Nat.eqb_spec r 0) as [Er|Nr].
    + split; [|reflexivity]. intros _ k Hk. apply Hwhole; [exact Et | lia].
    + rewrite Z.eqb_eq, (Hlast ltac:(lia)). split.
      * intros H k Hk. destruct (Z.lt_ge_cases k (8 * Z.of_nat l)).
        -- apply Hwhole; [exact Et | lia].
        -- apply H. lia.
      * intros H k Hk. apply H. lia.
  - rewrite (bool_decide_eq_false_2 _ Nt). cbn [negb]. rewrite andb_true_r.
    destruct (Nat.eqb_spec l 0) as [El|Nl].
    + exfalso. apply Nt. rewrite El. reflexivity.
    + cbn [negb]. split; [discriminate|].
      intros H. exfalso. apply Nt. apply Hwhole. intros k Hk. apply H. lia.
Qed.

(** Two addresses of one /24. *)
Lemma prefixmatch_bits_witness :
  prefixmatch [192; 0; 2; 1] [192; 0; 2; 200] 24 = true /\
  addr_bit [192; 0; 2; 1] 23 = addr_bit [192; 0; 2; 200] 23.
Proof.
  split; [reflexivity|].
  apply (proj1 (prefixmatch_bits [192; 0; 2; 1] [192; 0; 2; 200] 24
                  ltac:(repeat (constructor; [lia|]); constructor)
                  ltac:(repeat (constructor; [lia|]); constructor)
                  ltac:(lia) ltac:(cbn; lia) ltac:(cbn; lia)) eq_refl 23).
  lia.
Defined.

(** ** Finding the block of a peer ([find_conf], [checkconfaddr]) *)

Lemma find_conf_from_spec (type : transport) (addr : sockaddr) (confs : list clsrvconf)
    (start : nat) :
  match find_conf_from type addr confs start with
  | Some i =>
    (start <= i)%nat /\
    (exists conf, confs !! (i - start)%nat = Some conf /\ conf_matches type addr conf = true) /\
    forall j conf, (j < i - start)%nat -> confs !! j = Some conf ->
                   conf_matches type addr conf = false
  | None => forall j conf, confs !! j = Some conf -> conf_matches type addr conf = false
  end.
Proof.
  revert start. induction confs as [|c rest IH]; intros start; cbn [find_conf_from].
  - intros j conf Hj. discriminate Hj.
  - destruct (conf_matches type addr c) eqn:Hc.
    + split; [lia|]. rewrite Nat.sub_diag. split; [exists c; auto|].
      intros j conf Hj. lia.
    + specialize (IH (S start)). destruct (find_conf_from type addr rest (S start)) as [i|].
      * destruct IH as (Hi & (conf & Hl & Hm) & Hfirst).
        split; [lia|]. split.
        -- exists conf. split; [|exact Hm].
           replace (i - start)%nat with (S (i - S start)) by lia. exact Hl.
        -- intros [|j] conf' Hj Hl'; [cbn in Hl'; congruence|].
           apply (Hfirst j conf'); [lia | exact Hl'].
      * intros [|j] conf Hl; [cbn in Hl; congruence|]. exact (IH j conf Hl).
Qed.

(** X8.  [find_conf] returns the first block of the list, after the
    cursor when one is given, that [checkconfaddr] accepts for the address,
    and [NULL] exactly when [checkconfaddr] accepts none of them. *)
Theorem find_conf_first (type : transport) (addr : sockaddr) (confs : list clsrvconf)
    (cur : option nat) :
  let start := match cur with Some k => S k | None => 0%nat end in
  (forall i, find_conf type addr confs cur = Some i <->
     (start <= i)%nat /\
     (exists conf, confs !! i = Some conf /\ checkconfaddr type addr conf = true) /\
     forall j conf, (start <= j < i)%nat -> confs !! j = Some conf ->
                    checkconfaddr type addr conf = false) /\
  (find_conf type addr confs cur = None <->
     forall j conf, (start <= j)%nat -> confs !! j = Some conf ->
                    checkconfaddr type addr conf = false).
Proof.
  cbv zeta. unfold checkconfaddr.
  set (start := match cur with Some k => S k | None => 0%nat end).
  assert (find_conf type addr confs cur = find_conf_from type addr (drop start confs) start)
    as ->.
  { unfold find_conf, start. destruct cur; [reflexivity|]. rewrite drop_0. reflexivity. }
  pose proof (find_conf_from_spec type addr (drop start confs) start) as Hspec.
  assert (forall j, (start <= j)%nat -> drop start confs !! (j - start)%nat = confs !! j) as Hd.
  { intros j Hj. rewrite lookup_drop. f_equal. lia. }
  destruct (find_conf_from type addr (drop start confs) start) as [i0|].
  - destruct Hspec as (Hi & (conf & Hl & Hm) & Hfirst). rewrite Hd in Hl by exact Hi.
    assert (forall j conf', (start <= j < i0)%nat -> confs !! j = Some conf' ->
              conf_matches type addr conf' = false) as Hfirst'.
    { intros j conf' Hj Hl'. apply (Hfirst (j - start)%nat conf'); [lia|].
      rewrite Hd by lia. exact Hl'. }
    split.
    + intros i. split.
      * intros [= <-]. split; [exact Hi|]. split; [exists conf; auto | exact Hfirst'].
      * intros (Hs & (conf' & Hl' & Hm') & Hf'). f_equal.
        destruct (Nat.lt_trichotomy i0 i) as [Hlt|[Heq|Hgt]]; [|exact Heq|].
        -- rewrite (Hf' i0 conf ltac:(lia) Hl) in Hm. discriminate Hm.
        -- rewrite (Hfirst' i conf' ltac:(lia) Hl') in Hm'. discriminate Hm'.
    + split; [discriminate|]. intros H. rewrite (H i0 conf Hi Hl) in Hm. discriminate Hm.
  - split.
    + intros i. split; [discriminate|]. intros (Hs & (conf' & Hl' & Hm') & _).
      rewrite (Hspec (i - start)%nat conf') in Hm'; [discriminate Hm'|].
      rewrite Hd by exact Hs. exact Hl'.
    + split; [|reflexivity]. intros _ j conf' Hj Hl'.
      apply (Hspec (j - start)%nat conf'). rewrite Hd by exact Hj. exact Hl'.
Qed.

(** X9.  A peer that reaches the proxy with the IPv4-mapped form of its
    address is matched with the blocks of its IPv4 address: [find_conf] and
    [checkconfaddr] answer for the one what they answer for the other. *)
Theorem find_conf_v4mapped (type : transport) (a : buffer) (port port' : Z)
    (confs : list clsrvconf) (cur : option nat) :
  find_conf type (v4mapped a port) confs cur
  = find_conf type {| sa_family := AF_INET; sa_addr := a; sa_port := port' |} confs cur /\
  forall conf,
    checkconfaddr type (v4mapped a port) conf
    = checkconfaddr type {| sa_family := AF_INET; sa_addr := a; sa_port := port' |} conf.
Proof.
  assert (forall conf,
            conf_matches type (v4mapped a port) conf
            = conf_matches type {| sa_family := AF_INET; sa_addr := a; sa_port := port' |} conf)
    as Hm.
  { intros conf. unfold conf_matches, addr_parts, v4mapped, IN6_IS_ADDR_V4MAPPED.
    cbn [sa_family sa_addr]. change (AF_INET6 =? AF_INET6) with true.
    change (AF_INET =? AF_INET6) with false. cbv iota.
    change (take 12 (zeros 10 ++ [255; 255] ++ a)) with (zeros 10 ++ [255; 255]).
    rewrite bool_decide_eq_true_2 by reflexivity.
    change (drop 12 (zeros 10 ++ [255; 255] ++ a)) with a. reflexivity. }
  split; [|exact Hm].
  assert (forall l start, find_conf_from type (v4mapped a port) l start
            = find_conf_from type {| sa_family := AF_INET; sa_addr := a; sa_port := port' |}
                l start) as Hf.
  { induction l as [|c l IH]; intros start; cbn [find_conf_from]; [reflexivity|].
    rewrite Hm, IH. reflexivity. }
  unfold find_conf. destruct cur; apply Hf.
Qed.

(** ** The client of a UDP peer ([radudpget], [addclient]) *)



(** ** The request table: storing, finding, forgetting *)

Lemma sendrq_slot_full (to : server) :
  0 <= nextid to <= MAX_REQUESTS ->
  sendrq_slot to = None -> none_free (requests to) 0 MAX_REQUESTS.
Proof.
  intros Hn. unfold sendrq_slot.
  pose proof (scan_free_spec (Z.to_nat (MAX_REQUESTS - nextid to)) (requests to)
                (nextid to) MAX_REQUESTS ltac:(lia) ltac:(lia)) as (H1 & H2 & _).
  pose proof (scan_free_spec (Z.to_nat (nextid to)) (requests to) 0 (nextid to)
                ltac:(lia) ltac:(lia)) as (H4 & H5 & _).
  cbv zeta in *.
  destruct (Z.eqb_spec (scan_free (Z.to_nat (MAX_REQUESTS - nextid to)) (requests to)
                          (nextid to) MAX_REQUESTS) MAX_REQUESTS) as [E|NE];
    [|discriminate].
  destruct (Z.eqb_spec (scan_free (Z.to_nat (nextid to)) (requests to) 0 (nextid to))
              (nextid to)) as [E'|NE']; [|discriminate].
  intros _ j Hj. rewrite E in H2. rewrite E' in H5.
  destruct (Z.lt_ge_cases j (nextid to)); [apply H5 | apply H2]; lia.
Qed.

(** With a validated packet [sendrq] stores the request in the slot it
    settles on. *)
Lemma sendrq_stores (to : server) (rq : request) (b : buffer) (i : Z) :
  0 <= i < MAX_REQUESTS -> buf rq = Some b -> (20 <= length b)%nat ->
  attrvalidate b 20 (RADLEN b - 20) = Some true ->
  sendrq_slot to = Some i ->
  exists b', sendrq to rq = Some (enqueue to i (set_buf (Some b') rq)).
Proof.
  intros Hi Hb Hb20 Hval Hs. unfold sendrq. rewrite Hs, Hb. cbv zeta.
  set (b1 := <[1%nat := i mod 256]> b).
  assert (RADLEN b1 = RADLEN b) as Hrl.
  { unfold RADLEN, b1. rewrite !nth_insert_ne by lia. reflexivity. }
  destruct (attrvalidate_attrget _ b 20 (RADLEN b - 20)
              RAD_Attr_Message_Authenticator Hval) as (r & Hr & _).
  unfold attrget. rewrite Hrl.
  rewrite (attrget_loop_ext _ b1 b) by (intros x Hx; apply nth_insert_ne; lia).
  rewrite Hr. destruct r as [attr|]; [|eexists; reflexivity].
  unfold createmessageauth. cbv zeta. rewrite hmac_md5_length.
  change (negb (16 =? 16)%nat) with false. cbv iota. eexists. reflexivity.
Qed.

Lemma live_enqueue_other (to : server) (i j : Z) (rq : request) (c : nat) (k : Z) :
  0 <= i -> 0 <= j -> j <> i ->
  live (slot (requests to) j) c k -> live (slot (requests (enqueue to i rq)) j) c k.
Proof. intros Hi Hj Hne. rewrite slot_enqueue_ne by assumption. auto. Qed.

(** X11.  A request that [sendrq] is given while the table has a free
    slot is found by [rqinqueue] afterwards under its client and its original
    id, and so is every request that [rqinqueue] found before. *)
Theorem sendrq_rqinqueue (to : server) (rq : request) (b : buffer) (c : nat) :
  table_ok to -> buf rq = Some b -> (20 <= length b)%nat ->
  attrvalidate b 20 (RADLEN b - 20) = Some true ->
  from rq = Some c -> received rq = false ->
  (exists i, 0 <= i < MAX_REQUESTS /\ free_at (requests to) i) ->
  exists to',
    sendrq to rq = Some to' /\
    rqinqueue to' (Some c) (origid rq) = true /\
    forall c' k, rqinqueue to (Some c') k = true -> rqinqueue to' (Some c') k = true.
Proof.
  intros [Hn Hl] Hb Hb20 Hval Hf Hr (i0 & Hi0 & Hfree0).
  destruct (sendrq_slot to) as [i|] eqn:Hs.
  2:{ exfalso. exact (sendrq_slot_full to Hn Hs i0 Hi0 Hfree0). }
  destruct (sendrq_slot_free to i Hn Hs) as [Hi Hfree].
  destruct (sendrq_stores to rq b i Hi Hb Hb20 Hval Hs) as (b' & Hsend).
  eexists. split; [exact Hsend|]. split.
  - apply rqinqueue_live. exists i. split; [exact Hi|].
    rewrite slot_enqueue_eq by (rewrite ?Hl; lia).
    repeat split; first [assumption | reflexivity].
  - intros c' k Hq. apply rqinqueue_live in Hq as (j & Hj & Hlive).
    apply rqinqueue_live. exists j. split; [exact Hj|].
    apply live_enqueue_other; try lia; [|exact Hlive].
    intros ->. destruct Hlive as (Hu & _). apply in_use_free in Hfree. congruence.
Qed.

(** Into the table of the examples, with slot 0 taken. *)
Lemma sendrq_rqinqueue_witness :
  exists to',
    sendrq server2 (set_orig 9 (zeros 16) request7) = Some to' /\
    rqinqueue to' (Some 0%nat) 9 = true /\ rqinqueue to' (Some 0%nat) 7 = true.
Proof.
  destruct (sendrq_rqinqueue server2 (set_orig 9 (zeros 16) request7)
              (named_request RAD_Access_Request 7) 0%nat) as (to' & H1 & H2 & H3).
  - split; [vm_compute; split; discriminate | reflexivity].
  - reflexivity.
  - vm_compute. lia.
  - reflexivity.
  - reflexivity.
  - reflexivity.
  - exists 1. split; [unfold MAX_REQUESTS; lia | reflexivity].
  - exists to'. split; [exact H1|]. split; [exact H2|]. apply H3. reflexivity.
Defined.

(** X12.  After [removeclientrqs] for a client no server table holds a
    request that [rqinqueue] finds for that client, whatever the id; the
    requests of the other clients are found as before, and no slot is freed
    or taken. *)
Theorem removeclientrqs_forgets (c : nat) (w : world) (s : nat) (srv' : server) :
  servers (removeclientrqs c w) !! s = Some srv' ->
  exists srv,
    servers w !! s = Some srv /\
    (forall k, rqinqueue srv' (Some c) k = false) /\
    (forall c' k, c' <> c -> rqinqueue srv' (Some c') k = rqinqueue srv (Some c') k) /\
    forall i, 0 <= i < MAX_REQUESTS ->
      in_use (slot (requests srv') i) = in_use (slot (requests srv) i) /\
      tries (slot (requests srv') i) = tries (slot (requests srv) i).
Proof.
  unfold removeclientrqs. cbn [servers set_servers]. rewrite list_lookup_fmap.
  destruct (servers w !! s) as [srv|]; [|discriminate].
  cbn [fmap option_fmap option_map]. intros [= <-]. exists srv. split; [reflexivity|].
  assert (forall i, 0 <= i < MAX_REQUESTS ->
            slot (map (forget_client c) (take (Z.to_nat MAX_REQUESTS) (requests srv))
                  ++ drop (Z.to_nat MAX_REQUESTS) (requests srv)) i
            = forget_client c (slot (requests srv) i)) as Hslot
    by (intros i Hi; apply slot_forget; exact Hi).
  assert (forall c' k i, 0 <= i < MAX_REQUESTS ->
            live (forget_client c (slot (requests srv) i)) c' k <->
            c' <> c /\ live (slot (requests srv) i) c' k) as Hlive.
  { intros c' k i Hi. unfold forget_client, live.
    destruct (decide (from (slot (requests srv) i) = Some c)) as [E|N].
    - rewrite bool_decide_eq_true_2 by exact E. cbn [set_from in_use buf received from origid].
      split; [intros (_ & _ & H & _); discriminate H|].
      intros (Hne & _ & _ & H & _). congruence.
    - rewrite bool_decide_eq_false_2 by exact N. split.
      + intros (H1 & H2 & H3 & H4). split; [congruence|auto].
      + intros (_ & H). exact H. }
  split; [|split].
  - intros k. apply not_true_is_false. intros Hq.
    apply rqinqueue_live in Hq as (i & Hi & Hl). cbn [requests] in Hl.
    rewrite Hslot in Hl by exact Hi. apply Hlive in Hl as [Hne _]; [|exact Hi].
    apply Hne. reflexivity.
  - intros c' k Hne. apply eq_true_iff_eq. rewrite !rqinqueue_live. cbn [requests].
    split; intros (i & Hi & Hl); exists i; (split; [exact Hi|]).
    + rewrite Hslot in Hl by exact Hi. apply Hlive in Hl as [_ Hl]; assumption.
    + rewrite Hslot by exact Hi. apply Hlive; auto.
  - intros i Hi. cbn [requests]. rewrite Hslot by exact Hi. unfold forget_client.
    destruct (bool_decide _); split; reflexivity.
Qed.

(** The client of the examples goes away while its request waits in slot 0. *)
Lemma removeclientrqs_forgets_witness :
  rqinqueue server2 (Some 0%nat) 7 = true /\
  exists srv', servers (removeclientrqs 0 world2) !! 0%nat = Some srv' /\
               rqinqueue srv' (Some 0%nat) 7 = false /\
               in_use (slot (requests srv') 0) = true.
Proof.
  split; [reflexivity|].
  destruct (servers (removeclientrqs 0 world2) !! 0%nat) as [srv'|] eqn:E;
    [|vm_compute in E; discriminate E].
  destruct (removeclientrqs_forgets 0 world2 0 srv' E) as (srv & Hs & Hq & _ & Hi).
  exists srv'. split; [reflexivity|]. split; [apply Hq|].
  destruct (Hi 0 ltac:(unfold MAX_REQUESTS; lia)) as [-> _].
  vm_compute in Hs. injection Hs as <-. reflexivity.
Defined.

(** ** The counter of lost Status-Server probes *)

Lemma sendrq_flags (to to' : server) (rq : request) :
  sendrq to rq = Some to' ->
  loststatsrv to' = loststatsrv to /\ connectionok to' = connectionok to /\
  s_conf to' = s_conf to.
Proof.
  unfold sendrq. intros H.
  destruct (sendrq_slot to); [|injection H as <-; auto].
  destruct (buf rq); [|discriminate H]. cbv zeta in H.
  destruct (attrget _ _ _ _) as [[attr|]|]; [| |discriminate H].
  - destruct (createmessageauth _ _ _) as [[|] b']; injection H as <-; auto.
  - injection H as <-. auto.
Qed.

Lemma clientwr_slot_lost (now : Z) (srv : server) (i : Z) :
  loststatsrv (clientwr_slot now srv i) = loststatsrv srv \/
  (loststatsrv srv < 255 /\ loststatsrv (clientwr_slot now srv i) = loststatsrv srv + 1).
Proof.
  unfold clientwr_slot, clientradput. cbv zeta.
  destruct (received _); [left; reflexivity|].
  destruct (_ <? expiry _); [left; reflexivity|].
  destruct (tries _ =? _).
  - destruct (is_statsrv _); cbn [andb]; [|left; reflexivity].
    destruct (Z.ltb_spec (loststatsrv srv) 255); [right|left]; cbn; auto.
  - cbn [set_slot s_conf]. destruct (conf_type (s_conf srv)); left; reflexivity.
Qed.

Section EngineBounds.

Variable dorewrite : buffer -> rewrite_t -> buffer.
Variable rewriteusername :
  clsrvconf -> buffer -> buffer -> option (buffer * option buffer * buffer).

Lemma perform_lost (now : Z) (a : action) (w w' : world) (s : nat) (srv' : server) :
  perform dorewrite rewriteusername now a w = Some w' ->
  servers w' !! s = Some srv' ->
  exists srv, servers w !! s = Some srv /\
    (loststatsrv srv' = loststatsrv srv \/ loststatsrv srv' = 0 \/
     (loststatsrv srv < 255 /\ loststatsrv srv' = loststatsrv srv + 1)).
Proof.
  intros H Hs'.
  assert (forall t old new,
            servers w !! t = Some old -> servers w' = <[t := new]> (servers w) ->
            (loststatsrv new = loststatsrv old \/ loststatsrv new = 0 \/
             (loststatsrv old < 255 /\ loststatsrv new = loststatsrv old + 1)) ->
            exists srv, servers w !! s = Some srv /\
              (loststatsrv srv' = loststatsrv srv \/ loststatsrv srv' = 0 \/
               (loststatsrv srv < 255 /\ loststatsrv srv' = loststatsrv srv + 1))) as Hins.
  { intros t old new Ht Hw Hstep. rewrite Hw in Hs'.
    destruct (decide (t = s)) as [->|Hne].
    - rewrite list_lookup_insert_eq in Hs' by (eapply lookup_lt_Some, Ht).
      injection Hs' as <-. eauto.
    - rewrite list_lookup_insert_ne in Hs' by exact Hne. eauto. }
  assert (servers w' = servers w ->
          exists srv, servers w !! s = Some srv /\
            (loststatsrv srv' = loststatsrv srv \/ loststatsrv srv' = 0 \/
             (loststatsrv srv < 255 /\ loststatsrv srv' = loststatsrv srv + 1))) as Hsame.
  { intros E. rewrite E in Hs'. eauto. }
  destruct a as [sel d|env b c sa_|t|t|t i|t auth|t i fwd|c]; cbn [perform] in H.
  - destruct (radudpget_round w sel d) as [[r w0]|] eqn:E; injection H as <-.
    + apply Hsame. eapply radudpget_round_servers, E.
    + apply Hsame. reflexivity.
  - apply radsrv_effect in H
      as [E|(t & srv & new & rq' & Ht & _ & _ & _ & _ & _ & _ & Hsend & Hw)];
      [apply Hsame; exact E|].
    apply (Hins t srv new Ht Hw). left. apply (sendrq_flags _ _ _ Hsend).
  - apply on_server_inv in H as (srv & new & Ht & [= <-] & ->).
    apply (Hins t srv _ Ht eq_refl). left. reflexivity.
  - apply on_server_inv in H as (srv & new & Ht & [= <-] & ->).
    apply (Hins t srv _ Ht eq_refl). left. reflexivity.
  - apply on_server_inv in H as (srv & new & Ht & Hf & ->).
    destruct (_ && in_use _); [|discriminate Hf]. injection Hf as <-.
    apply (Hins t srv _ Ht eq_refl).
    destruct (clientwr_slot_lost now srv i) as [E|E]; auto.
  - apply on_server_inv in H as (srv & new & Ht & Hf & ->).
    destruct (statusserver _); [|discriminate Hf].
    apply (Hins t srv _ Ht eq_refl). left. apply (sendrq_flags _ _ _ Hf).
  - destruct (on_server w t _) as [w0|] eqn:E; cbn [mbind option_bind] in H;
      [|discriminate H].
    assert (servers w' = servers w0) as Hw0.
    { destruct fwd as [[q r]|]; [|injection H as <-; reflexivity].
      repeat bind_inv H. injection H as <-. reflexivity. }
    apply on_server_inv in E as (srv & new & Ht & Hf & ->).
    apply (Hins t srv new Ht Hw0). right; left.
    destruct i as [i|]; [|injection Hf as <-; reflexivity].
    destruct (_ && replyh_pending _ _); [|discriminate Hf]. injection Hf as <-. reflexivity.
  - injection H as <-. unfold removeclientrqs in Hs'. cbn [servers set_servers] in Hs'.
    rewrite list_lookup_fmap in Hs'.
    destruct (servers w !! s) as [srv|]; [|discriminate Hs'].
    injection Hs' as <-. exists srv. split; [reflexivity|]. left. reflexivity.
Qed.

(** X13.  In every reachable state every server has a table of 256
    slots, a [nextid] between 0 and 256 and a count of lost Status-Server
    probes between 0 and 255. *)
Theorem server_bounds_reachable (t : traced) :
  reachable dorewrite rewriteusername t ->
  Forall (fun srv => length (requests srv) = 256%nat /\
                     0 <= nextid srv <= MAX_REQUESTS /\
                     0 <= loststatsrv srv <= 255) (servers (tw t)).
Proof.
  intros Hreach.
  pose proof (engine_inv_reachable _ _ t Hreach) as (Hok & _).
  assert (Forall (fun srv => 0 <= loststatsrv srv <= 255) (servers (tw t))) as Hlost.
  { destruct Hreach as (t0 & Hinit & Hrtc).
    assert (engine_inv t0 /\
            Forall (fun srv => 0 <= loststatsrv srv <= 255) (servers (tw t0))) as H0.
    { split; [apply engine_inv_initial; exact Hinit|].
      eapply Forall_impl; [exact Hinit|]. intros srv (conf & ->). cbn. lia. }
    clear Hinit Hok. induction Hrtc as [t|t t1 t2 Hstep _ IH]; [exact (proj2 H0)|].
    apply IH. destruct H0 as [Hinv Hl]. split; [exact (engine_inv_step _ _ _ _ Hstep Hinv)|].
    destruct Hstep as (a & _ & Hperf & _).
    apply Forall_lookup_2. intros s srv' Hs'.
    destruct (perform_lost _ _ _ _ s srv' Hperf Hs') as (srv & Hs & Hcase).
    pose proof (Forall_lookup_1 _ _ _ _ Hl Hs) as Hb. cbv beta in Hb. lia. }
  apply Forall_lookup_2. intros s srv Hs.
  destruct (Forall_lookup_1 _ _ _ _ Hok Hs) as [Hn Hlen].
  pose proof (Forall_lookup_1 _ _ _ _ Hlost Hs) as Hb. cbv beta in Hb.
  split; [exact Hlen|]. split; assumption.
Qed.

End EngineBounds.

(** The table of the examples after the writer has sent the request. *)
Lemma server_bounds_reachable_witness :
  Forall (fun srv => length (requests srv) = 256%nat /\
                     0 <= nextid srv <= MAX_REQUESTS /\
                     0 <= loststatsrv srv <= 255) (servers (tw trace3)).
Proof.
  exact (server_bounds_reachable keep_packet keep_username trace3 trace3_reachable).
Defined.

(** ** What [radsrv] answers itself and what it ignores *)

(** A Message-Authenticator that verifies leaves [radsrv] with the packet
    as it was. *)
Lemma messageauth_passes (b : buffer) (len : Z) (sec : buffer) (ma : option nat) :
  attrvalidate b 20 len = Some true -> 20 + len <= Z.of_nat (length b) ->
  attrget b 20 len RAD_Attr_Message_Authenticator = Some ma ->
  (forall a, ma = Some a ->
     ATTRVALLEN b a = 16 /\ fst (checkmessageauth b (ATTRVAL a) sec) = true) ->
  match ma with
  | None => (true, b)
  | Some a =>
    if negb (ATTRVALLEN b a =? 16) then (false, b)
    else checkmessageauth b (ATTRVAL a) sec
  end = (true, b).
Proof.
  intros Hval Hfit Hget Hma. destruct ma as [a|]; [|reflexivity].
  destruct (Hma a eq_refl) as [H16 Hok]. rewrite H16.
  change (negb (16 =? 16)) with false. cbv iota.
  destruct (attrget_after_validate b len RAD_Attr_Message_Authenticator Hval)
    as (r & Hr & Hin).
  rewrite Hget in Hr. injection Hr as <-.
  destruct (Hin a eq_refl) as (Ha & _ & _ & Hend).
  pose proof (checkmessageauth_buffer b (ATTRVAL a) sec) as Hsame.
  rewrite memcpy_restore in Hsame
    by (unfold ATTRVALLEN, ATTRVAL in *; first [lia | reflexivity]).
  destruct (checkmessageauth b (ATTRVAL a) sec) as [ok b'].
  cbn [fst snd] in *. congruence.
Qed.

Section EngineAnswers.

Variable dorewrite : buffer -> rewrite_t -> buffer.
Variable rewriteusername :
  clsrvconf -> buffer -> buffer -> option (buffer * option buffer * buffer).

(** X14.  [radsrv] ignores a packet whose code is none of
    Access-Request, Accounting-Request and Status-Server, a packet whose
    attribute list [attrvalidate] refuses, and a packet whose
    Message-Authenticator has not 16 octets or does not verify under the
    secret of the client: the state is left as it was, and nothing is
    queued for the client. *)
Theorem radsrv_ignores (env : radsrv_env) (w : world) (rq : request)
    (b : buffer) (c : nat) (cl : client) :
  buf rq = Some b -> from rq = Some c -> clients w !! c = Some cl ->
  let code := nth 0 b 0 in
  let len := (RADLEN b - 20) mod 65536 in
  (code <> RAD_Access_Request /\ code <> RAD_Status_Server /\
   code <> RAD_Accounting_Request) \/
  attrvalidate b 20 len = Some false \/
  (attrvalidate b 20 len = Some true /\
   exists a, attrget b 20 len RAD_Attr_Message_Authenticator = Some (Some a) /\
     (ATTRVALLEN b a <> 16 \/
      fst (checkmessageauth b (ATTRVAL a) (secret (c_conf cl))) = false)) ->
  radsrv dorewrite rewriteusername env w rq = Some w.
Proof.
  intros Hb Hc Hcl. cbv zeta. intros Hcase.
  unfold radsrv, radsrv_route.
  rewrite Hb, Hc. cbn [mbind option_bind]. rewrite Hcl. cbn [mbind option_bind].
  destruct Hcase as [(H1 & H2 & H3)|[Hbad|(Hval & a & Hget & Hauth)]].
  - apply Z.eqb_neq in H1, H2, H3. rewrite H1, H2, H3. reflexivity.
  - destruct (negb _); [reflexivity|]. rewrite Hbad. reflexivity.
  - destruct (negb _); [reflexivity|]. rewrite Hval. cbn [mbind option_bind negb].
    rewrite Hget. cbn [mbind option_bind].
    destruct Hauth as [Hlen|Hfail].
    + apply Z.eqb_neq in Hlen. rewrite Hlen. reflexivity.
    + destruct (negb (ATTRVALLEN b a =? 16)); [reflexivity|].
      destruct (checkmessageauth b (ATTRVAL a) (secret (c_conf cl))) as [ok b'].
      cbn [fst] in Hfail. subst ok. reflexivity.
Qed.

(** X15.  A Status-Server request whose attribute list is valid and
    whose Message-Authenticator, when it has one, verifies is answered by
    the proxy with an Access-Accept of 20 octets that carries the id
    of the request; every server is left as it was. *)
Theorem radsrv_statusserver (env : radsrv_env) (w : world) (rq : request)
    (b : buffer) (c : nat) (cl : client) (q : list reply) :
  buf rq = Some b -> from rq = Some c ->
  clients w !! c = Some cl -> replyqs w !! replyq cl = Some q ->
  nth 0 b 0 = RAD_Status_Server ->
  20 <= RADLEN b <= 65535 -> RADLEN b <= Z.of_nat (length b) ->
  attrvalidate b 20 (RADLEN b - 20) = Some true ->
  (forall a, attrget b 20 (RADLEN b - 20) RAD_Attr_Message_Authenticator = Some (Some a) ->
     ATTRVALLEN b a = 16 /\
     fst (checkmessageauth b (ATTRVAL a) (secret (c_conf cl))) = true) ->
  exists resp w',
    radsrv dorewrite rewriteusername env w rq = Some w' /\
    servers w' = servers w /\
    replyqs w' = <[replyq cl := q ++ [ {| reply_buf := resp; tosa := reply_address w rq |} ]]>
                   (replyqs w) /\
    length resp = 20%nat /\ nth 0 resp 0 = RAD_Access_Accept /\
    nth 1 resp 0 = nth 1 b 0 /\ RADLEN resp = 20.
Proof.
  intros Hb Hc Hcl Hq Hcode Hlen Hfit Hval Hma.
  assert ((RADLEN b - 20) mod 65536 = RADLEN b - 20) as Hmod by (apply Z.mod_small; lia).
  assert (20 <= length b)%nat as Hb20 by lia.
  destruct (attrget_after_validate b _ RAD_Attr_Message_Authenticator Hval) as (ma & Hget & _).
  pose proof (messageauth_passes b _ (secret (c_conf cl)) ma Hval ltac:(lia) Hget) as Hauth.
  unfold radsrv, radsrv_route.
  rewrite Hb, Hc. cbn [mbind option_bind]. rewrite Hcl. cbn [mbind option_bind].
  rewrite Hcode, Hmod. cbn [Z.eqb orb negb RAD_Accounting_Request RAD_Access_Request
    RAD_Status_Server Pos.eqb].
  rewrite Hval. cbn [mbind option_bind negb]. rewrite Hget. cbn [mbind option_bind].
  rewrite Hauth by (intros a ->; apply Hma; exact Hget). cbn [negb].
  unfold respondstatusserver. cbn [buf from set_buf mbind option_bind].
  rewrite Hc. cbn [mbind option_bind].
  unfold sendreply. rewrite Hcl. cbn [mbind option_bind]. rewrite Hq. cbn [mbind option_bind].
  destruct (short_response_shape RAD_Access_Accept b Hb20) as (Hl & H0 & H1 & Hr).
  pose proof (radsign_shape (short_response RAD_Access_Accept b) (secret (c_conf cl)) Hl)
    as Hsign.
  destruct (radsign _ _) as [ok resp]. destruct Hsign as (-> & Hl' & H0' & H1' & Hr' & _).
  cbn [negb fmap option_fmap option_map].
  eexists resp, _. split; [reflexivity|].
  split; [reflexivity|]. split.
  - cbn [replyqs set_replyqs]. unfold reply_address. cbn [from set_buf fromsa]. reflexivity.
  - repeat split; congruence.
Qed.

End EngineAnswers.

Section EngineUnroutable.

Variable dorewrite : buffer -> rewrite_t -> buffer.
Variable rewriteusername :
  clsrvconf -> buffer -> buffer -> option (buffer * option buffer * buffer).

(** X16.  An Access-Request of a client without rewriting, with a valid
    attribute list and a Message-Authenticator that verifies when it has one:
    without User-Name attribute, or with a user name that no realm matches,
    it is dropped; when the realm of the user name has no server, it is
    dropped if the realm has no message, and otherwise answered with an
    Access-Reject that carries the id of the request and the message
    of the realm as its Reply-Message.  No server is touched. *)
Theorem radsrv_unroutable (env : radsrv_env) (w : world) (rq : request)
    (b : buffer) (c : nat) (cl : client) (q : list reply) :
  buf rq = Some b -> from rq = Some c ->
  clients w !! c = Some cl -> replyqs w !! replyq cl = Some q ->
  conf_rewrite (c_conf cl) = None -> rewriteattrregex (c_conf cl) = None ->
  nth 0 b 0 = RAD_Access_Request ->
  20 <= RADLEN b <= 65535 -> RADLEN b <= Z.of_nat (length b) ->
  attrvalidate b 20 (RADLEN b - 20) = Some true ->
  (forall a, attrget b 20 (RADLEN b - 20) RAD_Attr_Message_Authenticator = Some (Some a) ->
     ATTRVALLEN b a = 16 /\
     fst (checkmessageauth b (ATTRVAL a) (secret (c_conf cl))) = true) ->
  let run := radsrv dorewrite rewriteusername env w rq in
  (attrget b 20 (RADLEN b - 20) RAD_Attr_User_Name = Some None -> run = Some w) /\
  (forall a, attrget b 20 (RADLEN b - 20) RAD_Attr_User_Name = Some (Some a) ->
     let realm := id2realm (realms w)
                    (c_string (c_string (peek b (ATTRVAL a) (Z.to_nat (ATTRVALLEN b a))))) in
     (realm = None -> run = Some w) /\
     (forall r, realm = Some r -> realm2server (servers w) r = None ->
        match message r with
        | None => run = Some w
        | Some m =>
          m <> [] -> (length m <= 253)%nat ->
          exists resp w',
            run = Some w' /\ servers w' = servers w /\
            replyqs w' = <[replyq cl := q ++ [ {| reply_buf := resp;
                                                  tosa := reply_address w rq |} ]]>
                           (replyqs w) /\
            nth 0 resp 0 = RAD_Access_Reject /\ nth 1 resp 0 = nth 1 b 0 /\
            RADLEN resp = 22 + Z.of_nat (length m) /\
            drop 20 resp = [RAD_Attr_Reply_Message; 2 + Z.of_nat (length m)] ++ m
        end)).
Proof.
  intros Hb Hc Hcl Hq Hrw Hre Hcode Hlen Hfit Hval Hma. cbv zeta.
  assert ((RADLEN b - 20) mod 65536 = RADLEN b - 20) as Hmod by (apply Z.mod_small; lia).
  assert (20 <= length b)%nat as Hb20 by lia.
  destruct (attrget_after_validate b _ RAD_Attr_Message_Authenticator Hval) as (ma & Hget & _).
  pose proof (messageauth_passes b _ (secret (c_conf cl)) ma Hval ltac:(lia) Hget
                ltac:(intros a ->; apply Hma; exact Hget)) as Hauth.
  unfold radsrv, radsrv_route.
  rewrite Hb, Hc. cbn [mbind option_bind]. rewrite Hcl. cbn [mbind option_bind].
  rewrite Hcode, Hmod. cbn [Z.eqb orb negb RAD_Accounting_Request RAD_Access_Request
    RAD_Status_Server Pos.eqb].
  rewrite Hval. cbn [mbind option_bind negb]. rewrite Hget. cbn [mbind option_bind].
  rewrite Hauth. cbn [negb]. rewrite Hrw, Hre.
  split.
  - intros ->. reflexivity.
  - intros a ->. cbn [mbind option_bind]. split.
    + intros ->. reflexivity.
    + intros r -> Hto. cbn [mbind option_bind]. rewrite Hto.
      unfold radsrv_forward. cbn [from mbind option_bind].
      rewrite Hcl. cbn [mbind option_bind].
      destruct (message r) as [m|]; [|reflexivity].
      intros Hm Hml. unfold respondreject. cbn [buf from mbind option_bind].
      rewrite (bool_decide_eq_false_2 (m = []) Hm).
      unfold sendreply. rewrite Hcl. cbn [mbind option_bind]. rewrite Hq.
      cbn [mbind option_bind].
      set (len := 20 + 2 + Z.of_nat (length m)).
      set (resp0 := ([RAD_Access_Reject; nth 1 b 0; len / 256 mod 256; len mod 256]
                     ++ peek b 4 16) ++ [RAD_Attr_Reply_Message; (len - 20) mod 256] ++ m).
      assert (length (peek b 4 16) = 16%nat) as Hpk by (apply length_peek; lia).
      assert (RADLEN resp0 = len) as Hrl.
      { unfold RADLEN, resp0. cbn [app nth].
        pose proof (Z.div_mod len 256 ltac:(lia)).
        rewrite (Z.mod_small (len / 256)); [lia|].
        split; [apply Z.div_pos; lia | apply Z.div_lt_upper_bound; lia]. }
      assert (length resp0 = (22 + length m)%nat) as Hl0.
      { unfold resp0. rewrite !length_app, Hpk. cbn [length]. lia. }
      unfold radsign. cbv zeta. rewrite md5_length.
      change ((16 =? 16)%nat) with true. cbn [negb].
      set (hash := Digest.md5 _).
      assert (length hash = 16%nat) as Hh by apply md5_length.
      eexists _, _. split; [reflexivity|]. split; [reflexivity|]. split.
      * cbn [replyqs set_replyqs]. unfold reply_address. cbn [from fromsa].
        rewrite Hc. reflexivity.
      * repeat split.
        -- unfold RADLEN in *. rewrite !nth_memcpy_below by lia. rewrite Hrl. unfold len. lia.
        -- rewrite drop_memcpy by lia. unfold resp0.
           rewrite drop_app_length' by (rewrite length_app, Hpk; reflexivity).
           replace ((len - 20) mod 256) with (2 + Z.of_nat (length m)); [reflexivity|].
           subst len. rewrite Z.mod_small; lia.
Qed.

End EngineUnroutable.

(** An Accounting-Response is no request: the proxy of the examples
    ignores it. *)
Lemma radsrv_ignores_witness :
  radsrv keep_packet keep_username env0 world1
    (reader_request (named_request RAD_Accounting_Response 3) 0 None) = Some world1.
Proof.
  apply (radsrv_ignores keep_packet keep_username env0 world1
           (reader_request (named_request RAD_Accounting_Response 3) 0 None)
           (named_request RAD_Accounting_Response 3) 0%nat client0);
    [reflexivity | reflexivity | reflexivity |].
  left. vm_compute. repeat split; discriminate.
Defined.

(** A Status-Server request with id 5 is answered. *)
Lemma radsrv_statusserver_witness :
  exists resp w',
    radsrv keep_packet keep_username env0 world1
      (reader_request (named_request RAD_Status_Server 5) 0 None) = Some w' /\
    servers w' = servers world1 /\
    replyqs w' = [[ {| reply_buf := resp; tosa := None |} ]] /\
    nth 0 resp 0 = RAD_Access_Accept /\ nth 1 resp 0 = 5.
Proof.
  destruct (radsrv_statusserver keep_packet keep_username env0 world1
              (reader_request (named_request RAD_Status_Server 5) 0 None)
              (named_request RAD_Status_Server 5) 0%nat client0 [])
    as (resp & w' & H1 & H2 & H3 & _ & H4 & H5 & _).
  - reflexivity.
  - reflexivity.
  - reflexivity.
  - reflexivity.
  - reflexivity.
  - vm_compute. split; discriminate.
  - vm_compute. discriminate.
  - vm_compute. reflexivity.
  - intros a Ha. vm_compute in Ha. discriminate Ha.
  - exists resp, w'. split; [exact H1|]. split; [exact H2|]. split; [exact H3|].
    split; [exact H4|exact H5].
Defined.

(** The request of the examples where the only realm has no server: the
    client gets the message of the realm. *)
Lemma radsrv_unroutable_witness :
  exists resp w',
    radsrv keep_packet keep_username env0 world_closed request7 = Some w' /\
    replyqs w' = [[ {| reply_buf := resp; tosa := None |} ]] /\
    nth 0 resp 0 = RAD_Access_Reject /\ nth 1 resp 0 = 7 /\
    drop 20 resp = [RAD_Attr_Reply_Message; 10] ++ ascii_bytes "no route".
Proof.
  destruct (radsrv_unroutable keep_packet keep_username env0 world_closed request7
              (named_request RAD_Access_Request 7) 0%nat client0 []) as [_ H].
  - reflexivity.
  - reflexivity.
  - reflexivity.
  - reflexivity.
  - reflexivity.
  - reflexivity.
  - reflexivity.
  - vm_compute. split; discriminate.
  - vm_compute. discriminate.
  - vm_compute. reflexivity.
  - intros a Ha. vm_compute in Ha. discriminate Ha.
  - destruct (H 20%nat eq_refl) as [_ Hr].
    destruct (Hr realm_closed eq_refl eq_refl ltac:(discriminate) ltac:(vm_compute; lia))
      as (resp & w' & H1 & _ & H3 & H4 & H5 & _ & H7).
    exists resp, w'. split; [exact H1|]. split; [exact H3|]. split; [exact H4|].
    split; [exact H5|exact H7].
Defined.

(** ** A reply and the slot of its request *)

(** X17.  Once [replyh] has accepted the reply to the request in a slot,
    a second reply with that id is not accepted, [rqinqueue] does not find
    the request any more, so that its client may use the id again, and the
    next pass of [clientwr] over the slot frees it, whatever the time. *)
Theorem reply_releases_slot (srv : server) (i : Z) (c : nat) (now : Z) :
  table_ok srv -> 0 <= i < MAX_REQUESTS -> no_duplicates srv ->
  replyh_pending srv i = true -> from (slot (requests srv) i) = Some c ->
  let srv' := replyh_accept srv i in
  replyh_pending srv' i = false /\
  rqinqueue srv' (Some c) (origid (slot (requests srv) i)) = false /\
  in_use (slot (requests (clientwr_slot now srv' i)) i) = false /\
  forall j, 0 <= j < MAX_REQUESTS -> j <> i ->
    slot (requests (clientwr_slot now srv' i)) j = slot (requests srv) j.
Proof.
  intros [Hn Hl] Hi Hnd Hp Hf. cbv zeta.
  unfold replyh_pending in Hp. cbv zeta in Hp.
  apply andb_prop in Hp as [Hp Hr]. apply andb_prop in Hp as [Hu Ht].
  apply negb_true_iff in Hr.
  assert (slot (requests (replyh_accept srv i)) i = set_received true (slot (requests srv) i))
    as Hslot.
  { unfold replyh_accept, replyh_touch. cbn [set_slot set_flags requests].
    apply slot_insert_eq; [lia|]. rewrite Hl. lia. }
  assert (forall j, 0 <= j -> j <> i ->
            slot (requests (replyh_accept srv i)) j = slot (requests srv) j) as Hother.
  { intros j Hj Hne. unfold replyh_accept, replyh_touch. cbn [set_slot set_flags requests].
    apply slot_insert_ne; lia. }
  split; [|split; [|split]].
  - unfold replyh_pending. cbv zeta. rewrite Hslot. cbn [set_received received negb].
    apply andb_false_r.
  - apply not_true_is_false. intros Hq.
    apply rqinqueue_live in Hq as (j & Hj & Hlive).
    destruct (Z.eq_dec j i) as [->|Hne].
    + rewrite Hslot in Hlive. destruct Hlive as (_ & Hrec & _). discriminate Hrec.
    + rewrite Hother in Hlive by lia.
      apply Hne. apply (Hnd j i c (origid (slot (requests srv) i)) Hj Hi Hlive).
      repeat split; assumption.
  - unfold clientwr_slot. cbv zeta. rewrite Hslot. cbn [set_received received].
    cbn [set_slot requests].
    rewrite slot_insert_eq; [reflexivity | lia |].
    unfold replyh_accept, replyh_touch. cbn [set_slot set_flags requests].
    rewrite length_insert, Hl. lia.
  - intros j Hj Hne. rewrite slot_clientwr_ne by lia. apply Hother; lia.
Qed.

(** The reply to the request of the examples, after the writer has sent
    it. *)
Lemma reply_releases_slot_witness :
  replyh_pending server3 0 = true /\
  replyh_pending (replyh_accept server3 0) 0 = false /\
  rqinqueue (replyh_accept server3 0) (Some 0%nat) 7 = false /\
  in_use (slot (requests (clientwr_slot 5 (replyh_accept server3 0) 0)) 0) = false.
Proof.
  split; [reflexivity|].
  destruct (reply_releases_slot server3 0 0%nat 5) as (H1 & H2 & H3 & _).
  - split; [vm_compute; split; discriminate | reflexivity].
  - unfold MAX_REQUESTS. lia.
  - exact (Forall_lookup_1 _ _ 0%nat server3
             (proj1 (proj2 (engine_inv_reachable keep_packet keep_username trace3
                              trace3_reachable))) eq_refl).
  - reflexivity.
  - reflexivity.
  - split; [exact H1|]. split; [exact H2|exact H3].
Defined.

(** ** What the engine leaves alone *)

Lemma sendreply_frame (w w' : world) (to : nat) (b : buffer) (tosa_ : option sockaddr) :
  sendreply w to b tosa_ = Some w' ->
  realms w' = realms w /\ clients w' = clients w /\ clconfs w' = clconfs w.
Proof.
  unfold sendreply. intros H. repeat bind_inv H; injection H as <-; auto.
Qed.

Section EngineFrame.

Variable dorewrite : buffer -> rewrite_t -> buffer.
Variable rewriteusername :
  clsrvconf -> buffer -> buffer -> option (buffer * option buffer * buffer).

Lemma radsrv_frame (env : radsrv_env) (w w' : world) (rq : request) :
  radsrv dorewrite rewriteusername env w rq = Some w' ->
  realms w' = realms w /\ clients w' = clients w /\ clconfs w' = clconfs w.
Proof.
  unfold radsrv. intros H.
  destruct (radsrv_route _ _ w rq) as [[w0|rq' b' id len r to]|] eqn:Hroute;
    cbn [mbind option_bind] in H; [| |discriminate H].
  - injection H as ->. revert Hroute.
    unfold radsrv_route, respondaccounting, respondstatusserver. intros H.
    repeat bind_inv H; try discriminate H; injection H as H; subst; auto;
      match goal with
      | E : _ = Some w' |- _ =>
          cbn [buf from set_buf] in E; cbn [mbind option_bind] in E;
          repeat bind_inv E; eapply sendreply_frame; eassumption
      end.
  - clear Hroute. revert H. unfold radsrv_forward, respondreject. intros H.
    repeat bind_inv H; try discriminate H;
      try (injection H as <-; auto);
      try (eapply sendreply_frame; eassumption).
Qed.

Lemma perform_realms (now : Z) (a : action) (w w' : world) :
  perform dorewrite rewriteusername now a w = Some w' -> realms w' = realms w.
Proof.
  intros H. destruct a as [sel d|env b c sa_|s|s|s i|s auth|s i fwd|c]; cbn [perform] in H.
  - destruct (radudpget_round w sel d) as [[r w0]|] eqn:E; injection H as <-;
      [|reflexivity].
    revert E. unfold radudpget_round, radudpget_peer, addclient, newreplyq. intros H.
    destruct d as [d|]; [|discriminate H]. cbv zeta in H.
    repeat bind_inv H; try discriminate H; injection H as _ <-;
      repeat match goal with
      | E : _ = Some _ |- _ => progress (repeat bind_inv E)
      | E : Some _ = Some _ |- _ => injection E as E
      | E : (_, _) = (_, _) |- _ => injection E as E
      end; subst; try reflexivity.
    destruct (conf_type _); injection E12 as _ <-; reflexivity.
  - apply radsrv_frame in H. apply H.
  - apply on_server_inv in H as (srv & srv' & _ & _ & ->). reflexivity.
  - apply on_server_inv in H as (srv & srv' & _ & _ & ->). reflexivity.
  - apply on_server_inv in H as (srv & srv' & _ & _ & ->). reflexivity.
  - apply on_server_inv in H as (srv & srv' & _ & _ & ->). reflexivity.
  - destruct (on_server w s _) as [w0|] eqn:E; cbn [mbind option_bind] in H;
      [|discriminate H].
    apply on_server_inv in E as (srv & srv' & _ & _ & ->).
    destruct fwd as [[q r]|]; [|injection H as <-; reflexivity].
    repeat bind_inv H. injection H as <-. reflexivity.
  - injection H as <-. reflexivity.
Qed.

Lemma servers_effect_conf (now : Z) (tab tab' : list server) :
  servers_effect now tab tab' -> s_conf <$> tab' = s_conf <$> tab.
Proof.
  intros Heff. apply list_eq. intros s. rewrite !list_lookup_fmap. specialize (Heff s).
  destruct (tab !! s) as [srv|].
  - destruct Heff as (srv' & -> & [->|He]); [reflexivity|].
    cbn. f_equal. eapply conf_effect, He.
  - rewrite Heff. reflexivity.
Qed.

(** X18.  The engine never changes what the configuration has set up:
    in every state it reaches the realms are those of the start, and there
    are as many servers, each with the configuration block it started
    with. *)
Theorem configuration_fixed (t0 t : traced) :
  initial t0 -> rtc (step dorewrite rewriteusername) t0 t ->
  realms (tw t) = realms (tw t0) /\
  s_conf <$> servers (tw t) = s_conf <$> servers (tw t0).
Proof.
  intros Hinit Hrtc. apply engine_inv_initial in Hinit.
  induction Hrtc as [t|t t1 t2 Hstep _ IH]; [split; reflexivity|].
  pose proof (engine_inv_step _ _ _ _ Hstep Hinit) as Hinv1.
  destruct (IH Hinv1) as [Hr Hs]. destruct Hstep as (a & _ & Hperf & _).
  rewrite Hr, Hs. split.
  - eapply perform_realms, Hperf.
  - eapply servers_effect_conf, perform_effect; [apply Hinit | exact Hperf].
Qed.

End EngineFrame.

(** From the small proxy at rest to the state after the writer has sent
    the request. *)
Lemma configuration_fixed_witness :
  realms world3 = realms world1 /\ s_conf <$> servers world3 = s_conf <$> servers world1.
Proof.
  apply (configuration_fixed keep_packet keep_username trace1 trace3).
  - unfold initial. cbn. constructor; [|constructor]. exists conf0. reflexivity.
  - apply (rtc_l _ trace1 trace2 trace3).
    + exists (act_radsrv env0 (named_request RAD_Access_Request 7) 0 None).
      split; [cbn; lia|]. split; [exact radsrv_stores_request7|].
      intros s i. reflexivity.
    + apply rtc_once. exists (act_writer_slot 0 0).
      split; [cbn; lia|]. split; [exact clientwr_sends_request7|]. intros s i. reflexivity.
Defined.

(** ** Certificates for a host name ([subjectaltnameregexp], [cnregexp]) *)

Lemma subjectaltnameregexp_loop_exact (alt : list GENERAL_NAME) (type : Z) (s : buffer)
    (r : Z) :
  (r = 0 \/ r = -1) ->
  let names := filter (fun gn => gn_type gn = type) alt in
  let hit := fun gn : GENERAL_NAME =>
    gn_data gn <> [] /\ gn_data gn = take (length (gn_data gn)) (s ++ [0]) in
  let res := subjectaltnameregexp_loop alt type (exact s) r in
  (res = 1 <-> exists gn, gn ∈ names /\ hit gn) /\
  (res = 0 <-> r = 0 /\ names = []) /\
  (res = 0 \/ res = -1 \/ res = 1).
Proof.
  revert r. induction alt as [|gn rest IH]; intros r Hr; cbv zeta;
    cbn [subjectaltnameregexp_loop].
  - split; [|split].
    + split; [lia|]. intros (gn & Hin & _). apply elem_of_nil in Hin. contradiction.
    + split; [intros ->; auto | intros [-> _]; reflexivity].
    + lia.
  - destruct (Z.eqb_spec (gn_type gn) type) as [Ht|Ht]; cbn [negb].
    + rewrite filter_cons_True by exact Ht.
      destruct (Nat.eqb_spec (length (gn_data gn)) 0) as [Hl|Hl].
      * destruct (IH (-1) (or_intror eq_refl)) as (H1 & H2 & H3). cbv zeta in *.
        split; [|split; [|exact H3]].
        -- rewrite H1. split.
           ++ intros (g & Hg & Hh). exists g. split; [apply list_elem_of_further, Hg|exact Hh].
           ++ intros (g & Hg & Hh). apply elem_of_cons in Hg as [->|Hg].
              ** destruct Hh as [Hne _]. destruct (gn_data gn); [contradiction | discriminate Hl].
              ** exists g. auto.
        -- rewrite H2. split; [intros [? _]; lia | intros [_ ?]; discriminate].
      * destruct (bool_decide _) eqn:Hhit.
        -- apply bool_decide_eq_true in Hhit. split; [|split; [|lia]].
           ++ split; [|reflexivity]. intros _. exists gn.
              split; [apply list_elem_of_here|]. split; [|exact Hhit].
              intros E. rewrite E in Hl. apply Hl. reflexivity.
           ++ split; [lia | intros [_ ?]; discriminate].
        -- apply bool_decide_eq_false in Hhit.
           destruct (IH (-1) (or_intror eq_refl)) as (H1 & H2 & H3). cbv zeta in *.
           split; [|split; [|exact H3]].
           ++ rewrite H1. split.
              ** intros (g & Hg & Hh). exists g.
                 split; [apply list_elem_of_further, Hg|exact Hh].
              ** intros (g & Hg & Hh). apply elem_of_cons in Hg as [->|Hg].
                 --- destruct Hh as [_ Hh]. contradiction.
                 --- exists g. auto.
           ++ rewrite H2. split; [intros [? _]; lia | intros [_ ?]; discriminate].
    + rewrite filter_cons_False by exact Ht. apply IH. exact Hr.
Qed.

Lemma cnregexp_exact_iff (cert : X509) (h : buffer) :
  cnregexp cert (exact h) <> 0 <->
  exists cn, cn ∈ subject_cn cert /\ length cn = length h /\
             map tolower h = map tolower cn.
Proof.
  split; [apply cnregexp_exact|].
  intros (cn & Hin & Hl & He). unfold cnregexp.
  assert (existsb (cn_matches (exact h)) (subject_cn cert) = true) as ->; [|discriminate].
  apply existsb_exists. exists cn. split; [apply list_elem_of_In, Hin|].
  cbn [cn_matches]. apply andb_true_intro.
  split; [apply Nat.eqb_eq, Hl | apply bool_decide_eq_true, He].
Qed.

(** X19.  For a peer configured by host name, without certificate
    expressions, [verifyconfcert] accepts a certificate exactly when one of
    its dNSName entries, taken with its own length, is a non-empty prefix of
    the host name followed by NUL, or when it has no dNSName entry and a
    commonName equal to the host name, letter case aside.  The comparison is
    [memcmp] over the length of the entry: an entry that is a proper prefix
    of the host name is accepted. *)
Theorem verifyconfcert_host_name (addr_slot : buffer) (cert : X509) (conf : clsrvconf) :
  prefixlen conf = 255 ->
  inet_pton4 (host conf) = None -> inet_pton6 (host conf) = None ->
  certcnregex conf = None -> certuriregex conf = None ->
  (forall gn, gn ∈ san_names cert GEN_DNS ->
     (length (gn_data gn) <= S (length (host conf)))%nat) ->
  (verifyconfcert addr_slot cert conf = true <->
   (exists gn, gn ∈ san_names cert GEN_DNS /\ gn_data gn <> [] /\
               gn_data gn = take (length (gn_data gn)) (host conf ++ [0])) \/
   (san_names cert GEN_DNS = [] /\
    exists cn, cn ∈ subject_cn cert /\ length cn = length (host conf) /\
               map tolower (host conf) = map tolower cn)).
Proof.
  intros Hp H4 H6 Hcn Huri _. unfold verifyconfcert. rewrite Hp, Hcn, Huri.
  change (255 =? 255) with true. cbv iota zeta.
  assert (host_family (host conf) = 0) as ->.
  { unfold host_family. rewrite !bool_decide_eq_false_2; [reflexivity| |]; congruence. }
  change (negb (0 =? 0)) with false. cbv iota.
  unfold subjectaltnameregexp, san_names.
  pose proof (cnregexp_exact_iff cert (host conf)) as Hcnx.
  destruct (subject_alt_name cert) as [alt|].
  - destruct (subjectaltnameregexp_loop_exact alt GEN_DNS (host conf) 0 (or_introl eq_refl))
      as (H1 & H0 & Hres). cbv zeta in *.
    set (res := subjectaltnameregexp_loop alt GEN_DNS (exact (host conf)) 0) in *.
    destruct (Z.eqb_spec res 0) as [E0|N0]; cbn [negb].
    + destruct (proj1 H0 E0) as [_ Hnone].
      destruct (Z.eqb_spec (cnregexp cert (exact (host conf))) 0) as [Ec|Nc]; cbn [negb].
      * split; [discriminate|]. intros [(gn & Hin & _)|[_ Hex]].
        -- rewrite Hnone in Hin. apply elem_of_nil in Hin. contradiction.
        -- apply Hcnx in Hex. contradiction.
      * split; [|reflexivity]. intros _. right. split; [exact Hnone|]. apply Hcnx, Nc.
    + destruct (Z.ltb_spec res 0) as [Hneg|Hpos]; cbn [negb].
      * split; [discriminate|]. intros [Hex|[Hnone _]].
        -- apply H1 in Hex. lia.
        -- assert (res = 0) by (apply H0; auto). contradiction.
      * split; [|reflexivity]. intros _. left. apply H1. lia.
  - change (negb (0 =? 0)) with false. cbv iota.
    destruct (Z.eqb_spec (cnregexp cert (exact (host conf))) 0) as [Ec|Nc]; cbn [negb].
    + split; [discriminate|]. intros [(gn & Hin & _)|[_ Hex]].
      * apply elem_of_nil in Hin. contradiction.
      * apply Hcnx in Hex. contradiction.
    + split; [|reflexivity]. intros _. right. split; [reflexivity|]. apply Hcnx, Nc.
Qed.

(** A certificate whose dNSName is [radius] is accepted for the host
    [radius.example.org]. *)
Lemma verifyconfcert_host_name_witness :
  verifyconfcert (zeros 16) cert_short_name conf_named = true.
Proof.
  apply (verifyconfcert_host_name (zeros 16) cert_short_name conf_named).
  - reflexivity.
  - reflexivity.
  - reflexivity.
  - reflexivity.
  - reflexivity.
  - intros gn Hgn. change (san_names cert_short_name GEN_DNS)
      with [ {| gn_type := GEN_DNS; gn_data := ascii_bytes "radius" |} ] in Hgn.
    apply elem_of_cons in Hgn as [->|Hgn]; [vm_compute; lia|].
    apply elem_of_nil in Hgn. contradiction.
  - left. exists {| gn_type := GEN_DNS; gn_data := ascii_bytes "radius" |}.
    split; [apply list_elem_of_here|]. split; [discriminate | reflexivity].
Defined.

(** ** Removing attributes ([dorewrite]) *)

Lemma attrvalidate_loop_more (fuel : nat) (b : buffer) (attrs : nat) (len : Z) (r : bool) :
  attrvalidate_loop fuel b attrs len = Some r ->
  attrvalidate_loop (S fuel) b attrs len = Some r.
Proof.
  revert attrs len. induction fuel as [|fuel IH]; intros attrs len H; [discriminate H|].
  remember (S fuel) as n. cbn [attrvalidate_loop]. subst n. cbn [attrvalidate_loop] in H.
  destruct (1 <? len); [|exact H].
  destruct (ATTRLEN b attrs <? 2); [exact H|]. cbv zeta in *.
  destruct (len - ATTRLEN b attrs <? 0); [exact H|]. apply IH, H.
Qed.

Lemma attrvalidate_loop_fuel (fuel fuel' : nat) (b : buffer) (attrs : nat) (len : Z)
    (r : bool) :
  (fuel <= fuel')%nat -> attrvalidate_loop fuel b attrs len = Some r ->
  attrvalidate_loop fuel' b attrs len = Some r.
Proof.
  intros Hle H. induction Hle as [|m _ IH]; [exact H|]. apply attrvalidate_loop_more, IH.
Qed.

Lemma attrget_loop_more (fuel : nat) (b : buffer) (attrs : nat) (len type : Z)
    (r : option nat) :
  attrget_loop fuel b attrs len type = Some r ->
  attrget_loop (S fuel) b attrs len type = Some r.
Proof.
  revert attrs len. induction fuel as [|fuel IH]; intros attrs len H; [discriminate H|].
  remember (S fuel) as n. cbn [attrget_loop]. subst n. cbn [attrget_loop] in H.
  destruct (1 <? len); [|exact H].
  destruct (ATTRTYPE b attrs =? type); [exact H|]. apply IH, H.
Qed.

Lemma attrget_loop_fuel (fuel fuel' : nat) (b : buffer) (attrs : nat) (len type : Z)
    (r : option nat) :
  (fuel <= fuel')%nat -> attrget_loop fuel b attrs len type = Some r ->
  attrget_loop fuel' b attrs len type = Some r.
Proof.
  intros Hle H. induction Hle as [|m _ IH]; [exact H|]. apply attrget_loop_more, IH.
Qed.

(** [attrvalidate] reads the list only. *)
Lemma attrvalidate_loop_window (fuel : nat) (b1 b2 : buffer) (a1 a2 : nat) (len : Z) :
  (forall k : nat, Z.of_nat k < len -> nth (a1 + k) b1 0 = nth (a2 + k) b2 0) ->
  attrvalidate_loop fuel b1 a1 len = attrvalidate_loop fuel b2 a2 len.
Proof.
  revert a1 a2 len. induction fuel as [|fuel IH]; intros a1 a2 len Hw; [reflexivity|].
  cbn [attrvalidate_loop]. destruct (Z.ltb_spec 1 len) as [Hlen|]; [|reflexivity].
  unfold ATTRLEN. rewrite (Hw 1%nat) by lia.
  destruct (Z.ltb_spec (nth (a2 + 1) b2 0) 2) as [|Hl2]; [reflexivity|]. cbv zeta.
  destruct (Z.ltb_spec (len - nth (a2 + 1) b2 0) 0); [reflexivity|].
  apply IH. intros k Hk. rewrite <- !Nat.add_assoc. apply Hw. lia.
Qed.

(** On a valid list [attrget] reads the list only: two lists with the same
    octets give the same attribute, each at its place. *)
Lemma attrget_loop_window (fuel : nat) (b1 b2 : buffer) (a1 a2 : nat) (len type : Z) :
  attrvalidate_loop fuel b2 a2 len = Some true ->
  (forall k : nat, Z.of_nat k < len -> nth (a1 + k) b1 0 = nth (a2 + k) b2 0) ->
  exists r1 r2,
    attrget_loop fuel b1 a1 len type = Some r1 /\
    attrget_loop fuel b2 a2 len type = Some r2 /\
    same_attr b2 b1 r2 r1.
Proof.
  revert a1 a2 len. induction fuel as [|fuel IH]; intros a1 a2 len Hv Hw; [discriminate Hv|].
  cbn [attrget_loop attrvalidate_loop] in *.
  destruct (Z.ltb_spec 1 len) as [Hlen|]; [|exists None, None; repeat split].
  unfold ATTRTYPE, ATTRLEN in *.
  pose proof (Hw 0%nat ltac:(lia)) as H0. rewrite !Nat.add_0_r in H0.
  pose proof (Hw 1%nat ltac:(lia)) as H1. rewrite H0, H1.
  destruct (Z.ltb_spec (nth (a2 + 1) b2 0) 2) as [|Hl2]; [discriminate Hv|]. cbv zeta in Hv.
  destruct (Z.ltb_spec (len - nth (a2 + 1) b2 0) 0) as [|Hfit]; [discriminate Hv|].
  destruct (nth a2 b2 0 =? type).
  - exists (Some a1), (Some a2). split; [reflexivity|]. split; [reflexivity|].
    split; [exact Hl2|]. intros k Hk. unfold ATTRLEN in Hk. apply Hw. lia.
  - destruct (IH (Nat.add a1 (Z.to_nat (nth (a2 + 1) b2 0)))
                (Nat.add a2 (Z.to_nat (nth (a2 + 1) b2 0)))
                (len - nth (a2 + 1) b2 0) Hv) as (r1 & r2 & Hr1 & Hr2 & Hrel).
    + intros k Hk. rewrite <- !Nat.add_assoc. apply Hw. lia.
    + exists r1, r2. auto.
Qed.

Lemma attrvalidate_std (b : buffer) (attrs : nat) (len : Z) (fuel : nat) :
  attrvalidate_loop fuel b attrs len = Some true -> attrvalidate b attrs len = Some true.
Proof.
  intros H. destruct (attrvalidate_total b attrs len) as [r Hr]. rewrite Hr. f_equal.
  unfold attrvalidate in Hr.
  destruct (Nat.le_ge_cases fuel (S (Z.to_nat len))) as [Hle|Hle].
  - pose proof (attrvalidate_loop_fuel _ _ _ _ _ _ Hle H). congruence.
  - pose proof (attrvalidate_loop_fuel _ _ _ _ _ _ Hle Hr). congruence.
Qed.

Lemma attrget_std (b : buffer) (attrs : nat) (len type : Z) (fuel : nat) (r : option nat) :
  attrvalidate_loop fuel b attrs len = Some true ->
  attrget_loop fuel b attrs len type = Some r -> attrget b attrs len type = Some r.
Proof.
  intros Hv H. apply attrvalidate_std in Hv.
  destruct (attrvalidate_attrget _ b attrs len type Hv) as (r0 & Hr0 & _).
  unfold attrget. rewrite Hr0. f_equal.
  destruct (Nat.le_ge_cases fuel (S (Z.to_nat len))) as [Hle|Hle].
  - pose proof (attrget_loop_fuel _ _ _ _ _ _ _ Hle H). congruence.
  - pose proof (attrget_loop_fuel _ _ _ _ _ _ _ Hle Hr0). congruence.
Qed.

Lemma nth_memcpy_at (d src : buffer) (off k : nat) :
  (off <= length d)%nat -> (k < length src)%nat ->
  nth (off + k) (memcpy d off src) 0 = nth k src 0.
Proof.
  intros Hd Hk. unfold memcpy. rewrite !nth_lookup.
  rewrite lookup_app_r by (rewrite length_take; lia).
  rewrite length_take, Nat.min_l by lia.
  replace (off + k - off)%nat with k by lia.
  rewrite lookup_app_l by exact Hk. reflexivity.
Qed.

Lemma nth_peek (t : buffer) (off n k : nat) :
  (k < n)%nat -> nth k (peek t off n) 0 = nth (off + k) t 0.
Proof.
  intros Hk. unfold peek. rewrite !nth_lookup, lookup_take_lt, lookup_drop by exact Hk.
  reflexivity.
Qed.

Lemma same_attr_trans (b1 b2 b3 : buffer) (r1 r2 r3 : option nat) :
  same_attr b1 b2 r1 r2 -> same_attr b2 b3 r2 r3 -> same_attr b1 b3 r1 r3.
Proof.
  unfold same_attr. destruct r1 as [a1|], r2 as [a2|], r3 as [a3|]; try tauto.
  intros [H2 H12] [_ H23].
  assert (ATTRLEN b2 a2 = ATTRLEN b1 a1) as Hl by (unfold ATTRLEN; apply H12; lia).
  split; [exact H2|]. intros k Hk. rewrite H23 by lia. apply H12, Hk.
Qed.

Lemma peek_eq_nth (a b : buffer) (off n : nat) :
  (off + n <= length a)%nat -> (off + n <= length b)%nat ->
  (forall k, (k < n)%nat -> nth (off + k) a 0 = nth (off + k) b 0) ->
  peek a off n = peek b off n.
Proof.
  intros Ha Hb H. unfold peek. apply take_eq_nth; rewrite ?length_drop; try lia.
  intros i Hi. rewrite !nth_lookup, !lookup_drop, <- !nth_lookup. apply H, Hi.
Qed.

Section RewriteFacts.

Variable dovendorrewrite : buffer -> nat -> Z -> list (Z * Z) -> option (buffer * Z).

Lemma dorewrite_loop_spec (rw : rewrite_t) (types : buffer) (fuel : nat) :
  removeattrs rw = Some types -> removevendorattrs rw = None ->
  forall (b : buffer) (attrs : nat) (len rmlen : Z),
    attrvalidate_loop fuel b attrs len = Some true ->
    0 <= len -> Z.of_nat attrs + len <= Z.of_nat (length b) ->
    0 <= rmlen -> rmlen + len < 65536 ->
    exists b' removed,
      dorewrite_loop dovendorrewrite fuel b rw attrs len rmlen = Some (b', rmlen + removed) /\
      0 <= removed <= len /\ length b' = length b /\
      (forall k, (k < attrs)%nat -> nth k b' 0 = nth k b 0) /\
      attrvalidate_loop fuel b' attrs (len - removed) = Some true /\
      (forall t, strchr types t = true ->
         attrget_loop fuel b' attrs (len - removed) t = Some None) /\
      (forall t, strchr types t = false ->
         exists r r', attrget_loop fuel b attrs len t = Some r /\
                      attrget_loop fuel b' attrs (len - removed) t = Some r' /\
                      same_attr b b' r r').
Proof.
  intros Hra Hrv. induction fuel as [|fuel IH]; intros b attrs len rmlen Hv H0 Hin Hr0 Hr;
    [discriminate Hv|].
  cbn [dorewrite_loop attrvalidate_loop] in *.
  destruct (Z.ltb_spec 1 len) as [Hlen|Hlen].
  2:{ exists b, 0. rewrite Z.add_0_r, Z.sub_0_r. cbn [attrvalidate_loop attrget_loop].
      destruct (Z.ltb_spec 1 len); [lia|].
      repeat split; try lia; try reflexivity.
      intros t _. exists None, None. repeat split. }
  set (alen := ATTRLEN b attrs) in *.
  destruct (Z.ltb_spec alen 2) as [|Hl2]; [discriminate Hv|]. cbv zeta in Hv.
  destruct (Z.ltb_spec (len - alen) 0) as [|Hfit]; [discriminate Hv|].
  cbv zeta. rewrite Hra, Hrv. rewrite (Z.mod_small (len - alen)) by lia.
  destruct (strchr types (ATTRTYPE b attrs)) eqn:Hs.
  - (* the attribute is removed *)
    unfold memmove.
    destruct (Z.ltb_spec (len - alen) 0); [lia|].
    destruct (Z.ltb_spec (Z.of_nat (length b)) (Z.of_nat (attrs + Z.to_nat alen) + (len - alen)));
      [lia|].
    destruct (Z.ltb_spec (Z.of_nat (length b)) (Z.of_nat attrs + (len - alen))); [lia|].
    cbn [orb mbind option_bind].
    set (moved := peek b (attrs + Z.to_nat alen) (Z.to_nat (len - alen))).
    assert (length moved = Z.to_nat (len - alen)) as Hlm by (apply length_peek; lia).
    set (b1 := memcpy b attrs moved).
    assert (length b1 = length b) as Hl1 by (apply length_memcpy; lia).
    assert (forall k : nat, Z.of_nat k < len - alen ->
              nth (attrs + k) b1 0 = nth (attrs + Z.to_nat alen + k) b 0) as Hw.
    { intros k Hk. unfold b1. rewrite nth_memcpy_at by lia.
      unfold moved. apply nth_peek. lia. }
    assert (forall k, (k < attrs)%nat -> nth k b1 0 = nth k b 0) as Hpre
      by (intros k Hk; apply nth_memcpy_below; lia).
    assert (attrvalidate_loop fuel b1 attrs (len - alen) = Some true) as Hv1.
    { rewrite (attrvalidate_loop_window fuel b1 b attrs (attrs + Z.to_nat alen) _ Hw).
      exact Hv. }
    rewrite (Z.mod_small (rmlen + alen)) by lia.
    destruct (IH b1 attrs (len - alen) (rmlen + alen) Hv1 ltac:(lia) ltac:(lia) ltac:(lia)
                ltac:(lia)) as (b' & rem & Hrun & Hrem & Hl' & Hpre' & Hv' & Hgone & Hkept).
    exists b', (alen + rem). rewrite Z.add_assoc.
    replace (len - (alen + rem)) with (len - alen - rem) by lia.
    split; [exact Hrun|]. split; [lia|]. split; [congruence|].
    split; [intros k Hk; rewrite Hpre' by exact Hk; apply Hpre, Hk|].
    split; [apply attrvalidate_loop_more, Hv'|].
    split; [intros t Ht; apply attrget_loop_more, Hgone, Ht|].
    intros t Ht. cbn [attrget_loop].
    destruct (Z.ltb_spec 1 len); [|lia].
    destruct (Z.eqb_spec (ATTRTYPE b attrs) t) as [E|_]; [congruence|]. fold alen.
    destruct (attrget_loop_window fuel b1 b attrs (attrs + Z.to_nat alen) (len - alen) t Hv Hw)
      as (r1 & r2 & Hr1 & Hr2 & Hrel).
    destruct (Hkept t Ht) as (r1' & r' & Hr1' & Hr' & Hrel').
    assert (r1' = r1) as -> by congruence.
    exists r2, r'. split; [exact Hr2|]. split; [apply attrget_loop_more, Hr'|].
    exact (same_attr_trans _ _ _ _ _ _ Hrel Hrel').
  - (* the attribute stays *)
    destruct (IH b (attrs + Z.to_nat alen)%nat (len - alen) rmlen Hv ltac:(lia) ltac:(lia)
                ltac:(lia) ltac:(lia)) as (b' & rem & Hrun & Hrem & Hl' & Hpre' & Hv' & Hgone & Hkept).
    exists b', rem. split; [exact Hrun|]. split; [lia|]. split; [exact Hl'|].
    split; [intros k Hk; apply Hpre'; lia|].
    assert (ATTRLEN b' attrs = alen) as Hal
      by (unfold alen, ATTRLEN; apply Hpre'; lia).
    assert (ATTRTYPE b' attrs = ATTRTYPE b attrs) as Hty
      by (unfold ATTRTYPE; apply Hpre'; lia).
    replace (len - alen - rem) with (len - rem - alen) in * by lia.
    split; [|split].
    + cbn [attrvalidate_loop]. rewrite Hal.
      destruct (Z.ltb_spec 1 (len - rem)); [|lia].
      destruct (Z.ltb_spec alen 2); [lia|]. cbv zeta.
      destruct (Z.ltb_spec (len - rem - alen) 0); [lia|]. exact Hv'.
    + intros t Ht. cbn [attrget_loop]. rewrite Hal, Hty.
      destruct (Z.ltb_spec 1 (len - rem)); [|lia].
      destruct (Z.eqb_spec (ATTRTYPE b attrs) t) as [E|_]; [congruence|].
      apply Hgone, Ht.
    + intros t Ht. cbn [attrget_loop]. rewrite Hal, Hty. fold alen.
      destruct (Z.ltb_spec 1 len); [|lia].
      destruct (Z.ltb_spec 1 (len - rem)); [|lia].
      destruct (Z.eqb_spec (ATTRTYPE b attrs) t) as [E|_].
      * exists (Some attrs), (Some attrs). split; [reflexivity|]. split; [reflexivity|].
        split; [exact Hl2|]. intros k Hk. apply Hpre'. fold alen in Hk. lia.
      * apply Hkept, Ht.
Qed.

End RewriteFacts.

Section RewriteRemoves.

Variable dovendorrewrite : buffer -> nat -> Z -> list (Z * Z) -> option (buffer * Z).

(** X20.  For a rewrite block that lists attribute types and no vendor
    attributes, and a packet with a valid attribute list, [dorewrite] leaves
    a packet with the same code, id and authenticator and a valid, shorter
    or equal attribute list, in which [attrget] finds no attribute of a
    listed type, and finds for every other type the attribute it found
    before, octet for octet. *)
Theorem dorewrite_removes (rw : rewrite_t) (types b : buffer) :
  removeattrs rw = Some types -> removevendorattrs rw = None ->
  20 <= RADLEN b <= 65535 -> RADLEN b <= Z.of_nat (length b) ->
  attrvalidate b 20 (RADLEN b - 20) = Some true ->
  exists b',
    dorewrite dovendorrewrite b (Some rw) = Some b' /\
    length b' = length b /\ take 2 b' = take 2 b /\ peek b' 4 16 = peek b 4 16 /\
    20 <= RADLEN b' <= RADLEN b /\
    attrvalidate b' 20 (RADLEN b' - 20) = Some true /\
    (forall t, strchr types t = true ->
       attrget b' 20 (RADLEN b' - 20) t = Some None) /\
    (forall t, strchr types t = false ->
       exists r r', attrget b 20 (RADLEN b - 20) t = Some r /\
                    attrget b' 20 (RADLEN b' - 20) t = Some r' /\
                    same_attr b b' r r').
Proof.
  intros Hra Hrv Hlen Hfit Hval. unfold dorewrite. rewrite Hra.
  cbv zeta. rewrite (Z.mod_small (RADLEN b - 20)) by lia.
  set (len := RADLEN b - 20) in *. set (fuel := S (Z.to_nat len)).
  destruct (dorewrite_loop_spec dovendorrewrite rw types fuel Hra Hrv b 20 len 0
              Hval ltac:(lia) ltac:(lia) ltac:(lia) ltac:(lia))
    as (b1 & rem & Hrun & Hrem & Hl1 & Hpre & Hv1 & Hgone & Hkept).
  rewrite Hrun. cbn [mbind option_bind]. rewrite Z.add_0_l.
  assert (RADLEN b1 = RADLEN b) as Hr1
    by (unfold RADLEN; rewrite !Hpre by lia; reflexivity).
  set (new := (RADLEN b1 - rem) mod 65536).
  assert (new = RADLEN b - rem) as Hnew by (unfold new; rewrite Hr1, Z.mod_small; lia).
  set (b' := if rem =? 0 then b1
             else <[3%nat := new mod 256]> (<[2%nat := new / 256]> b1)).
  assert ((if rem =? 0 then Some b1
           else Some (<[3%nat := new mod 256]> (<[2%nat := new / 256]> b1))) = Some b') as ->
    by (unfold b'; destruct (rem =? 0); reflexivity).
  assert (length b' = length b) as Hl'
    by (unfold b'; destruct (rem =? 0); rewrite ?length_insert; exact Hl1).
  assert (forall k, (k <> 2)%nat -> (k <> 3)%nat -> nth k b' 0 = nth k b1 0) as Hsame.
  { intros k H2 H3. unfold b'. destruct (rem =? 0); [reflexivity|].
    rewrite !nth_insert_ne by lia. reflexivity. }
  assert (RADLEN b' = RADLEN b - rem) as Hr'.
  { unfold b'. destruct (Z.eqb_spec rem 0) as [->|Hne]; [lia|].
    unfold RADLEN at 1. rewrite nth_insert_ne by lia.
    rewrite !nth_insert_eq by (rewrite ?length_insert; lia).
    pose proof (Z.div_mod new 256 ltac:(lia)). lia. }
  assert (forall k : nat, nth (20 + k) b' 0 = nth (20 + k) b1 0) as Hattrs
    by (intros k; apply Hsame; lia).
  assert (attrvalidate_loop fuel b' 20 (len - rem) = Some true) as Hv'.
  { rewrite (attrvalidate_loop_window fuel b' b1 20 20 _ (fun k _ => Hattrs k)). exact Hv1. }
  assert (forall t r, attrget_loop fuel b1 20 (len - rem) t = Some r ->
            attrget b' 20 (len - rem) t = Some r) as Hget.
  { intros t r Hr. apply (attrget_std _ _ _ _ fuel); [exact Hv'|].
    rewrite (attrget_loop_ext fuel b' b1); [exact Hr|].
    intros x Hx. replace x with (20 + (x - 20))%nat by lia. apply Hattrs. }
  exists b'. replace (RADLEN b' - 20) with (len - rem) by (unfold len; lia).
  split; [reflexivity|]. split; [exact Hl'|]. split; [|split; [|split; [|split; [|split]]]].
  - apply take_eq_nth; try lia. intros i Hi. rewrite Hsame by lia. apply Hpre. lia.
  - apply peek_eq_nth; try lia. intros k Hk. rewrite Hsame by lia. apply Hpre. lia.
  - unfold len in *. lia.
  - apply (attrvalidate_std _ _ _ fuel), Hv'.
  - intros t Ht. apply Hget, Hgone, Ht.
  - intros t Ht. destruct (Hkept t Ht) as (r & r' & Hr & Hrr & Hrel).
    exists r, r'. split; [exact Hr|]. split; [apply Hget, Hrr|].
    destruct r as [a|], r' as [a'|]; try exact Hrel. destruct Hrel as [H2 Hk].
    split; [exact H2|]. intros k Hlt. rewrite <- (Hk k Hlt). apply Hsame.
    + destruct (attrvalidate_attrget _ b1 20 (len - rem) t Hv1) as (r0 & Hr0 & Hin).
      rewrite Hrr in Hr0. injection Hr0 as <-. destruct (Hin a' eq_refl) as (Ha & _). lia.
    + destruct (attrvalidate_attrget _ b1 20 (len - rem) t Hv1) as (r0 & Hr0 & Hin).
      rewrite Hrr in Hr0. injection Hr0 as <-. destruct (Hin a' eq_refl) as (Ha & _). lia.
Qed.

End RewriteRemoves.

(** The attribute 79 leaves the packet of three attributes; User-Name and
    attribute 4 stay. *)
Lemma dorewrite_removes_witness :
  exists b',
    dorewrite (fun _ _ _ _ => None) request_3attrs (Some rewrite_2_79) = Some b' /\
    RADLEN b' = 29 /\
    attrget b' 20 (RADLEN b' - 20) 79 = Some None /\
    attrget b' 20 (RADLEN b' - 20) 4 = Some (Some 23%nat).
Proof.
  destruct (dorewrite_removes (fun _ _ _ _ => None) rewrite_2_79 [2; 79; 0] request_3attrs)
    as (b' & Hrun & _ & _ & _ & _ & _ & Hgone & _).
  - reflexivity.
  - reflexivity.
  - vm_compute. split; discriminate.
  - vm_compute. discriminate.
  - vm_compute. reflexivity.
  - exists b'. split; [exact Hrun|].
    vm_compute in Hrun. injection Hrun as <-.
    split; [reflexivity|]. split; [|reflexivity]. apply Hgone. reflexivity.
Defined.

(** ** Reading a packet from a TLS connection ([radtlsget]) *)

Lemma read_until_exact (n : nat) :
  forall (data rest got : buffer) (sizes : list nat) (bound : Z) (fuel : nat),
    length data = n -> bound = Z.of_nat (length got) + Z.of_nat (length data) ->
    (n < fuel)%nat ->
    exists sizes',
      read_until fuel (data ++ rest) sizes got bound = Some (Some (got ++ data, rest, sizes')).
Proof.
  induction n as [n IH] using lt_wf_ind.
  intros data rest got sizes bound [|fuel] Hn Hb Hf; [lia|]. cbn [read_until].
  destruct data as [|x data].
  - cbn [length] in Hb. destruct (Z.ltb_spec (Z.of_nat (length got)) bound); [lia|].
    rewrite app_nil_r. eexists. reflexivity.
  - cbn [length] in Hb, Hn. destruct (Z.ltb_spec (Z.of_nat (length got)) bound); [|lia].
    unfold SSL_read. cbn [app]. cbv zeta.
    set (cnt := Nat.min (Z.to_nat (bound - Z.of_nat (length got))) (S (hd 0%nat sizes))).
    assert (1 <= cnt <= S (length data))%nat as Hcnt by (unfold cnt; lia).
    change (x :: data ++ rest) with ((x :: data) ++ rest).
    rewrite take_app_le, drop_app_le by (cbn [length]; lia).
    destruct (IH (length (drop cnt (x :: data))) ltac:(rewrite length_drop; cbn [length]; lia)
                (drop cnt (x :: data)) rest (got ++ take cnt (x :: data)) (tl sizes) bound fuel
                eq_refl) as (sizes' & Hrun).
    + rewrite length_app, length_take, length_drop. cbn [length]. lia.
    + rewrite length_drop. cbn [length]. lia.
    + rewrite Hrun, <- app_assoc, take_drop. eexists. reflexivity.
Qed.

Lemma radtlsget_frame (f rest : buffer) (sizes : list nat) (fuel : nat) :
  framed f ->
  exists sizes',
    radtlsget (S fuel) (f ++ rest) sizes
    = if 20 <=? Z.of_nat (length f) then Some (Some (f, rest, sizes'))
      else radtlsget fuel rest sizes'.
Proof.
  intros [H4 Hlen]. cbn [radtlsget].
  assert (length (take 4 f) = 4%nat) as Hh by (rewrite length_take; lia).
  replace (f ++ rest) with (take 4 f ++ (drop 4 f ++ rest))
    by (rewrite app_assoc, take_drop; reflexivity).
  destruct (read_until_exact 4 (take 4 f) (drop 4 f ++ rest) [] sizes 4 5 Hh
              ltac:(rewrite Hh; reflexivity) ltac:(lia)) as (sizes1 & ->).
  cbn [mbind option_bind app].
  assert (RADLEN (take 4 f) = RADLEN f) as ->.
  { unfold RADLEN. rewrite !nth_lookup, !lookup_take_lt by lia. reflexivity. }
  destruct (Z.ltb_spec (RADLEN f) 4); [lia|].
  destruct (read_until_exact (length (drop 4 f)) (drop 4 f) rest (take 4 f) sizes1 (RADLEN f)
              (S (Z.to_nat (RADLEN f))) eq_refl) as (sizes2 & ->).
  - rewrite Hh, length_drop. lia.
  - rewrite length_drop. lia.
  - cbn [mbind option_bind]. rewrite take_drop. exists sizes2. reflexivity.
Qed.

(** X21.  From a connection that delivers well-formed frames
    [radtlsget] returns the first frame of at least 20 octets, whole and
    with nothing after it, and leaves what follows that frame on the
    connection; the frames of fewer than 20 octets before it are skipped.
    This holds whatever the sizes in which [SSL_read] delivers the
    octets. *)
Theorem radtlsget_frames (skipped : list buffer) (f rest : buffer) (sizes : list nat)
    (fuel : nat) :
  Forall (fun g => framed g /\ Z.of_nat (length g) < 20) skipped ->
  framed f -> 20 <= Z.of_nat (length f) -> (length skipped < fuel)%nat ->
  exists sizes',
    radtlsget fuel (concat skipped ++ f ++ rest) sizes = Some (Some (f, rest, sizes')).
Proof.
  intros Hs Hf H20. revert sizes fuel.
  induction Hs as [|g skipped [Hg Hshort] _ IH]; intros sizes [|fuel] Hfuel;
    cbn [length] in Hfuel; try lia; cbn [concat app].
  - destruct (radtlsget_frame f rest sizes fuel Hf) as (sizes' & ->).
    destruct (Z.leb_spec 20 (Z.of_nat (length f))); [|lia]. exists sizes'. reflexivity.
  - rewrite <- app_assoc.
    destruct (radtlsget_frame g (concat skipped ++ f ++ rest) sizes fuel Hg) as (sizes1 & ->).
    destruct (Z.leb_spec 20 (Z.of_nat (length g))); [lia|]. apply IH. lia.
Qed.

(** A frame of 8 octets, the request of the examples and two octets of
    the next frame, delivered three octets at a time. *)
Lemma radtlsget_frames_witness :
  exists sizes',
    radtlsget 2 tls_stream (repeat 2%nat 20)
    = Some (Some (named_request RAD_Access_Request 7, [2; 9], sizes')).
Proof.
  apply (radtlsget_frames [[RAD_Status_Server; 1; 0; 8; 0; 0; 0; 0]]
           (named_request RAD_Access_Request 7) [2; 9] (repeat 2%nat 20) 2).
  - constructor; [|constructor]. split; [split|]; vm_compute; congruence.
  - split; vm_compute; congruence.
  - vm_compute. discriminate.
  - cbn. lia.
Defined.

(** ** Host and port of a configuration line *)

Lemma skip_field (stop : Z -> bool) (f rest : buffer) :
  Forall (fun c => ((c =? 0) || stop c) = false) f ->
  ((hd 0 rest =? 0) || stop (hd 0 rest)) = true ->
  skip stop (f ++ rest) = length f.
Proof.
  intros Hf Hr. induction Hf as [|c f Hc Hf IH]; cbn [skip app].
  - destruct rest as [|c rest]; [reflexivity|]. cbn [skip hd] in *. rewrite Hr. reflexivity.
  - cbv beta in Hc. rewrite Hc, IH. reflexivity.
Qed.

Lemma field_of_weaken (stop : Z -> bool) (f : buffer) :
  field_of stop f ->
  Forall (fun c => ((c =? 0) || (stop c || blank c)) = false) f.
Proof.
  intros [_ Hf]. eapply Forall_impl; [exact Hf|]. cbn. intros c Hc.
  rewrite orb_assoc. exact Hc.
Qed.

Lemma field_of_blank (stop : Z -> bool) (f : buffer) :
  field_of stop f ->
  Forall (fun c => ((c =? 0) || blank c) = false) f.
Proof.
  intros [_ Hf]. eapply Forall_impl; [exact Hf|]. cbn. intros c Hc.
  destruct (c =? 0), (stop c), (blank c); cbn in *; congruence.
Qed.

Lemma field_of_length (stop : Z -> bool) (f : buffer) :
  field_of stop f -> (length f =? 0)%nat = false.
Proof. intros [Hn _]. destruct f; [congruence|reflexivity]. Qed.

(** X22. [parsehostport] splits "host:port": for a host without colon
    that does not start with a bracket and a port, both non-empty and free
    of NUL and blanks, followed by the end of the string or a blank, the
    host is the copy of the octets before the colon, the port the copy of
    the octets after it, and the returned pointer is at what follows; the
    default port is not used. *)
Theorem parsehostport_host_port (stringcopy : buffer -> Z -> buffer)
    (host port rest : buffer) (default_port : option buffer) :
  field_of (fun c => c =? 58) host -> hd 0 host <> 91 ->
  field_of (fun _ => false) port -> field_end rest ->
  parsehostport stringcopy (host ++ 58 :: port ++ rest) default_port =
  inr (stringcopy (host ++ 58 :: port ++ rest) (Z.of_nat (length host)),
       Some (stringcopy (port ++ rest) (Z.of_nat (length port))), rest).
Proof.
  intros Hh Hb Hp Hr. unfold parsehostport. cbv zeta.
  assert (Hhd : (hd 0 (host ++ 58 :: port ++ rest) =? 91) = false).
  { destruct Hh as [Hn _]. destruct host as [|c host]; [congruence|].
    cbn in *. apply Z.eqb_neq. exact Hb. }
  rewrite Hhd. cbn [andb].
  rewrite (skip_field _ host (58 :: port ++ rest));
    [|exact (field_of_weaken _ _ Hh) | reflexivity].
  rewrite (field_of_length _ _ Hh).
  rewrite drop_app_length. cbn [hd Z.eqb Pos.eqb drop].
  rewrite (skip_field _ port rest); [|exact (field_of_blank _ _ Hp) | exact Hr].
  rewrite (field_of_length _ _ Hp), ?drop_0, drop_app_length. reflexivity.
Qed.

Lemma parsehostport_host_port_witness :
  parsehostport copy_of [104; 58; 49; 56; 32; 120] (Some [55]) =
  inr ([104], Some [49; 56], [32; 120]).
Proof.
  apply (parsehostport_host_port copy_of [104] [49; 56] [32; 120] (Some [55])).
  - split; [discriminate | repeat constructor].
  - discriminate.
  - split; [discriminate | repeat constructor].
  - reflexivity.
Defined.

(** X23. [parsehostport] splits "[address]:port": between the brackets
    the address may hold colons; it is the copy of the octets between the
    brackets, the port is the copy of the octets after "]:", and the
    returned pointer is at what follows. *)
Theorem parsehostport_bracketed (stringcopy : buffer -> Z -> buffer)
    (host port rest : buffer) (default_port : option buffer) :
  field_of (fun c => c =? 93) host ->
  field_of (fun _ => false) port -> field_end rest ->
  parsehostport stringcopy (91 :: host ++ 93 :: 58 :: port ++ rest) default_port =
  inr (stringcopy (host ++ 93 :: 58 :: port ++ rest) (Z.of_nat (length host)),
       Some (stringcopy (port ++ rest) (Z.of_nat (length port))), rest).
Proof.
  intros Hh Hp Hr. unfold parsehostport. cbv zeta.
  cbn [hd Z.eqb Pos.eqb drop andb]. rewrite !drop_0.
  rewrite (skip_field _ host (93 :: 58 :: port ++ rest));
    [|exact (field_of_weaken _ _ Hh) | reflexivity].
  rewrite (field_of_length _ _ Hh).
  rewrite drop_app_length. cbn [hd Z.eqb Pos.eqb drop andb negb orb]. rewrite ?drop_0.
  rewrite (skip_field _ port rest); [|exact (field_of_blank _ _ Hp) | exact Hr].
  rewrite (field_of_length _ _ Hp), ?drop_0, drop_app_length. reflexivity.
Qed.

Lemma parsehostport_bracketed_witness :
  parsehostport copy_of [91; 58; 58; 49; 93; 58; 49; 56] None =
  inr ([58; 58; 49], Some [49; 56], []).
Proof.
  apply (parsehostport_bracketed copy_of [58; 58; 49] [49; 56] [] None).
  - split; [discriminate | repeat constructor].
  - split; [discriminate | repeat constructor].
  - reflexivity.
Defined.

(** X24. Without a port the default is used: for a host followed by the
    end of the string or a blank, [parsehostport] stores the copy of the
    host, the copy of the whole default port ([NULL] when there is none),
    and returns the pointer at what follows the host. *)
Theorem parsehostport_default_port (stringcopy : buffer -> Z -> buffer)
    (host rest : buffer) (default_port : option buffer) :
  field_of (fun c => c =? 58) host -> hd 0 host <> 91 -> field_end rest ->
  parsehostport stringcopy (host ++ rest) default_port =
  inr (stringcopy (host ++ rest) (Z.of_nat (length host)),
       (fun d => stringcopy d 0) <$> default_port, rest).
Proof.
  intros Hh Hb Hr. unfold parsehostport. cbv zeta.
  assert (Hhd : (hd 0 (host ++ rest) =? 91) = false).
  { destruct Hh as [Hn _]. destruct host as [|c host]; [congruence|].
    cbn in *. apply Z.eqb_neq. exact Hb. }
  rewrite Hhd. cbn [andb].
  assert (H58 : (hd 0 rest =? 58) = false).
  { unfold field_end, blank in Hr.
    destruct (hd 0 rest =? 58) eqn:E; [|reflexivity].
    apply Z.eqb_eq in E. rewrite E in Hr. discriminate. }
  rewrite (skip_field _ host rest);
    [|exact (field_of_weaken _ _ Hh) |].
  - rewrite (field_of_length _ _ Hh), drop_app_length, H58. reflexivity.
  - unfold field_end in Hr. rewrite H58. cbn [orb]. exact Hr.
Qed.

Lemma parsehostport_default_port_witness :
  parsehostport copy_of [104; 111; 32; 120] (Some [49; 56; 0; 7]) =
  inr ([104; 111], Some [49; 56], [32; 120]).
Proof.
  apply (parsehostport_default_port copy_of [104; 111] [32; 120] (Some [49; 56; 0; 7])).
  - split; [discriminate | repeat constructor].
  - discriminate.
  - reflexivity.
Defined.

(** ** Matching and rewriting options of a block *)

Lemma c_string_text (s : buffer) : text s -> c_string s = s.
Proof.
  induction 1 as [|c s Hc _ IH]; [reflexivity|]. cbn [c_string].
  apply Z.eqb_neq in Hc. rewrite Hc, IH. reflexivity.
Qed.

Lemma text_app (a b : buffer) : text a -> text b -> text (a ++ b).
Proof. intros Ha Hb. apply Forall_app. split; assumption. Qed.

Lemma tolower_zero (c : Z) : tolower c = 0 -> c = 0.
Proof.
  unfold tolower. destruct ((65 <=? c) && (c <=? 90)) eqn:E; [|auto].
  apply andb_true_iff in E. destruct E as [E _]. apply Z.leb_le in E. lia.
Qed.

Lemma text_tolower (a b : buffer) : tolower <$> a = tolower <$> b -> text b -> text a.
Proof.
  revert b. induction a as [|c a IH]; intros [|d b] H Hb; try discriminate.
  - constructor.
  - cbn in H. injection H as Hc Hab. inversion Hb as [|? ? Hd Hb']. subst.
    constructor; [|exact (IH b Hab Hb')].
    intros ->. cbn in Hc. symmetry in Hc. apply tolower_zero in Hc. contradiction.
Qed.

Lemma strncasecmp_prefix (pre rest pat : buffer) :
  tolower <$> pre = tolower <$> pat -> text pat -> text rest ->
  strncasecmp (pre ++ rest) pat (length pat) = false.
Proof.
  intros H Hp Hr. unfold strncasecmp.
  assert (Hpre : text pre) by exact (text_tolower _ _ H Hp).
  assert (Hlen : length pre = length pat).
  { rewrite <- (length_fmap tolower pre), H, length_fmap. reflexivity. }
  rewrite (c_string_text (pre ++ rest)) by (apply text_app; assumption).
  rewrite (c_string_text pat) by assumption.
  rewrite <- Hlen, take_app_length, Hlen, firstn_all.
  rewrite bool_decide_eq_true_2 by exact H. reflexivity.
Qed.

Lemma before_app (c : Z) (a b : buffer) : c ∉ a -> before c (a ++ c :: b) = a.
Proof.
  induction a as [|x a IH]; intros H; cbn [before app].
  - rewrite Z.eqb_refl. reflexivity.
  - apply not_elem_of_cons in H. destruct H as [Hx Ha].
    apply not_eq_sym, Z.eqb_neq in Hx. rewrite Hx, IH by assumption. reflexivity.
Qed.

Lemma after_app (c : Z) (a b : buffer) : c ∉ a -> after c (a ++ c :: b) = b.
Proof.
  induction a as [|x a IH]; intros H; cbn [after app].
  - rewrite Z.eqb_refl. reflexivity.
  - apply not_elem_of_cons in H. destruct H as [Hx Ha].
    apply not_eq_sym, Z.eqb_neq in Hx. rewrite Hx, IH by assumption. reflexivity.
Qed.

Lemma strip_slash_app (s : buffer) : text s -> strip_slash (s ++ [47]) = s.
Proof.
  intros Hs. unfold strip_slash.
  rewrite c_string_text by (apply text_app; [assumption | repeat constructor; discriminate]).
  rewrite last_snoc, bool_decide_eq_true_2 by reflexivity.
  apply removelast_last.
Qed.

Lemma strip_slash_keep (s : buffer) : text s -> last s <> Some 47 -> strip_slash s = s.
Proof.
  intros Hs Hl. unfold strip_slash. rewrite c_string_text by assumption.
  rewrite bool_decide_eq_false_2 by exact Hl. reflexivity.
Qed.

Lemma strncasecmp_head (c d : Z) (a b : buffer) (n : nat) :
  d <> 0 -> tolower c <> tolower d -> strncasecmp (c :: a) (d :: b) (S n) = true.
Proof.
  intros Hd Hcd. unfold strncasecmp. cbn [c_string].
  apply Z.eqb_neq in Hd. rewrite Hd.
  rewrite bool_decide_eq_false_2; [reflexivity|].
  intros E. destruct (c =? 0); cbn [take firstn fmap list_fmap] in E;
    [discriminate E | injection E as E _; contradiction].
Qed.

Lemma text_hd (s rest : buffer) : s <> [] -> text s -> (hd 0 (s ++ rest) =? 0) = false.
Proof.
  intros Hn Hs. destruct s as [|c s]; [congruence|].
  inversion Hs. cbn. apply Z.eqb_neq. assumption.
Qed.

(** X25. [addmatchcertattr] takes a "CN:/" value for the subjectAltName
    URI: for a prefix equal to "CN:/" case apart, 16 further octets and a
    pattern that is not empty, all free of NUL, and a last slash, the
    pattern is compiled into [certuriregex] and [certcnregex] is left as
    it was; 1 is returned when the pattern compiles. *)
Theorem addmatchcertattr_cn_value (regcomp : buffer -> Z -> option regex_t)
    (conf : clsrvconf) (pre mid pattern : buffer) :
  tolower <$> pre = tolower <$> ascii_bytes "CN:/" ->
  text mid -> length mid = 16%nat -> text pattern -> pattern <> [] ->
  addmatchcertattr regcomp conf (pre ++ mid ++ pattern ++ [47]) =
  match regcomp pattern (Z.lor REG_ICASE REG_NOSUB) with
  | Some re => Some (set_regex conf uri_regex (Some re), 1)
  | None => Some (set_regex conf uri_regex None, 0)
  end.
Proof.
  intros Hpre Hmid Hlm Hp Hne. unfold addmatchcertattr. cbv zeta.
  assert (H47 : text [47]) by (repeat constructor; discriminate).
  assert (Hrest : text (mid ++ pattern ++ [47])) by (repeat apply text_app; assumption).
  pose proof (strncasecmp_prefix pre _ (ascii_bytes "CN:/") Hpre
                ltac:(repeat constructor; discriminate) Hrest) as Hcmp.
  change (length (ascii_bytes "CN:/")) with 4%nat in Hcmp. rewrite Hcmp.
  assert (Hlen : length pre = 4%nat).
  { rewrite <- (length_fmap tolower pre), Hpre. reflexivity. }
  destruct pre as [|c pre']; [discriminate|].
  assert (Hc : tolower c = 99).
  { change (tolower <$> c :: pre') with (tolower c :: (tolower <$> pre')) in Hpre.
    injection Hpre as Hc _. exact Hc. }
  change (ascii_bytes "SubjectAltName:URI:/")
    with (83 :: ascii_bytes "ubjectAltName:URI:/").
  cbn [app]. rewrite strncasecmp_head; [|discriminate | rewrite Hc; discriminate].
  change (c :: pre' ++ mid ++ pattern ++ [47])
    with ((c :: pre') ++ mid ++ pattern ++ [47]).
  rewrite app_assoc.
  assert (H20 : length ((c :: pre') ++ mid) = 20%nat) by (rewrite length_app, Hlen, Hlm; reflexivity).
  replace (Nat.ltb (length (((c :: pre') ++ mid) ++ pattern ++ [47])) 20) with false
    by (symmetry; apply Nat.ltb_ge; rewrite length_app, H20; lia).
  rewrite <- H20, drop_app_length.
  rewrite (text_hd pattern [47] Hne Hp).
  rewrite strip_slash_app by assumption.
  pose proof (text_hd pattern [] Hne Hp) as Hhd. rewrite app_nil_r in Hhd.
  rewrite Hhd. reflexivity.
Qed.

Lemma addmatchcertattr_cn_value_witness :
  addmatchcertattr literal conf_named
    (ascii_bytes "cn:/" ++ ascii_bytes "0123456789abcdef" ++ ascii_bytes "radius" ++ [47]) =
  match literal (ascii_bytes "radius") (Z.lor REG_ICASE REG_NOSUB) with
  | Some re => Some (set_regex conf_named uri_regex (Some re), 1)
  | None => Some (set_regex conf_named uri_regex None, 0)
  end.
Proof.
  apply (addmatchcertattr_cn_value literal conf_named (ascii_bytes "cn:/")
           (ascii_bytes "0123456789abcdef") (ascii_bytes "radius")).
  - reflexivity.
  - repeat constructor; discriminate.
  - reflexivity.
  - repeat constructor; discriminate.
  - discriminate.
Defined.

(** X26. [addmatchcertattr] takes a "SubjectAltName:URI:/" value for the
    CN: for a prefix equal to "SubjectAltName:URI:/" case apart, a pattern
    free of NUL and a last slash, [certcnregex] is compiled from the text
    at offset 4, which is the prefix without its first four octets and then
    the pattern; [certuriregex] is left as it was. *)
Theorem addmatchcertattr_uri_value (regcomp : buffer -> Z -> option regex_t)
    (conf : clsrvconf) (pre pattern : buffer) :
  tolower <$> pre = tolower <$> ascii_bytes "SubjectAltName:URI:/" ->
  text pattern ->
  addmatchcertattr regcomp conf (pre ++ pattern ++ [47]) =
  match regcomp (drop 4 pre ++ pattern) (Z.lor REG_ICASE REG_NOSUB) with
  | Some re => Some (set_regex conf cn_regex (Some re), 1)
  | None => Some (set_regex conf cn_regex None, 0)
  end.
Proof.
  intros Hpre Hp. unfold addmatchcertattr. cbv zeta.
  assert (H47 : text [47]) by (repeat constructor; discriminate).
  assert (Htp : text pre).
  { apply (text_tolower _ _ Hpre). repeat constructor; discriminate. }
  assert (Hlen : length pre = 20%nat).
  { rewrite <- (length_fmap tolower pre), Hpre. reflexivity. }
  assert (Htd : text (drop 4 pre)) by (apply Forall_drop; exact Htp).
  assert (Hnd : drop 4 pre <> []).
  { intros E. apply (f_equal length) in E. rewrite length_drop, Hlen in E. discriminate. }
  destruct pre as [|c pre'] eqn:Epre; [discriminate|].
  assert (Hc : tolower c = 115).
  { change (tolower <$> c :: pre') with (tolower c :: (tolower <$> pre')) in Hpre.
    injection Hpre as Hc _. exact Hc. }
  change (ascii_bytes "CN:/") with (67 :: ascii_bytes "N:/").
  cbn [app]. rewrite strncasecmp_head; [|discriminate | rewrite Hc; discriminate].
  change (c :: pre' ++ pattern ++ [47]) with ((c :: pre') ++ pattern ++ [47]).
  replace (Nat.ltb (length ((c :: pre') ++ pattern ++ [47])) 4) with false
    by (symmetry; apply Nat.ltb_ge; rewrite length_app, Hlen; lia).
  rewrite drop_app_le by (rewrite Hlen; lia).
  rewrite (text_hd _ (pattern ++ [47]) Hnd Htd).
  rewrite app_assoc, strip_slash_app by (apply text_app; assumption).
  pose proof (text_hd _ pattern Hnd Htd) as Hhd. rewrite Hhd. reflexivity.
Qed.

Lemma addmatchcertattr_uri_value_witness :
  addmatchcertattr literal conf_named
    (ascii_bytes "SubjectAltName:URI:/" ++ ascii_bytes "radius" ++ [47]) =
  match literal (drop 4 (ascii_bytes "SubjectAltName:URI:/") ++ ascii_bytes "radius")
          (Z.lor REG_ICASE REG_NOSUB) with
  | Some re => Some (set_regex conf_named cn_regex (Some re), 1)
  | None => Some (set_regex conf_named cn_regex None, 0)
  end.
Proof.
  apply (addmatchcertattr_uri_value literal conf_named
           (ascii_bytes "SubjectAltName:URI:/") (ascii_bytes "radius")).
  - reflexivity.
  - repeat constructor; discriminate.
Defined.

(** X27. [addrewriteattr] splits "User-Name:/regex/replacement/": for a
    prefix equal to "User-Name:/" case apart, a regex without slash and a
    replacement, both free of NUL, the regex is compiled from the text
    between the first two slashes and the replacement is the copy of the
    text between the second and the last slash; 1 is returned when the
    regex compiles, and 0 with both fields cleared when it does not. *)
Theorem addrewriteattr_splits (regcomp : buffer -> Z -> option regex_t)
    (stringcopy : buffer -> Z -> buffer) (conf : clsrvconf) (pre re repl : buffer) :
  tolower <$> pre = tolower <$> ascii_bytes "User-Name:/" ->
  text re -> 47 ∉ re -> text repl ->
  addrewriteattr regcomp stringcopy conf (pre ++ re ++ 47 :: repl ++ [47]) =
  match regcomp re (Z.lor REG_ICASE REG_EXTENDED) with
  | Some r => Some (set_rewriteattr conf (Some r) (stringcopy repl 0), 1)
  | None => Some (set_rewriteattr conf None [], 0)
  end.
Proof.
  intros Hpre Hre Hslash Hrepl. unfold addrewriteattr. cbv zeta.
  assert (H47 : text [47]) by (repeat constructor; discriminate).
  assert (Hv : text (re ++ 47 :: repl)).
  { apply text_app; [assumption|]. constructor; [discriminate | assumption]. }
  assert (Hrest : text (re ++ 47 :: repl ++ [47])).
  { apply text_app; [assumption|]. constructor; [discriminate|].
    apply text_app; assumption. }
  assert (Hlen : length pre = 11%nat).
  { rewrite <- (length_fmap tolower pre), Hpre. reflexivity. }
  pose proof (strncasecmp_prefix pre _ (ascii_bytes "User-Name:/") Hpre
                ltac:(repeat constructor; discriminate) Hrest) as Hcmp.
  change (length (ascii_bytes "User-Name:/")) with 11%nat in Hcmp.
  rewrite Hcmp. cbn [orb].
  rewrite <- Hlen, drop_app_length.
  assert (Hhd : (hd 0 (re ++ 47 :: repl ++ [47]) =? 0) = false).
  { destruct re as [|c re']; [reflexivity|].
    inversion Hre. cbn. apply Z.eqb_neq. assumption. }
  rewrite Hhd.
  replace (re ++ 47 :: repl ++ [47]) with ((re ++ 47 :: repl) ++ [47])
    by (rewrite <- app_assoc; reflexivity).
  rewrite strip_slash_app by exact Hv.
  rewrite bool_decide_eq_true_2
    by (apply elem_of_app; right; apply list_elem_of_here).
  cbn [negb]. rewrite before_app, after_app by assumption. reflexivity.
Qed.

Lemma addrewriteattr_splits_witness :
  addrewriteattr literal copy_of conf_named
    (ascii_bytes "user-name:/" ++ ascii_bytes "a@b" ++ 47 :: ascii_bytes "c/d" ++ [47]) =
  match literal (ascii_bytes "a@b") (Z.lor REG_ICASE REG_EXTENDED) with
  | Some r => Some (set_rewriteattr conf_named (Some r) (copy_of (ascii_bytes "c/d") 0), 1)
  | None => Some (set_rewriteattr conf_named None [], 0)
  end.
Proof.
  apply (addrewriteattr_splits literal copy_of conf_named (ascii_bytes "user-name:/")
           (ascii_bytes "a@b") (ascii_bytes "c/d")).
  - reflexivity.
  - repeat constructor; discriminate.
  - intros H. repeat (apply elem_of_cons in H; destruct H as [H|H]; [discriminate H|]).
    apply elem_of_nil in H. exact H.
  - repeat constructor; discriminate.
Defined.

(** X28. [addrewriteattr] needs the replacement part: for
    "User-Name:/regex/" or "User-Name:/regex", with a regex that is not
    empty and holds neither NUL nor slash, [strchr] finds no slash once
    the last one is removed and the test on [*w] reads through [NULL]. *)
Theorem addrewriteattr_needs_replacement (regcomp : buffer -> Z -> option regex_t)
    (stringcopy : buffer -> Z -> buffer) (conf : clsrvconf) (pre re : buffer) :
  tolower <$> pre = tolower <$> ascii_bytes "User-Name:/" ->
  re <> [] -> text re -> 47 ∉ re ->
  addrewriteattr regcomp stringcopy conf (pre ++ re ++ [47]) = None /\
  addrewriteattr regcomp stringcopy conf (pre ++ re) = None.
Proof.
  intros Hpre Hne Hre Hslash.
  assert (H47 : text [47]) by (repeat constructor; discriminate).
  assert (Hlen : length pre = 11%nat).
  { rewrite <- (length_fmap tolower pre), Hpre. reflexivity. }
  assert (Hhd : forall rest, (hd 0 (re ++ rest) =? 0) = false).
  { intros rest. destruct re as [|c re']; [congruence|].
    inversion Hre. cbn. apply Z.eqb_neq. assumption. }
  assert (Hcmp : forall rest, text rest ->
            strncasecmp (pre ++ rest) (ascii_bytes "User-Name:/") 11 = false).
  { intros rest Hrest.
    exact (strncasecmp_prefix pre rest (ascii_bytes "User-Name:/") Hpre
             ltac:(repeat constructor; discriminate) Hrest). }
  split; unfold addrewriteattr; cbv zeta.
  - rewrite Hcmp by (apply text_app; assumption). cbn [orb].
    rewrite <- Hlen, drop_app_length, Hhd.
    rewrite strip_slash_app by assumption.
    rewrite bool_decide_eq_false_2 by assumption. reflexivity.
  - rewrite Hcmp by assumption. cbn [orb].
    rewrite <- Hlen, drop_app_length.
    pose proof (Hhd []) as Hhd0. rewrite app_nil_r in Hhd0. rewrite Hhd0.
    rewrite strip_slash_keep; [|assumption|].
    + rewrite bool_decide_eq_false_2 by assumption. reflexivity.
    + intros Hl. apply Hslash. apply last_Some_elem_of. exact Hl.
Qed.

Lemma addrewriteattr_needs_replacement_witness :
  addrewriteattr literal copy_of conf_named
    (ascii_bytes "User-Name:/" ++ ascii_bytes "a@b" ++ [47]) = None /\
  addrewriteattr literal copy_of conf_named
    (ascii_bytes "User-Name:/" ++ ascii_bytes "a@b") = None.
Proof.
  apply (addrewriteattr_needs_replacement literal copy_of conf_named
           (ascii_bytes "User-Name:/") (ascii_bytes "a@b")).
  - reflexivity.
  - discriminate.
  - repeat constructor; discriminate.
  - intros H. repeat (apply elem_of_cons in H; destruct H as [H|H]; [discriminate H|]).
    apply elem_of_nil in H. exact H.
Defined.
